(** * Booking-state extraction of the dental booking assistant

    A shallow embedding of [extractBookingState], [determineCurrentStep] and
    [updateBookingState] of [src/app/api/chat/route.ts], together with the
    parts of the language they call: strings of UTF-16 code units, the
    string methods [toLowerCase], [includes] and [trim], and the backtracking
    regular-expression matcher behind [String.prototype.match] and
    [RegExp.prototype.test]. *)

From Stdlib Require Import List NArith ZArith Arith Bool Lia.
From Stdlib Require Import Strings.String Strings.Ascii.
From Stdlib Require Import DecimalString.
Import ListNotations.

Set Implicit Arguments.

(** ** Strings

    A JavaScript string is a sequence of UTF-16 code units; a code unit is a
    number, kept in [N]. *)

Module JsString.

Definition jsstring : Type := list N.

(** A string literal of the source, all of whose characters are ASCII. *)
Definition lit (s : string) : jsstring :=
  List.map N_of_ascii (list_ascii_of_string s).

Arguments lit s%_string.

Fixpoint eqb (a b : jsstring) : bool :=
  match a, b with
  | [], [] => true
  | x :: a', y :: b' => N.eqb x y && eqb a' b'
  | _, _ => false
  end.

(** [!s] on a string: only the empty string is falsy. *)
Definition falsy (s : jsstring) : bool :=
  match s with
  | [] => true
  | _ :: _ => false
  end.

(** [a || b] on strings. *)
Definition or_else (a b : jsstring) : jsstring :=
  if falsy a then b else a.

Definition in_range (lo hi c : N) : bool := N.leb lo c && N.leb c hi.

Definition in_ranges (rs : list (N * N)) (c : N) : bool :=
  existsb (fun r => in_range (fst r) (snd r) c) rs.

Definition is_upper (c : N) : bool := in_range 65 90 c.
Definition is_lower (c : N) : bool := in_range 97 122 c.

(** [toLowerCase], one code unit at a time.  The ASCII capitals go to their
    small letters, and so does the Kelvin sign U+212A, the one code unit
    outside ASCII whose lower-case form is an ASCII letter.  Every other code
    unit is kept.  The language maps any other code unit of 128 or more to
    code units of 128 or more, but for U+0130, which becomes an [i] followed
    by U+0307; the lowered text is only ever searched for ASCII keywords, and
    none of them ends in [i], so neither difference can be seen by
    [includes]. *)
Definition lower_unit (c : N) : N :=
  if is_upper c then (c + 32)%N
  else if N.eqb c 8490 then 107%N
  else c.

Definition toLowerCase (s : jsstring) : jsstring := List.map lower_unit s.

Fixpoint starts_with (t s : jsstring) : bool :=
  match t, s with
  | [], _ => true
  | x :: t', y :: s' => N.eqb x y && starts_with t' s'
  | _ :: _, [] => false
  end.

(** [s.includes(t)]. *)
Fixpoint includes (s t : jsstring) : bool :=
  starts_with t s ||
  match s with
  | [] => false
  | _ :: s' => includes s' t
  end.

(** White space and line terminators: what [\s] matches and [trim] strips. *)
Definition white_ranges : list (N * N) :=
  [ (9, 13); (32, 32); (160, 160); (5760, 5760); (8192, 8202);
    (8232, 8233); (8239, 8239); (8287, 8287); (12288, 12288);
    (65279, 65279) ]%N.

Definition is_white (c : N) : bool := in_ranges white_ranges c.

Definition is_line_terminator (c : N) : bool :=
  in_ranges [ (10, 10); (13, 13); (8232, 8233) ]%N c.

Fixpoint trimStart (s : jsstring) : jsstring :=
  match s with
  | c :: s' => if is_white c then trimStart s' else s
  | [] => []
  end.

Definition trimEnd (s : jsstring) : jsstring := rev (trimStart (rev s)).

Definition trim (s : jsstring) : jsstring := trimEnd (trimStart s).

End JsString.

Import JsString.

(** ** Regular expressions

    The matcher follows the backtracking semantics of the language: a term
    applied to a state gives every state it can end in, most preferred first.
    The first element of that list is the match a continuation-passing
    matcher finds first; the rest are what it falls back to. *)

Module RegExp.

Inductive regex : Type :=
| Eps
| Chr (c : N)
| Cls (rs : list (N * N))
| Dot
| Bol
| Eol
| Cat (r1 r2 : regex)
| Alt (r1 r2 : regex)
| Rep (mn : nat) (mx : option nat) (r : regex)
| Grp (i : nat) (r : regex).

(** A regular-expression literal: its pattern and its [i] flag. *)
Record pattern : Type := { source : regex; ignoreCase : bool }.

(** The matcher's state: the index reached, the input from there on, and
    what each group captured ([None] for undefined). *)
Record mstate : Type :=
  { endIndex : nat; rest : jsstring; captures : nat -> option jsstring }.

(** The result array of a match: element 0 and the groups. *)
Record match_result : Type :=
  { index : nat; matched : jsstring; groups : nat -> option jsstring }.

(** [m[k]]. *)
Definition at_ (m : match_result) (k : nat) : option jsstring :=
  match k with
  | O => Some (matched m)
  | S _ => groups m k
  end.

Definition set_capture (i : nat) (v : jsstring)
    (caps : nat -> option jsstring) : nat -> option jsstring :=
  fun j => if Nat.eqb j i then Some v else caps j.

Fixpoint groups_of (r : regex) : list nat :=
  match r with
  | Cat a b | Alt a b => groups_of a ++ groups_of b
  | Rep _ _ a => groups_of a
  | Grp i a => i :: groups_of a
  | _ => []
  end.

(** Each round of a quantifier starts with the groups of its atom undefined. *)
Definition clear_captures (gs : list nat) (s : mstate) : mstate :=
  {| endIndex := endIndex s;
     rest := rest s;
     captures := fun j => if existsb (Nat.eqb j) gs then None else captures s j |}.

(** With the [i] flag two code units match when their canonical (upper-case)
    forms agree.  A code unit of 128 or more never canonicalizes below 128,
    and every literal and class bound of the patterns embedded below is an
    ASCII character or has no case, so this is agreement up to the case of
    the ASCII letters. *)
Definition swapcase (c : N) : N :=
  if is_upper c then (c + 32)%N
  else if is_lower c then (c - 32)%N
  else c.

Definition chr_matches (ic : bool) (p c : N) : bool :=
  N.eqb p c || (ic && N.eqb p (swapcase c)).

Definition cls_matches (ic : bool) (rs : list (N * N)) (c : N) : bool :=
  in_ranges rs c || (ic && in_ranges rs (swapcase c)).

Definition step_char (p : N -> bool) (s : mstate) : list mstate :=
  match rest s with
  | c :: tl =>
      if p c
      then [ {| endIndex := S (endIndex s); rest := tl; captures := captures s |} ]
      else []
  | [] => []
  end.

Definition is_zero (mx : option nat) : bool :=
  match mx with
  | Some O => true
  | _ => false
  end.

(** A greedy quantifier [{mn,mx}] ([mx = None] for no upper bound) over the
    matcher [m] of its atom.  A round that consumes nothing once the minimum
    is reached is rejected, as the language does.  [fuel] bounds the rounds;
    [S (mn + length (rest s))] is always enough ([repeatL_fuel] below). *)
Fixpoint repeatL (m : mstate -> list mstate) (clr : mstate -> mstate)
    (fuel mn : nat) (mx : option nat) (s : mstate) : list mstate :=
  match fuel with
  | O => []
  | S fuel' =>
      if is_zero mx then [s]
      else
        flat_map
          (fun s' =>
             if Nat.eqb mn 0 && Nat.eqb (endIndex s') (endIndex s) then []
             else repeatL m clr fuel' (pred mn) (option_map pred mx) s')
          (m (clr s))
        ++ (if Nat.eqb mn 0 then [s] else [])
  end.

Section Matcher.

Variable ic : bool.

Fixpoint matchL (r : regex) (s : mstate) : list mstate :=
  match r with
  | Eps => [s]
  | Chr c => step_char (chr_matches ic c) s
  | Cls rs => step_char (cls_matches ic rs) s
  | Dot => step_char (fun c => negb (is_line_terminator c)) s
  | Bol => if Nat.eqb (endIndex s) 0 then [s] else []
  | Eol => match rest s with [] => [s] | _ :: _ => [] end
  | Cat a b => flat_map (matchL b) (matchL a s)
  | Alt a b => matchL a s ++ matchL b s
  | Rep mn mx a =>
      repeatL (matchL a) (clear_captures (groups_of a))
        (S (mn + List.length (rest s))) mn mx s
  | Grp i a =>
      List.map
        (fun s' =>
           {| endIndex := endIndex s';
              rest := rest s';
              captures :=
                set_capture i (firstn (endIndex s' - endIndex s) (rest s))
                  (captures s') |})
        (matchL a s)
  end.

(** One attempt, at index [i] where [tl] is the input from [i] on. *)
Definition match_at (r : regex) (i : nat) (tl : jsstring) : option match_result :=
  match matchL r {| endIndex := i; rest := tl; captures := fun _ => None |} with
  | s' :: _ =>
      Some {| index := i;
              matched := firstn (endIndex s' - i) tl;
              groups := captures s' |}
  | [] => None
  end.

(** The attempts of [exec] without the [g] flag: index 0, 1, ... up to the
    length of the input; the first success is the result. *)
Fixpoint scan (r : regex) (i : nat) (tl : jsstring) : option match_result :=
  match match_at r i tl with
  | Some m => Some m
  | None =>
      match tl with
      | [] => None
      | _ :: tl' => scan r (S i) tl'
      end
  end.

End Matcher.

(** [s.match(p)] for a pattern without the [g] flag; [None] is [null]. *)
Definition match_ (s : jsstring) (p : pattern) : option match_result :=
  scan (ignoreCase p) (source p) 0 s.

(** [p.test(s)]. *)
Definition test (p : pattern) (s : jsstring) : bool :=
  match match_ s p with
  | Some _ => true
  | None => false
  end.

(** [s'] is [s] moved forward over part of the input. *)
Definition advances (s s' : mstate) : Prop :=
  exists u,
    rest s = u ++ rest s' /\ endIndex s' = endIndex s + List.length u.

(** [defines i r]: group [i] closes on every path through [r], and nothing
    after it contains the group. *)
Fixpoint defines (i : nat) (r : regex) : bool :=
  match r with
  | Grp j _ => Nat.eqb j i
  | Cat a b =>
      defines i b || (defines i a && negb (existsb (Nat.eqb i) (groups_of b)))
  | _ => false
  end.

(** *** Writing patterns *)

Fixpoint cat (rs : list regex) : regex :=
  match rs with
  | [] => Eps
  | [r] => r
  | r :: rs' => Cat r (cat rs')
  end.

Fixpoint alt (rs : list regex) : regex :=
  match rs with
  | [] => Eps
  | [r] => r
  | r :: rs' => Alt r (alt rs')
  end.

Definition str (s : string) : regex :=
  fold_right (fun c r => Cat (Chr c) r) Eps (lit s).

Arguments str s%_string.

Definition chr (s : string) : regex :=
  match lit s with
  | c :: _ => Chr c
  | [] => Eps
  end.

Arguments chr s%_string.

Definition star (r : regex) : regex := Rep 0 None r.
Definition plus (r : regex) : regex := Rep 1 None r.
Definition opt (r : regex) : regex := Rep 0 (Some 1) r.
Definition times (n : nat) (r : regex) : regex := Rep n (Some n) r.
Definition between (n m : nat) (r : regex) : regex := Rep n (Some m) r.
Definition at_least (n : nat) (r : regex) : regex := Rep n None r.

Definition az : list (N * N) := [ (97, 122) ]%N.
Definition AZ : list (N * N) := [ (65, 90) ]%N.
Definition d09 : list (N * N) := [ (48, 57) ]%N.
Definition one (s : string) : list (N * N) :=
  List.map (fun c => (c, c)) (lit s).

Arguments one s%_string.

Definition digit : regex := Cls d09.
Definition space : regex := Cls white_ranges.

End RegExp.

Import RegExp.

(** ** Failure

    Reading a group that took no part in a match gives [undefined].  Calling
    [trim] on it throws a [TypeError]; storing it in a field of the record
    throws nothing but leaves a record whose field is no string.  Both are
    failures of the embedding, so that a result [Ok r] is a record of strings
    returned without an exception. *)

Inductive failure : Type :=
| TypeError
| UndefinedField.

Inductive result (A : Type) : Type :=
| Ok (a : A)
| Throw (e : failure).

Arguments Ok {A} a.
Arguments Throw {A} e.

Definition bind {A B : Type} (c : result A) (k : A -> result B) : result B :=
  match c with
  | Ok a => k a
  | Throw e => Throw e
  end.

Notation "x <- c ;; k" := (bind c (fun x => k))
  (at level 61, c at next level, right associativity).

(** A [for ... of] loop over [l] whose body updates the state [s]. *)
Fixpoint forEach {A S : Type} (body : S -> A -> result S) (l : list A) (s : S)
    : result S :=
  match l with
  | [] => Ok s
  | a :: l' => s' <- body s a ;; forEach body l' s'
  end.

(** ** The data model of route.ts *)

Record ChatMessage : Type := { role : jsstring; content : jsstring }.

Record BookingState : Type :=
  { step : nat;
    patientName : jsstring;
    phoneNumber : jsstring;
    email : jsstring;
    serviceType : jsstring;
    preferredDate : jsstring;
    preferredTime : jsstring;
    urgency : jsstring;
    additionalNotes : jsstring;
    isComplete : bool }.

Definition set_step (v : nat) (s : BookingState) : BookingState :=
  {| step := v; patientName := patientName s; phoneNumber := phoneNumber s;
     email := email s; serviceType := serviceType s;
     preferredDate := preferredDate s; preferredTime := preferredTime s;
     urgency := urgency s; additionalNotes := additionalNotes s;
     isComplete := isComplete s |}.

Definition set_patientName (v : jsstring) (s : BookingState) : BookingState :=
  {| step := step s; patientName := v; phoneNumber := phoneNumber s;
     email := email s; serviceType := serviceType s;
     preferredDate := preferredDate s; preferredTime := preferredTime s;
     urgency := urgency s; additionalNotes := additionalNotes s;
     isComplete := isComplete s |}.

Definition set_phoneNumber (v : jsstring) (s : BookingState) : BookingState :=
  {| step := step s; patientName := patientName s; phoneNumber := v;
     email := email s; serviceType := serviceType s;
     preferredDate := preferredDate s; preferredTime := preferredTime s;
     urgency := urgency s; additionalNotes := additionalNotes s;
     isComplete := isComplete s |}.

Definition set_email (v : jsstring) (s : BookingState) : BookingState :=
  {| step := step s; patientName := patientName s;
     phoneNumber := phoneNumber s; email := v; serviceType := serviceType s;
     preferredDate := preferredDate s; preferredTime := preferredTime s;
     urgency := urgency s; additionalNotes := additionalNotes s;
     isComplete := isComplete s |}.

Definition set_serviceType (v : jsstring) (s : BookingState) : BookingState :=
  {| step := step s; patientName := patientName s;
     phoneNumber := phoneNumber s; email := email s; serviceType := v;
     preferredDate := preferredDate s; preferredTime := preferredTime s;
     urgency := urgency s; additionalNotes := additionalNotes s;
     isComplete := isComplete s |}.

Definition set_preferredDate (v : jsstring) (s : BookingState) : BookingState :=
  {| step := step s; patientName := patientName s;
     phoneNumber := phoneNumber s; email := email s;
     serviceType := serviceType s; preferredDate := v;
     preferredTime := preferredTime s; urgency := urgency s;
     additionalNotes := additionalNotes s; isComplete := isComplete s |}.

Definition set_preferredTime (v : jsstring) (s : BookingState) : BookingState :=
  {| step := step s; patientName := patientName s;
     phoneNumber := phoneNumber s; email := email s;
     serviceType := serviceType s; preferredDate := preferredDate s;
     preferredTime := v; urgency := urgency s;
     additionalNotes := additionalNotes s; isComplete := isComplete s |}.

Definition set_urgency (v : jsstring) (s : BookingState) : BookingState :=
  {| step := step s; patientName := patientName s;
     phoneNumber := phoneNumber s; email := email s;
     serviceType := serviceType s; preferredDate := preferredDate s;
     preferredTime := preferredTime s; urgency := v;
     additionalNotes := additionalNotes s; isComplete := isComplete s |}.

Definition set_isComplete (v : bool) (s : BookingState) : BookingState :=
  {| step := step s; patientName := patientName s;
     phoneNumber := phoneNumber s; email := email s;
     serviceType := serviceType s; preferredDate := preferredDate s;
     preferredTime := preferredTime s; urgency := urgency s;
     additionalNotes := additionalNotes s; isComplete := v |}.

(** ** The patterns and keyword tables of [extractBookingState] *)

Definition letters : list (N * N) := az ++ AZ.

(** [[a-zA-Z]+\s+[a-zA-Z]+] *)
Definition two_words : regex :=
  cat [ plus (Cls letters); plus space; plus (Cls letters) ].

Definition namePatterns : list pattern :=
  [ (* /(?:my name is|i'm|i am|name.*is)\s+([a-zA-Z\s]+)/i *)
    {| source :=
         cat [ alt [ str "my name is"; str "i'm"; str "i am";
                     cat [ str "name"; star Dot; str "is" ] ];
               plus space;
               Grp 1 (plus (Cls (letters ++ white_ranges))) ];
       ignoreCase := true |};
    (* /^([a-zA-Z]+\s+[a-zA-Z]+)$/i *)
    {| source := cat [ Bol; Grp 1 two_words; Eol ]; ignoreCase := true |};
    (* /([a-zA-Z]+\s+[a-zA-Z]+)/i *)
    {| source := Grp 1 two_words; ignoreCase := true |} ].

(** /^[a-zA-Z\s]+$/ *)
Definition nameCheck : pattern :=
  {| source := cat [ Bol; plus (Cls (letters ++ white_ranges)); Eol ];
     ignoreCase := false |}.

(** [[-.\s]?] *)
Definition sep : regex := opt (Cls (one "-." ++ white_ranges)).

Definition phonePatterns : list pattern :=
  [ (* /(\d{4}\d{6})/ *)
    {| source := Grp 1 (cat [ times 4 digit; times 6 digit ]);
       ignoreCase := false |};
    (* /(\d{3}[-.\s]?\d{3}[-.\s]?\d{4})/ *)
    {| source :=
         Grp 1 (cat [ times 3 digit; sep; times 3 digit; sep; times 4 digit ]);
       ignoreCase := false |};
    (* /(\+\d{1,3}[-.\s]?\d{8,12})/ *)
    {| source :=
         Grp 1 (cat [ chr "+"; between 1 3 digit; sep; between 8 12 digit ]);
       ignoreCase := false |};
    (* /(\d{10,12})/ *)
    {| source := Grp 1 (between 10 12 digit); ignoreCase := false |} ].

(** /[a-zA-Z0-9._%+-]+@[a-zA-Z0-9.-]+\.[a-zA-Z]{2,}/ *)
Definition emailPattern : pattern :=
  {| source :=
       cat [ plus (Cls (letters ++ d09 ++ one "._%+-"));
             chr "@";
             plus (Cls (letters ++ d09 ++ one ".-"));
             chr ".";
             at_least 2 (Cls letters) ];
     ignoreCase := false |}.

Definition serviceKeywords : list (jsstring * list jsstring) :=
  [ (lit "cleaning", [ lit "cleaning"; lit "clean" ]);
    (lit "checkup",
      [ lit "checkup"; lit "check-up"; lit "check up"; lit "examination" ]);
    (lit "whitening", [ lit "whitening"; lit "whiten"; lit "bleaching" ]);
    (lit "filling", [ lit "filling"; lit "cavity"; lit "drill" ]);
    (lit "emergency",
      [ lit "emergency"; lit "urgent"; lit "pain"; lit "broken tooth" ]) ].

Definition dateKeywords : list jsstring :=
  [ lit "monday"; lit "tuesday"; lit "wednesday"; lit "thursday";
    lit "friday"; lit "tomorrow"; lit "next week" ].

(** [(?:am|pm)] *)
Definition am_pm : regex := alt [ str "am"; str "pm" ].

Definition timePatterns : list pattern :=
  [ (* /(\d{1,2}(?::\d{2})?\s*(?:am|pm))/i *)
    {| source :=
         Grp 1 (cat [ between 1 2 digit;
                      opt (cat [ chr ":"; times 2 digit ]);
                      star space;
                      am_pm ]);
       ignoreCase := true |};
    (* /(\d{1,2}\s*(?:am|pm))/i *)
    {| source := Grp 1 (cat [ between 1 2 digit; star space; am_pm ]);
       ignoreCase := true |};
    (* /(\d{1,2}:\d{2})/i *)
    {| source := Grp 1 (cat [ between 1 2 digit; chr ":"; times 2 digit ]);
       ignoreCase := true |} ].

(** ** [extractBookingState] *)

Definition initialState : BookingState :=
  {| step := 1; patientName := []; phoneNumber := []; email := [];
     serviceType := []; preferredDate := []; preferredTime := [];
     urgency := lit "routine"; additionalNotes := []; isComplete := false |}.

(** The loop over [namePatterns]: a pattern whose capture fails the check is
    passed over, the first one that passes sets the name and breaks. *)
Fixpoint tryNames (content : jsstring) (ps : list pattern)
    (state : BookingState) : result BookingState :=
  match ps with
  | [] => Ok state
  | p :: ps' =>
      match match_ content p with
      | Some nameMatch =>
          match at_ nameMatch 1 with
          | Some g =>
              let extractedName := trim g in
              if (2 <=? List.length extractedName) && test nameCheck extractedName
              then Ok (set_patientName extractedName state)
              else tryNames content ps' state
          | None => Throw TypeError
          end
      | None => tryNames content ps' state
      end
  end.

(** The loops over [phonePatterns] and [timePatterns]: the first pattern that
    matches gives the value, its group 1. *)
Fixpoint firstGroup (content : jsstring) (ps : list pattern)
    : result (option jsstring) :=
  match ps with
  | [] => Ok None
  | p :: ps' =>
      match match_ content p with
      | Some m =>
          match at_ m 1 with
          | Some g => Ok (Some g)
          | None => Throw UndefinedField
          end
      | None => firstGroup content ps'
      end
  end.

(** [keywords.some(keyword => lowerContent.includes(keyword))] *)
Definition someIncluded (lowerContent : jsstring) (keywords : list jsstring)
    : bool :=
  existsb (fun keyword => includes lowerContent keyword) keywords.

(** The loop over [Object.entries(serviceKeywords)]. *)
Fixpoint tryServices (lowerContent : jsstring)
    (entries : list (jsstring * list jsstring)) (state : BookingState)
    : BookingState :=
  match entries with
  | [] => state
  | (service, keywords) :: entries' =>
      if someIncluded lowerContent keywords
      then
        let state := set_serviceType service state in
        if eqb service (lit "emergency")
        then set_urgency (lit "emergency") state
        else state
      else tryServices lowerContent entries' state
  end.

(** The loop over [dateKeywords]. *)
Fixpoint tryDates (lowerContent : jsstring) (keywords : list jsstring)
    (state : BookingState) : BookingState :=
  match keywords with
  | [] => state
  | keyword :: keywords' =>
      if includes lowerContent keyword
      then set_preferredDate keyword state
      else tryDates lowerContent keywords' state
  end.

(** The six blocks of the loop body, named after the comments that head
    them in the source. *)

(* Extract name *)
Definition extractName (content : jsstring) (state : BookingState)
    : result BookingState :=
  if falsy (patientName state)
  then tryNames content namePatterns state
  else Ok state.

(* Extract phone *)
Definition extractPhone (content : jsstring) (state : BookingState)
    : result BookingState :=
  if falsy (phoneNumber state)
  then
    phoneMatch <- firstGroup content phonePatterns ;;
    match phoneMatch with
    | Some g => Ok (set_phoneNumber g state)
    | None => Ok state
    end
  else Ok state.

(* Extract email *)
Definition extractEmail (content : jsstring) (state : BookingState)
    : BookingState :=
  if falsy (email state)
  then
    match match_ content emailPattern with
    | Some emailMatch => set_email (matched emailMatch) state
    | None => state
    end
  else state.

(* Extract service *)
Definition extractService (lowerContent : jsstring) (state : BookingState)
    : BookingState :=
  if falsy (serviceType state)
  then tryServices lowerContent serviceKeywords state
  else state.

(* Extract date *)
Definition extractDate (lowerContent : jsstring) (state : BookingState)
    : BookingState :=
  if falsy (preferredDate state)
  then tryDates lowerContent dateKeywords state
  else state.

(* Extract time *)
Definition extractTime (content : jsstring) (state : BookingState)
    : result BookingState :=
  if falsy (preferredTime state)
  then
    timeMatch <- firstGroup content timePatterns ;;
    match timeMatch with
    | Some g => Ok (set_preferredTime g state)
    | None => Ok state
    end
  else Ok state.

(** The body of the loop over the user messages. *)
Definition processMessage (state : BookingState) (message : ChatMessage)
    : result BookingState :=
  let content := content message in
  let lowerContent := toLowerCase content in
  state <- extractName content state ;;
  state <- extractPhone content state ;;
  let state := extractEmail content state in
  let state := extractService lowerContent state in
  let state := extractDate lowerContent state in
  extractTime content state.

Definition determineCurrentStep (state : BookingState) : nat :=
  if falsy (patientName state) then 1
  else if falsy (phoneNumber state) then 2
  else if falsy (email state) then 3
  else if falsy (serviceType state) then 4
  else if falsy (preferredDate state) then 5
  else if falsy (preferredTime state) then 6
  else 7.

Definition isUser (msg : ChatMessage) : bool := eqb (role msg) (lit "user").

Definition extractBookingState (messages : list ChatMessage)
    : result BookingState :=
  let state := initialState in
  let userMessages := filter isUser messages in
  state <- forEach processMessage userMessages state ;;
  let state := set_step (determineCurrentStep state) state in
  let state := set_isComplete (7 <? step state) state in
  Ok state.

(** ** [updateBookingState] and its call in [POST] *)

Definition affirmativeTokens : list jsstring :=
  [ lit "yes"; lit "confirm"; lit "book it"; lit "correct" ].

Definition updateBookingState (currentState : BookingState)
    (latestMessage : jsstring) (allMessages : list ChatMessage)
    : result BookingState :=
  let content := toLowerCase latestMessage in
  let newState := currentState in
  freshState <- extractBookingState allMessages ;;
  let newState :=
    set_patientName (or_else (patientName freshState) (patientName newState))
      newState in
  let newState :=
    set_phoneNumber (or_else (phoneNumber freshState) (phoneNumber newState))
      newState in
  let newState :=
    set_email (or_else (email freshState) (email newState)) newState in
  let newState :=
    set_serviceType (or_else (serviceType freshState) (serviceType newState))
      newState in
  let newState :=
    set_preferredDate
      (or_else (preferredDate freshState) (preferredDate newState)) newState in
  let newState :=
    set_preferredTime
      (or_else (preferredTime freshState) (preferredTime newState)) newState in
  let newState := set_step (determineCurrentStep newState) newState in
  if (includes content (lit "yes") || includes content (lit "confirm")
      || includes content (lit "book it") || includes content (lit "correct"))
     && (7 <=? step newState)
  then Ok (set_isComplete true newState)
  else Ok newState.

(** [messages[messages.length - 1]?.content || ''] *)
Definition latestContent (messages : list ChatMessage) : jsstring :=
  match rev messages with
  | m :: _ => or_else (content m) []
  | [] => []
  end.

(** The record [POST] names [updatedState]. *)
Definition updatedState (messages : list ChatMessage) : result BookingState :=
  bookingState <- extractBookingState messages ;;
  updateBookingState bookingState (latestContent messages) messages.

Definition user (s : string) : ChatMessage :=
  {| role := lit "user"; content := lit s |}.

Definition assistant (s : string) : ChatMessage :=
  {| role := lit "assistant"; content := lit s |}.

Arguments user s%_string.
Arguments assistant s%_string.

(** ** The state of the module around the extractor

    route.ts keeps one mutable map, [rateLimitSessions], and reads the clock
    with [Date.now()].  A computation of the module is a function of that
    ambient state, returning its result and the state it leaves. *)

Record RateLimitSession : Type := { lastApiCall : Z; callCount : Z }.

Record World : Type :=
  { rateLimitSessions : list (jsstring * RateLimitSession); now : Z }.

Definition Eff (A : Type) : Type := World -> A * World.

Definition MIN_DELAY_BETWEEN_CALLS : Z := 2000.
Definition MAX_CALLS_PER_SESSION : Z := 10.

(** [rateLimitSessions.get(sessionId)] *)
Fixpoint get (sessionId : jsstring) (m : list (jsstring * RateLimitSession))
    : option RateLimitSession :=
  match m with
  | [] => None
  | (k, v) :: m' => if eqb k sessionId then Some v else get sessionId m'
  end.

(** [rateLimitSessions.set(sessionId, v)], also the write through the object
    [get] returned: an entry keeps its place, a new key goes last. *)
Fixpoint set (sessionId : jsstring) (v : RateLimitSession)
    (m : list (jsstring * RateLimitSession))
    : list (jsstring * RateLimitSession) :=
  match m with
  | [] => [ (sessionId, v) ]
  | (k, v') :: m' =>
      if eqb k sessionId then (k, v) :: m' else (k, v') :: set sessionId v m'
  end.

Definition checkRateLimit (sessionId : jsstring) : Eff (bool * Z) :=
  fun w =>
    let session := get sessionId (rateLimitSessions w) in
    let now_ := now w in
    match session with
    | None =>
        ((true, 0%Z),
         {| rateLimitSessions :=
              set sessionId {| lastApiCall := now_; callCount := 1 |}
                (rateLimitSessions w);
            now := now w |})
    | Some session =>
        if (MAX_CALLS_PER_SESSION <=? callCount session)%Z
        then ((false, 0%Z), w)
        else
          let timeSinceLastCall := (now_ - lastApiCall session)%Z in
          if (timeSinceLastCall <? MIN_DELAY_BETWEEN_CALLS)%Z
          then ((false, (MIN_DELAY_BETWEEN_CALLS - timeSinceLastCall)%Z), w)
          else
            ((true, 0%Z),
             {| rateLimitSessions :=
                  set sessionId
                    {| lastApiCall := now_;
                       callCount := (callCount session + 1)%Z |}
                    (rateLimitSessions w);
                now := now w |})
    end.

(** ** Vocabulary of the specification *)

(** The six fields in the order the step follows. *)
Definition fields (r : BookingState) : list jsstring :=
  [ patientName r; phoneNumber r; email r; serviceType r; preferredDate r;
    preferredTime r ].

(** The ordinal, counting from [n], of the first empty string of a list, or
    [n] plus its length when none is empty. *)
Fixpoint firstEmpty (n : nat) (fs : list jsstring) : nat :=
  match fs with
  | [] => n
  | f :: fs' => if falsy f then n else firstEmpty (S n) fs'
  end.

(** [tok] occurs in [s] up to case. *)
Definition contains_ci (s tok : jsstring) : Prop :=
  exists pre u post,
    s = pre ++ u ++ post /\ toLowerCase u = toLowerCase tok.

(** The latest message contains one of the affirmative tokens. *)
Definition affirmative (latestMessage : jsstring) : Prop :=
  exists tok, In tok affirmativeTokens /\ contains_ci latestMessage tok.

(** A field filled in [r] has the same value in [r']. *)
Definition locked (r r' : BookingState) : Prop :=
  (patientName r <> [] -> patientName r' = patientName r) /\
  (phoneNumber r <> [] -> phoneNumber r' = phoneNumber r) /\
  (email r <> [] -> email r' = email r) /\
  (serviceType r <> [] -> serviceType r' = serviceType r) /\
  (preferredDate r <> [] -> preferredDate r' = preferredDate r) /\
  (preferredTime r <> [] -> preferredTime r' = preferredTime r).

(** The keywords of the four categories tried before [emergency]. *)
Definition earlierKeywords : list jsstring :=
  flat_map snd (firstn 4 serviceKeywords).

(** The category a lowered message selects: the first whose keyword it
    includes. *)
Fixpoint serviceOf (lowerContent : jsstring)
    (entries : list (jsstring * list jsstring)) : option jsstring :=
  match entries with
  | [] => None
  | (service, keywords) :: entries' =>
      if someIncluded lowerContent keywords then Some service
      else serviceOf lowerContent entries'
  end.

(** What the loop leaves before the step and the completion flag are set. *)
Definition looped (messages : list ChatMessage) : result BookingState :=
  forEach processMessage (filter isUser messages) initialState.

(** The last two assignments of [extractBookingState]. *)
Definition finish (state : BookingState) : BookingState :=
  let state := set_step (determineCurrentStep state) state in
  set_isComplete (7 <? step state) state.

(** The record [updateBookingState] builds before it looks at the latest
    message: each field of the fresh extraction, or the current one where the
    fresh one is empty, and the step of the result. *)
Definition merged (currentState freshState : BookingState) : BookingState :=
  let newState := currentState in
  let newState :=
    set_patientName (or_else (patientName freshState) (patientName newState))
      newState in
  let newState :=
    set_phoneNumber (or_else (phoneNumber freshState) (phoneNumber newState))
      newState in
  let newState :=
    set_email (or_else (email freshState) (email newState)) newState in
  let newState :=
    set_serviceType (or_else (serviceType freshState) (serviceType newState))
      newState in
  let newState :=
    set_preferredDate
      (or_else (preferredDate freshState) (preferredDate newState)) newState in
  let newState :=
    set_preferredTime
      (or_else (preferredTime freshState) (preferredTime newState)) newState in
  set_step (determineCurrentStep newState) newState.

(** The test [updateBookingState] makes on the lowered latest message. *)
Definition saysYes (content : jsstring) : bool :=
  includes content (lit "yes") || includes content (lit "confirm")
  || includes content (lit "book it") || includes content (lit "correct").

(** The last statement of [updateBookingState]. *)
Definition confirmed (latestMessage : jsstring) (newState : BookingState)
    : BookingState :=
  if saysYes (toLowerCase latestMessage) && (7 <=? step newState)
  then set_isComplete true newState
  else newState.

(** [service] and [urgency] of [b] are those of [a]. *)
Definition sameService (a b : BookingState) : Prop :=
  serviceType b = serviceType a /\ urgency b = urgency a.

(** The relation between [serviceType] and [urgency] that the loop keeps. *)
Definition urgencyFollowsService (s : BookingState) : Prop :=
  serviceType s = lit "emergency" /\ urgency s = lit "emergency" \/
  serviceType s <> lit "emergency" /\ urgency s = lit "routine".

(** Six messages that fill the six fields, and the confirmation after them. *)
Definition sixMessages : list ChatMessage :=
  [ user "John Smith"; user "555-123-4567"; user "john@example.com";
    user "cleaning"; user "monday"; user "10:00 am" ].

Definition confirmedConversation : list ChatMessage :=
  sixMessages ++ [ user "yes, confirm" ].

(** ** The quick replies of the chat window

    [getQuickReplies] of [src/components/Chatbot.tsx]; [None] is [null]. *)

Definition getQuickReplies (bookingState : option BookingState)
    : list jsstring :=
  match bookingState with
  | None => []
  | Some bookingState =>
      match step bookingState with
      | 4 => (* Service selection *)
          [ lit "Cleaning"; lit "Checkup"; lit "Whitening"; lit "Filling";
            lit "Emergency" ]
      | 5 => (* Date selection *)
          [ lit "Monday"; lit "Tuesday"; lit "Wednesday"; lit "Thursday";
            lit "Friday" ]
      | 6 => (* Time selection *)
          [ lit "10:00 AM"; lit "2:00 PM"; lit "4:00 PM" ]
      | 7 => (* Confirmation *)
          [ lit "Yes, confirm"; lit "Make changes" ]
      | _ => []
      end
  end.

(** The message the chat window posts for the text [input]. *)
Definition userMessage (input : jsstring) : ChatMessage :=
  {| role := lit "user"; content := input |}.

(** The day a lowered message selects: the first keyword it includes. *)
Fixpoint dateOf (lowerContent : jsstring) (keywords : list jsstring)
    : option jsstring :=
  match keywords with
  | [] => None
  | keyword :: keywords' =>
      if includes lowerContent keyword then Some keyword
      else dateOf lowerContent keywords'
  end.

(** ** Text outside ASCII, and numbers as text

    The source is UTF-8; a string literal with a character outside ASCII is
    read here as its bytes and decoded to the UTF-16 code units the string
    has at run time (a surrogate pair for a character above U+FFFF). *)

Fixpoint utf16 (bytes : list N) : jsstring :=
  match bytes with
  | [] => []
  | b1 :: t1 =>
      if (b1 <? 128)%N then b1 :: utf16 t1
      else if (b1 <? 224)%N then
        match t1 with
        | b2 :: t2 => ((b1 - 192) * 64 + (b2 - 128))%N :: utf16 t2
        | [] => [ b1 ]
        end
      else if (b1 <? 240)%N then
        match t1 with
        | b2 :: b3 :: t3 =>
            ((b1 - 224) * 4096 + (b2 - 128) * 64 + (b3 - 128))%N :: utf16 t3
        | _ => b1 :: utf16 t1
        end
      else
        match t1 with
        | b2 :: b3 :: b4 :: t4 =>
            let v :=
              ((b1 - 240) * 262144 + (b2 - 128) * 4096 + (b3 - 128) * 64
               + (b4 - 128) - 65536)%N in
            (55296 + v / 1024)%N :: (56320 + v mod 1024)%N :: utf16 t4
        | _ => b1 :: utf16 t1
        end
  end.

Definition text (s : string) : jsstring := utf16 (lit s).

Arguments text s%_string.

(** The line feed and the double quote, escaped in the source. *)
Definition nl : jsstring := [ 10%N ].
Definition quote : jsstring := [ 34%N ].

(** [String(n)] for a natural number and for an integer. *)
Definition natToString (n : nat) : jsstring :=
  lit (NilZero.string_of_uint (Nat.to_uint n)).

Definition intToString (z : Z) : jsstring :=
  lit (NilZero.string_of_int (Z.to_int z)).

(** ** The replies of route.ts *)

Definition getFallbackResponse (bookingState : BookingState) : jsstring :=
  match step bookingState with
  | 1 =>
      lit "Welcome to Dr. Smile! I'm here to help you book an appointment. To get started, could you please tell me your full name?"
  | 2 =>
      lit "Thank you, " ++ patientName bookingState ++
      lit "! Now I'll need your phone number so we can contact you about your appointment. Please provide your phone number."
  | 3 =>
      lit "Perfect! I have your phone number as " ++ phoneNumber bookingState ++
      lit ". Next, could you please provide your email address for appointment confirmations?"
  | 4 =>
      lit "Great! I have your email as " ++ email bookingState ++
      lit ". Now, what type of dental service would you like to book?" ++
      nl ++ nl ++ text "• Routine Cleaning ($120)" ++
      nl ++ text "• Comprehensive Checkup ($80)" ++
      nl ++ text "• Teeth Whitening ($300)" ++
      nl ++ text "• Dental Fillings ($150-250)" ++
      nl ++ text "• Emergency Consultation ($200)" ++
      nl ++ nl ++ lit "Which service interests you?"
  | 5 =>
      lit "Excellent choice! You've selected " ++ serviceType bookingState ++
      lit ". Now, which day would work best for you? We're available Monday through Friday. What's your preferred day?"
  | 6 =>
      lit "Perfect! You've chosen " ++ preferredDate bookingState ++
      lit ". For that day, we have appointments available at:" ++
      nl ++ text "• 10:00 AM" ++ nl ++ text "• 2:00 PM" ++
      nl ++ text "• 4:00 PM" ++
      nl ++ nl ++ lit "Which time slot would you prefer?"
  | 7 =>
      lit "Excellent! Let me confirm your appointment details:" ++
      nl ++ nl ++ text "👤 Name: " ++ patientName bookingState ++
      nl ++ text "📞 Phone: " ++ phoneNumber bookingState ++
      nl ++ text "📧 Email: " ++ email bookingState ++
      nl ++ text "🔧 Service: " ++ serviceType bookingState ++
      nl ++ text "📅 Date: " ++ preferredDate bookingState ++
      nl ++ text "🕒 Time: " ++ preferredTime bookingState ++
      nl ++ nl ++
      lit "Is all this information correct? Please confirm by saying " ++
      quote ++ lit "yes" ++ quote ++ lit " to book your appointment."
  | _ =>
      lit "I'm here to help you book your dental appointment. Let's start with your name - what should I call you?"
  end.

(** [s.repeat(count)]: a negative count throws a [RangeError], here [None]. *)
Definition repeat_ (s : jsstring) (count : Z) : option jsstring :=
  if (count <? 0)%Z then None
  else Some (List.concat (repeat s (Z.to_nat count))).

Definition stepNames : list jsstring :=
  [ lit "Name"; lit "Phone"; lit "Email"; lit "Service"; lit "Date";
    lit "Time"; lit "Confirm" ].

(** [addProgressIndicator]; [None] when a [repeat] throws. *)
Definition addProgressIndicator (reply : jsstring) (bookingState : BookingState)
    : option jsstring :=
  match repeat_ (text "▓") (Z.of_nat (step bookingState)) with
  | None => None
  | Some filled =>
      match repeat_ (text "░") (7 - Z.of_nat (step bookingState)) with
      | None => None
      | Some empty =>
          let progressBar := filled ++ empty in
          let stepName :=
            match step bookingState with
            | O => lit "Complete"
            | S i => nth i stepNames (lit "Complete")
            end in
          Some (reply ++ nl ++ nl ++ text "📋 **Booking Progress:** " ++
                progressBar ++ lit " (" ++ natToString (step bookingState) ++
                lit "/7 - " ++ stepName ++ lit ")")
      end
  end.

(** [messages[messages.length - 1]?.content.toLowerCase().includes(token)],
    as a condition: [undefined] for an empty list is falsy. *)
Definition latestIncludes (messages : list ChatMessage) (token : jsstring)
    : bool :=
  match rev messages with
  | m :: _ => includes (toLowerCase (content m)) token
  | [] => false
  end.

(** The condition under which [POST] calls [sendBookingEmail]. *)
Definition sendsEmail (reply : jsstring) (updatedState : BookingState)
    (messages : list ChatMessage) : bool :=
  isComplete updatedState
  || ((7 <=? step updatedState)
      && (includes (toLowerCase reply) (lit "booking")
          && includes (toLowerCase reply) (lit "confirm")
          || latestIncludes messages (lit "yes")
          || latestIncludes messages (lit "confirm"))).

(** ** The sessions of the rate limiter *)

Definition SESSION_CLEANUP_INTERVAL : Z := 300000.

(** [rateLimitSessions.delete(sessionId)] *)
Fixpoint delete (sessionId : jsstring) (m : list (jsstring * RateLimitSession))
    : list (jsstring * RateLimitSession) :=
  match m with
  | [] => []
  | (k, v) :: m' =>
      if eqb k sessionId then m' else (k, v) :: delete sessionId m'
  end.

(** The callback of [setInterval]: every entry of the map is visited once, in
    order, and deleted when it is too old; deleting the entry being visited
    does not disturb the iteration. *)
Definition cleanupSessions : Eff unit :=
  fun w =>
    let now_ := now w in
    (tt,
     {| rateLimitSessions :=
          fold_left
            (fun m entry =>
               if (SESSION_CLEANUP_INTERVAL <? now_ - lastApiCall (snd entry))%Z
               then delete (fst entry) m
               else m)
            (rateLimitSessions w) (rateLimitSessions w);
        now := now w |}).

(** [/[^a-zA-Z0-9]/] *)
Definition isAlphanumeric (c : N) : bool := in_ranges (az ++ AZ ++ d09) c.

(** [getSessionId].  [random] is the text [Math.random().toString(36)]
    would give.  [replace] with the [g] flag and an empty replacement drops
    every code unit the class matches. *)
Definition getSessionId (random : jsstring) (messages : list ChatMessage)
    : Eff jsstring :=
  fun w =>
    match messages with
    | first :: _ =>
        let firstMessage := content first in
        let stamp := intToString (now w) in
        let hash :=
          firstn 10 firstMessage ++ skipn (List.length stamp - 6) stamp in
        (firstn 16 (filter isAlphanumeric hash), w)
    | [] => (firstn 16 (skipn 2 random), w)
    end.

(** What [addProgressIndicator] appends to the reply at step [n]. *)
Definition progressSuffix (n : nat) : option jsstring :=
  addProgressIndicator [] (set_step n initialState).

(** What happens to the sessions over time: a call of [checkRateLimit], a
    new reading of the clock, a run of the cleanup. *)
Inductive event : Type :=
| Call (sessionId : jsstring)
| Tick (t : Z)
| Cleanup.

(** A run of events; the log keeps, for each call, its session and whether it
    could proceed. *)
Fixpoint run (es : list event) (w : World) : list (jsstring * bool) * World :=
  match es with
  | [] => ([], w)
  | Call sessionId :: es' =>
      let '(answer, w') := checkRateLimit sessionId w in
      let '(log, w'') := run es' w' in
      ((sessionId, fst answer) :: log, w'')
  | Tick t :: es' =>
      run es' {| rateLimitSessions := rateLimitSessions w; now := t |}
  | Cleanup :: es' => run es' (snd (cleanupSessions w))
  end.

(** The calls of [sessionId] in a log that could proceed. *)
Definition grants (sessionId : jsstring) (log : list (jsstring * bool)) : nat :=
  List.length
    (filter (fun entry => eqb (fst entry) sessionId && snd entry) log).

Definition isCleanup (e : event) : bool :=
  match e with
  | Cleanup => true
  | _ => false
  end.

Definition calls (sessionId : jsstring) (e : event) : bool :=
  match e with
  | Call k => eqb k sessionId
  | _ => false
  end.

Definition keys (m : list (jsstring * RateLimitSession)) : list jsstring :=
  List.map fst m.

(** A map as [Map] keeps it: one entry for a key. *)
Definition wellKeyed (w : World) : Prop := NoDup (keys (rateLimitSessions w)).

Definition tooOld (now_ : Z) (session : RateLimitSession) : bool :=
  (SESSION_CLEANUP_INTERVAL <? now_ - lastApiCall session)%Z.

(** The calls a session has left: ten less its count, ten when it is new. *)
Definition callsLeft (sessionId : jsstring) (w : World) : Z :=
  match get sessionId (rateLimitSessions w) with
  | None => MAX_CALLS_PER_SESSION
  | Some session => Z.max 0 (MAX_CALLS_PER_SESSION - callCount session)
  end.

(** A clock reading at most five minutes after [t0]. *)
Definition recent (t0 : Z) (e : event) : bool :=
  match e with
  | Tick t => (t - t0 <=? SESSION_CLEANUP_INTERVAL)%Z
  | _ => true
  end.

(** The sessions as the limiter keeps them: one entry for a key, each count
    from 1 to the maximum. *)
Definition wellCounted (w : World) : Prop :=
  wellKeyed w /\
  forall k session,
    get k (rateLimitSessions w) = Some session ->
    (1 <= callCount session <= MAX_CALLS_PER_SESSION)%Z.

(** The last six code units of the clock's decimal text. *)
Definition lastSix (w : World) : jsstring :=
  skipn (List.length (intToString (now w)) - 6) (intToString (now w)).

(** ** What a pattern can match

    [derives ic r i u tl]: read at index [i] of an input, the pattern [r] can
    consume [u] and leave [tl].  This is the reading of a pattern as a set of
    strings, with the anchors; the matcher is shown below to return nothing
    else. *)
Inductive derives (ic : bool) : regex -> nat -> jsstring -> jsstring -> Prop :=
| d_Eps i tl : derives ic Eps i [] tl
| d_Chr c x i tl :
    chr_matches ic c x = true -> derives ic (Chr c) i [ x ] tl
| d_Cls rs x i tl :
    cls_matches ic rs x = true -> derives ic (Cls rs) i [ x ] tl
| d_Dot x i tl :
    is_line_terminator x = false -> derives ic Dot i [ x ] tl
| d_Bol tl : derives ic Bol 0 [] tl
| d_Eol i : derives ic Eol i [] []
| d_Cat a b i u v tl :
    derives ic a i u (v ++ tl) ->
    derives ic b (i + List.length u) v tl ->
    derives ic (Cat a b) i (u ++ v) tl
| d_AltL a b i u tl : derives ic a i u tl -> derives ic (Alt a b) i u tl
| d_AltR a b i u tl : derives ic b i u tl -> derives ic (Alt a b) i u tl
| d_RepStop mn mx a i tl :
    mn = 0 \/ mx = Some 0 -> derives ic (Rep mn mx a) i [] tl
| d_RepStep mn mx a i u v tl :
    mx <> Some 0 ->
    derives ic a i u (v ++ tl) ->
    derives ic (Rep (pred mn) (option_map pred mx) a) (i + List.length u) v tl ->
    derives ic (Rep mn mx a) i (u ++ v) tl
| d_Grp k a i u tl : derives ic a i u tl -> derives ic (Grp k a) i u tl.

(** The least and the greatest number of code units a pattern consumes
    ([None]: no bound). *)
Fixpoint minLen (r : regex) : nat :=
  match r with
  | Eps | Bol | Eol => 0
  | Chr _ | Cls _ | Dot => 1
  | Cat a b => minLen a + minLen b
  | Alt a b => Nat.min (minLen a) (minLen b)
  | Rep mn mx a =>
      match mx with
      | Some m => Nat.min mn m
      | None => mn
      end * minLen a
  | Grp _ a => minLen a
  end.

Fixpoint maxLen (r : regex) : option nat :=
  match r with
  | Eps | Bol | Eol => Some 0
  | Chr _ | Cls _ | Dot => Some 1
  | Cat a b =>
      match maxLen a, maxLen b with
      | Some x, Some y => Some (x + y)
      | _, _ => None
      end
  | Alt a b =>
      match maxLen a, maxLen b with
      | Some x, Some y => Some (Nat.max x y)
      | _, _ => None
      end
  | Rep _ mx a =>
      match mx, maxLen a with
      | Some m, Some x => Some (m * x)
      | _, _ => None
      end
  | Grp _ a => maxLen a
  end.

(** The code units some atom of a pattern accepts. *)
Fixpoint inAlphabet (ic : bool) (r : regex) (x : N) : bool :=
  match r with
  | Eps | Bol | Eol => false
  | Chr c => chr_matches ic c x
  | Cls rs => cls_matches ic rs x
  | Dot => negb (is_line_terminator x)
  | Cat a b | Alt a b => inAlphabet ic a x || inAlphabet ic b x
  | Rep _ _ a => inAlphabet ic a x
  | Grp _ a => inAlphabet ic a x
  end.

(** [g] occurs in [s]. *)
Definition occursIn (g s : jsstring) : Prop :=
  exists pre post, s = pre ++ g ++ post.

(** The state of a match inside [input]: what is left to read is an end of
    it, and every capture occurs in it. *)
Definition inside (input : jsstring) (s : mstate) : Prop :=
  (exists pre, input = pre ++ rest s) /\
  forall k g, captures s k = Some g -> occursIn g input.

(** ** Where the value of a field comes from

    What each block of the loop body can store for a message of content
    [content]. *)

Definition nameValue (content v : jsstring) : Prop :=
  exists p m g,
    In p namePatterns /\ match_ content p = Some m /\ at_ m 1 = Some g /\
    v = trim g /\ 2 <= List.length v /\ test nameCheck v = true.

Definition phoneValue (content v : jsstring) : Prop :=
  exists p m,
    In p phonePatterns /\ match_ content p = Some m /\ at_ m 1 = Some v.

Definition emailValue (content v : jsstring) : Prop :=
  exists m, match_ content emailPattern = Some m /\ v = matched m.

Definition serviceValue (content v : jsstring) : Prop :=
  serviceOf (toLowerCase content) serviceKeywords = Some v.

Definition dateValue (content v : jsstring) : Prop :=
  dateOf (toLowerCase content) dateKeywords = Some v.

Definition timeValue (content v : jsstring) : Prop :=
  exists p m,
    In p timePatterns /\ match_ content p = Some m /\ at_ m 1 = Some v.

(** A field is empty or holds a value some user message of the list gave. *)
Definition sourced (messages : list ChatMessage)
    (value : jsstring -> jsstring -> Prop) (v : jsstring) : Prop :=
  v = [] \/
  exists message,
    In message messages /\ role message = lit "user" /\
    value (content message) v.

(** ** The alphabets of the values *)

Definition isLetter (c : N) : bool := in_ranges letters c.

(** [[a-zA-Z0-9._%+-]] and [[a-zA-Z0-9.-]] *)
Definition isLocalChar (c : N) : bool :=
  in_ranges (letters ++ d09 ++ one "._%+-") c.

Definition isDomainChar (c : N) : bool :=
  in_ranges (letters ++ d09 ++ one ".-") c.

(** A digit, [+], [-], [.] or white space. *)
Definition isPhoneChar (c : N) : bool :=
  in_ranges (d09 ++ one "+-." ++ white_ranges) c.

(** A digit, [:], white space, or one of [a], [p], [m] in either case. *)
Definition isTimeChar (c : N) : bool :=
  in_ranges (d09 ++ one ":" ++ white_ranges ++ one "apmAPM") c.

Definition isDigit (c : N) : bool := in_ranges d09 c.

(** Every range of [a] lies in a range of [b]. *)
Definition subranges (a b : list (N * N)) : bool :=
  forallb (fun r =>
    existsb (fun q => N.leb (fst q) (fst r) && N.leb (snd r) (snd q)) b) a.

(** No range of [rs] meets the ASCII letters. *)
Definition caseless (rs : list (N * N)) : bool :=
  forallb (fun r =>
    (N.ltb (snd r) 65 || N.ltb 90 (fst r)) &&
    (N.ltb (snd r) 97 || N.ltb 122 (fst r))) rs.

(** A check that a pattern reads code units of [b] only. *)
Fixpoint within (ic : bool) (r : regex) (b : list (N * N)) : bool :=
  match r with
  | Eps | Bol | Eol => true
  | Chr c => in_ranges b c && (negb ic || in_ranges b (swapcase c))
  | Cls rs => subranges rs b && (negb ic || caseless rs)
  | Dot => false
  | Cat x y | Alt x y => within ic x b && within ic y b
  | Rep _ _ x | Grp _ x => within ic x b
  end.

(** * Properties *)

(** ** Strings *)

Lemma eqb_eq (a b : jsstring) : eqb a b = true <-> a = b.
Proof.
  revert b; induction a as [|x a IH]; intros [|y b]; simpl;
    try (split; congruence).
  rewrite andb_true_iff, N.eqb_eq, IH. split.
  - intros [-> ->]; reflexivity.
  - intros H; inversion H; auto.
Qed.

Lemma eqb_neq (a b : jsstring) : eqb a b = false <-> a <> b.
Proof.
  rewrite <- eqb_eq. destruct (eqb a b); split; congruence.
Qed.

Lemma falsy_true (s : jsstring) : falsy s = true <-> s = [].
Proof. destruct s; simpl; split; congruence. Qed.

Lemma falsy_false (s : jsstring) : falsy s = false <-> s <> [].
Proof. destruct s; simpl; split; congruence. Qed.

Lemma or_else_same (a : jsstring) : or_else a a = a.
Proof. unfold or_else; destruct (falsy a); reflexivity. Qed.

Lemma starts_with_spec (t s : jsstring) :
  starts_with t s = true <-> exists post, s = t ++ post.
Proof.
  revert s; induction t as [|x t IH]; intros s; simpl.
  - split; [intros _; exists s; reflexivity | reflexivity].
  - destruct s as [|y s].
    + split; [discriminate | intros [post H]; discriminate].
    + rewrite andb_true_iff, N.eqb_eq, IH. split.
      * intros [-> [post ->]]. exists post; reflexivity.
      * intros [post H]. inversion H; subst. split; [reflexivity|].
        exists post; reflexivity.
Qed.

Lemma includes_spec (s t : jsstring) :
  includes s t = true <-> exists pre post, s = pre ++ t ++ post.
Proof.
  induction s as [|c s IH]; simpl.
  - rewrite orb_false_r, starts_with_spec. split.
    + intros [post H]. exists [], post. exact H.
    + intros [pre [post H]]. destruct pre as [|p pre]; [|discriminate].
      exists post. exact H.
  - rewrite orb_true_iff, starts_with_spec, IH. split.
    + intros [[post H] | [pre [post H]]].
      * exists [], post. exact H.
      * exists (c :: pre), post. rewrite H. reflexivity.
    + intros [pre [post H]]. destruct pre as [|p pre].
      * left. exists post. exact H.
      * right. inversion H; subst. exists pre, post. reflexivity.
Qed.

Lemma toLowerCase_app (a b : jsstring) :
  toLowerCase (a ++ b) = toLowerCase a ++ toLowerCase b.
Proof. apply map_app. Qed.

(** Searching the lowered text for a lowered token is searching the text for
    the token up to case. *)
Lemma includes_toLowerCase (s tok : jsstring) :
  includes (toLowerCase s) (toLowerCase tok) = true <-> contains_ci s tok.
Proof.
  rewrite includes_spec. unfold contains_ci. split.
  - intros [pre [post H]]. unfold toLowerCase in H.
    apply map_eq_app in H. destruct H as [pre' [rest' [-> [Hpre H]]]].
    apply map_eq_app in H. destruct H as [u [post' [-> [Hu Hpost]]]].
    exists pre', u, post'. split; [reflexivity | exact Hu].
  - intros [pre [u [post [-> Hu]]]].
    exists (toLowerCase pre), (toLowerCase post).
    rewrite !toLowerCase_app, Hu. reflexivity.
Qed.

(** A text that includes a token written in small letters still includes it
    once lowered. *)
Lemma includes_lowered (s tok : jsstring) :
  toLowerCase tok = tok ->
  includes s tok = true -> includes (toLowerCase s) tok = true.
Proof.
  intros Htok H. rewrite <- Htok. apply includes_toLowerCase.
  apply includes_spec in H. destruct H as [pre [post ->]].
  exists pre, tok, post. split; reflexivity.
Qed.

(** ** The matcher *)

Section MatcherFacts.

Local Abbreviation len := (@List.length N).

Lemma advances_refl (s : mstate) : advances s s.
Proof. exists []. simpl. split; [reflexivity | lia]. Qed.

Lemma advances_trans (a b c : mstate) :
  advances a b -> advances b c -> advances a c.
Proof.
  intros [u [Hu Iu]] [v [Hv Iv]]. exists (u ++ v). split.
  - rewrite Hu, Hv, app_assoc. reflexivity.
  - rewrite length_app. lia.
Qed.

Lemma advances_length (s s' : mstate) :
  advances s s' ->
  len (rest s') <= len (rest s) /\
  (endIndex s' = endIndex s -> len (rest s') = len (rest s)) /\
  (endIndex s' <> endIndex s -> len (rest s') < len (rest s)).
Proof.
  intros [u [Hu Iu]]. rewrite Hu, length_app. lia.
Qed.

Lemma step_char_advances (p : N -> bool) (s s' : mstate) :
  In s' (step_char p s) -> advances s s'.
Proof.
  unfold step_char. destruct (rest s) as [|c tl] eqn:E; [intros []|].
  destruct (p c); [|intros []]. intros [<- | []].
  exists [c]. simpl. split; [exact E | lia].
Qed.

Variables (m : mstate -> list mstate) (clr : mstate -> mstate).
Hypothesis m_advances : forall s s', In s' (m s) -> advances s s'.
Hypothesis clr_rest : forall s, rest (clr s) = rest s.
Hypothesis clr_endIndex : forall s, endIndex (clr s) = endIndex s.

Lemma clr_advances (s s' : mstate) : advances (clr s) s' -> advances s s'.
Proof.
  intros [u [Hu Iu]]. exists u. rewrite clr_rest in Hu.
  rewrite clr_endIndex in Iu. auto.
Qed.

Lemma repeatL_advances (fuel : nat) :
  forall mn mx s s', In s' (repeatL m clr fuel mn mx s) -> advances s s'.
Proof.
  induction fuel as [|fuel IH]; intros mn mx s s'; simpl; [intros []|].
  destruct (is_zero mx).
  - intros [<- | []]. apply advances_refl.
  - rewrite in_app_iff, in_flat_map. intros [[s1 [H1 H2]] | H].
    + apply m_advances, clr_advances in H1.
      destruct (Nat.eqb mn 0 && Nat.eqb (endIndex s1) (endIndex s));
        [destruct H2|].
      apply IH in H2. eapply advances_trans; eassumption.
    + destruct (Nat.eqb mn 0); [|destruct H].
      destruct H as [<- | []]. apply advances_refl.
Qed.

(** The fuel of a quantifier never runs out: any two amounts above the
    minimum plus the length of the remaining input give the same matches. *)
Lemma repeatL_fuel (fuel1 : nat) :
  forall fuel2 mn mx s,
    mn + len (rest s) < fuel1 -> mn + len (rest s) < fuel2 ->
    repeatL m clr fuel1 mn mx s = repeatL m clr fuel2 mn mx s.
Proof.
  induction fuel1 as [|fuel1 IH]; intros fuel2 mn mx s H1 H2; [lia|].
  destruct fuel2 as [|fuel2]; [lia|]. simpl.
  destruct (is_zero mx); [reflexivity|]. f_equal.
  assert (Hin : forall s1, In s1 (m (clr s)) -> advances s s1)
    by (intros s1 Hs1; apply clr_advances, m_advances, Hs1).
  induction (m (clr s)) as [|s1 l IHl]; [reflexivity|]. simpl.
  rewrite IHl by (intros; apply Hin; right; assumption). f_equal.
  specialize (Hin s1 (or_introl eq_refl)).
  apply advances_length in Hin. destruct Hin as [Hle [_ Hlt]].
  destruct (Nat.eqb mn 0) eqn:Emn; simpl.
  - apply Nat.eqb_eq in Emn. subst mn.
    destruct (Nat.eqb (endIndex s1) (endIndex s)) eqn:Ee; [reflexivity|].
    apply Nat.eqb_neq in Ee. specialize (Hlt Ee).
    apply IH; simpl in *; lia.
  - apply Nat.eqb_neq in Emn. apply IH; lia.
Qed.

Variable i : nat.
Hypothesis m_frame : forall s s', In s' (m s) -> captures s' i = captures s i.
Hypothesis clr_frame : forall s, captures (clr s) i = captures s i.

Lemma repeatL_frame (fuel : nat) :
  forall mn mx s s',
    In s' (repeatL m clr fuel mn mx s) -> captures s' i = captures s i.
Proof.
  induction fuel as [|fuel IH]; intros mn mx s s'; simpl; [intros []|].
  destruct (is_zero mx).
  - intros [<- | []]. reflexivity.
  - rewrite in_app_iff, in_flat_map. intros [[s1 [H1 H2]] | H].
    + apply m_frame in H1. rewrite clr_frame in H1.
      destruct (Nat.eqb mn 0 && Nat.eqb (endIndex s1) (endIndex s));
        [destruct H2|].
      apply IH in H2. congruence.
    + destruct (Nat.eqb mn 0); [|destruct H].
      destruct H as [<- | []]. reflexivity.
Qed.

End MatcherFacts.

Arguments repeatL : simpl never.

Lemma matchL_advances (ic : bool) (r : regex) :
  forall s s', In s' (matchL ic r s) -> advances s s'.
Proof.
  induction r as [| c | rs | | | | a IHa b IHb | a IHa b IHb | mn mx a IHa
                 | i a IHa]; intros s s'; simpl.
  - intros [<- | []]. apply advances_refl.
  - apply step_char_advances.
  - apply step_char_advances.
  - apply step_char_advances.
  - destruct (Nat.eqb (endIndex s) 0); [|intros []].
    intros [<- | []]. apply advances_refl.
  - destruct (rest s); [|intros []]. intros [<- | []]. apply advances_refl.
  - rewrite in_flat_map. intros [s1 [H1 H2]].
    eapply advances_trans; [apply IHa | apply IHb]; eassumption.
  - rewrite in_app_iff. intros [H | H]; [apply IHa | apply IHb]; exact H.
  - apply repeatL_advances; auto.
  - rewrite in_map_iff. intros [s1 [<- H1]]. apply IHa in H1.
    destruct H1 as [u [Hu Iu]]. exists u. simpl. auto.
Qed.

(** The quantifier of the matcher with any fuel above its bound. *)
Lemma matchL_Rep_fuel (ic : bool) (mn : nat) (mx : option nat) (a : regex)
    (s : mstate) (fuel : nat) :
  mn + List.length (rest s) < fuel ->
  matchL ic (Rep mn mx a) s =
  repeatL (matchL ic a) (clear_captures (groups_of a)) fuel mn mx s.
Proof.
  intros H. simpl.
  apply repeatL_fuel;
    [ apply matchL_advances | reflexivity | reflexivity | lia | exact H ].
Qed.

(** A term leaves alone the captures of the groups it does not contain. *)
Lemma matchL_frame (ic : bool) (i : nat) (r : regex) :
  ~ In i (groups_of r) ->
  forall s s', In s' (matchL ic r s) -> captures s' i = captures s i.
Proof.
  induction r as [| c | rs | | | | a IHa b IHb | a IHa b IHb | mn mx a IHa
                 | j a IHa]; simpl; intros Hi s s'.
  - intros [<- | []]. reflexivity.
  - unfold step_char. destruct (rest s); [intros []|].
    destruct (chr_matches ic c n); [|intros []]. intros [<- | []]. reflexivity.
  - unfold step_char. destruct (rest s); [intros []|].
    destruct (cls_matches ic rs n); [|intros []]. intros [<- | []].
    reflexivity.
  - unfold step_char. destruct (rest s); [intros []|].
    destruct (negb (is_line_terminator n)); [|intros []].
    intros [<- | []]. reflexivity.
  - destruct (Nat.eqb (endIndex s) 0); [|intros []].
    intros [<- | []]. reflexivity.
  - destruct (rest s); [|intros []]. intros [<- | []]. reflexivity.
  - rewrite in_app_iff in Hi. rewrite in_flat_map. intros [s1 [H1 H2]].
    rewrite (IHb (fun H => Hi (or_intror H)) _ _ H2).
    apply (IHa (fun H => Hi (or_introl H)) _ _ H1).
  - rewrite in_app_iff in Hi. rewrite in_app_iff.
    intros [H | H]; [apply IHa | apply IHb]; auto.
  - apply repeatL_frame; auto.
    intros s0. simpl.
    destruct (existsb (Nat.eqb i) (groups_of a)) eqn:E; [|reflexivity].
    apply existsb_exists in E. destruct E as [k [Hk E]].
    apply Nat.eqb_eq in E. subst k. contradiction.
  - rewrite in_map_iff. intros [s1 [<- H1]]. simpl. unfold set_capture.
    destruct (Nat.eqb i j) eqn:E.
    + apply Nat.eqb_eq in E. subst j. exfalso. apply Hi. left. reflexivity.
    + apply IHa; auto.
Qed.

Lemma matchL_defines (ic : bool) (i : nat) (r : regex) :
  defines i r = true ->
  forall s s', In s' (matchL ic r s) -> exists g, captures s' i = Some g.
Proof.
  induction r as [| c | rs | | | | a IHa b IHb | a IHa b IHb | mn mx a IHa
                 | j a IHa]; simpl; try discriminate; intros Hd s s'.
  - rewrite in_flat_map. intros [s1 [H1 H2]].
    apply orb_true_iff in Hd. destruct Hd as [Hd | Hd].
    + eapply IHb; eassumption.
    + apply andb_true_iff in Hd. destruct Hd as [Ha Hb].
      destruct (IHa Ha _ _ H1) as [g Hg]. exists g.
      rewrite <- Hg. apply matchL_frame with (ic := ic) (r := b); auto.
      intros Hin. apply negb_true_iff in Hb.
      assert (existsb (Nat.eqb i) (groups_of b) = true); [|congruence].
      apply existsb_exists. exists i. split; [exact Hin | apply Nat.eqb_refl].
  - rewrite in_map_iff. intros [s1 [<- H1]]. simpl. unfold set_capture.
    apply Nat.eqb_eq in Hd. subst j. rewrite Nat.eqb_refl. eauto.
Qed.

Lemma scan_defines (ic : bool) (i : nat) (r : regex) :
  defines i r = true ->
  forall tl k m, scan ic r k tl = Some m -> exists g, groups m i = Some g.
Proof.
  intros Hd tl. induction tl as [|c tl IH]; intros k m; simpl;
    unfold match_at;
    destruct (matchL ic r _) as [|s' l] eqn:E.
  - discriminate.
  - intros H; inversion H; subst; simpl.
    eapply matchL_defines; [exact Hd | rewrite E; left; reflexivity].
  - apply IH.
  - intros H; inversion H; subst; simpl.
    eapply matchL_defines; [exact Hd | rewrite E; left; reflexivity].
Qed.

(** A pattern whose group 1 closes on every path: after a match, [m[1]] is a
    string. *)
Lemma match_group1 (content : jsstring) (p : pattern) (m : match_result) :
  defines 1 (source p) = true ->
  match_ content p = Some m -> exists g, at_ m 1 = Some g.
Proof.
  intros Hd H. simpl. eapply scan_defines; eassumption.
Qed.

(** ** Loops *)

Section Loops.

Context {A S : Type} (body : S -> A -> result S).

Lemma forEach_app (l1 l2 : list A) (s : S) :
  forEach body (l1 ++ l2) s = (s1 <- forEach body l1 s ;; forEach body l2 s1).
Proof.
  revert s; induction l1 as [|a l1 IH]; intros s; simpl; [reflexivity|].
  destruct (body s a); simpl; auto.
Qed.

Lemma forEach_total (l : list A) :
  (forall s a, exists s', body s a = Ok s') ->
  forall s, exists s', forEach body l s = Ok s'.
Proof.
  intros Hb. induction l as [|a l IH]; intros s; simpl; [eauto|].
  destruct (Hb s a) as [s1 ->]. simpl. apply IH.
Qed.

(** An invariant the body keeps on the elements of the list holds after the
    loop. *)
Lemma forEach_invariant (P : S -> Prop) (l : list A) :
  (forall s a s', In a l -> P s -> body s a = Ok s' -> P s') ->
  forall s s', P s -> forEach body l s = Ok s' -> P s'.
Proof.
  induction l as [|a l IH]; intros Hb s s' Hs; simpl.
  - intros H; inversion H; subst; exact Hs.
  - destruct (body s a) as [s1|] eqn:E; simpl; [|discriminate].
    apply IH; [|eapply Hb; eauto; left; reflexivity].
    intros; eapply Hb; eauto. right; assumption.
Qed.

(** A reflexive and transitive relation the body respects relates the state
    before the loop and the state after it. *)
Lemma forEach_related (R : S -> S -> Prop) (l : list A) :
  (forall s, R s s) -> (forall a b c, R a b -> R b c -> R a c) ->
  (forall s a s', body s a = Ok s' -> R s s') ->
  forall s s', forEach body l s = Ok s' -> R s s'.
Proof.
  intros Hrefl Htrans Hb s s' H.
  apply (forEach_invariant (fun t => R s t) l) with (s := s); auto.
  intros; eapply Htrans; eauto.
Qed.

End Loops.

(** ** The blocks of the loop body *)

Lemma locked_refl (r : BookingState) : locked r r.
Proof. unfold locked; tauto. Qed.

Lemma locked_trans (a b c : BookingState) :
  locked a b -> locked b c -> locked a c.
Proof.
  unfold locked.
  intros (A1 & A2 & A3 & A4 & A5 & A6) (B1 & B2 & B3 & B4 & B5 & B6).
  repeat split; intros H.
  - rewrite <- (A1 H). apply B1. rewrite (A1 H). exact H.
  - rewrite <- (A2 H). apply B2. rewrite (A2 H). exact H.
  - rewrite <- (A3 H). apply B3. rewrite (A3 H). exact H.
  - rewrite <- (A4 H). apply B4. rewrite (A4 H). exact H.
  - rewrite <- (A5 H). apply B5. rewrite (A5 H). exact H.
  - rewrite <- (A6 H). apply B6. rewrite (A6 H). exact H.
Qed.

Lemma namePatterns_define : Forall (fun p => defines 1 (source p) = true) namePatterns.
Proof. repeat constructor. Qed.

Lemma phonePatterns_define : Forall (fun p => defines 1 (source p) = true) phonePatterns.
Proof. repeat constructor. Qed.

Lemma timePatterns_define : Forall (fun p => defines 1 (source p) = true) timePatterns.
Proof. repeat constructor. Qed.

Lemma tryNames_shape (content : jsstring) (ps : list pattern)
    (state : BookingState) :
  Forall (fun p => defines 1 (source p) = true) ps ->
  exists state',
    tryNames content ps state = Ok state' /\
    (state' = state \/
     exists v, v <> [] /\ state' = set_patientName v state).
Proof.
  induction 1 as [|p ps Hp _ IH]; cbn [tryNames]; [eauto|].
  destruct (match_ content p) as [m|] eqn:E; [|exact IH].
  destruct (match_group1 _ _ Hp E) as [g ->].
  destruct ((2 <=? List.length (trim g)) && test nameCheck (trim g)) eqn:C;
    [|exact IH].
  eexists; split; [reflexivity|]. right. exists (trim g). split; [|reflexivity].
  apply andb_true_iff in C. destruct C as [C _]. apply Nat.leb_le in C.
  intros H0. rewrite H0 in C. simpl in C. lia.
Qed.

Lemma firstGroup_total (content : jsstring) (ps : list pattern) :
  Forall (fun p => defines 1 (source p) = true) ps ->
  exists o, firstGroup content ps = Ok o.
Proof.
  induction 1 as [|p ps Hp _ IH]; cbn [firstGroup]; [eauto|].
  destruct (match_ content p) as [m|] eqn:E; [|exact IH].
  destruct (match_group1 _ _ Hp E) as [g ->]. eauto.
Qed.

Lemma extractName_shape (content : jsstring) (state : BookingState) :
  exists state',
    extractName content state = Ok state' /\
    (state' = state \/
     patientName state = [] /\
     exists v, v <> [] /\ state' = set_patientName v state).
Proof.
  unfold extractName. destruct (falsy (patientName state)) eqn:E; [|eauto].
  apply falsy_true in E.
  destruct (tryNames_shape content state namePatterns_define)
    as [state' [-> H]].
  exists state'. split; [reflexivity|]. tauto.
Qed.

Lemma extractPhone_shape (content : jsstring) (state : BookingState) :
  exists state',
    extractPhone content state = Ok state' /\
    (state' = state \/
     phoneNumber state = [] /\ exists v, state' = set_phoneNumber v state).
Proof.
  unfold extractPhone. destruct (falsy (phoneNumber state)) eqn:E; [|eauto].
  apply falsy_true in E.
  destruct (firstGroup_total content phonePatterns_define) as [[g|] ->];
    simpl; eexists; (split; [reflexivity|]); [right | left]; eauto.
Qed.

Lemma extractTime_shape (content : jsstring) (state : BookingState) :
  exists state',
    extractTime content state = Ok state' /\
    (state' = state \/
     preferredTime state = [] /\ exists v, state' = set_preferredTime v state).
Proof.
  unfold extractTime. destruct (falsy (preferredTime state)) eqn:E; [|eauto].
  apply falsy_true in E.
  destruct (firstGroup_total content timePatterns_define) as [[g|] ->];
    simpl; eexists; (split; [reflexivity|]); [right | left]; eauto.
Qed.

Lemma extractEmail_shape (content : jsstring) (state : BookingState) :
  extractEmail content state = state \/
  email state = [] /\ exists v, extractEmail content state = set_email v state.
Proof.
  unfold extractEmail. destruct (falsy (email state)) eqn:E; [|auto].
  apply falsy_true in E. destruct (match_ content emailPattern); eauto.
Qed.

Lemma tryDates_shape (lowerContent : jsstring) (keywords : list jsstring)
    (state : BookingState) :
  tryDates lowerContent keywords state = state \/
  exists v, tryDates lowerContent keywords state = set_preferredDate v state.
Proof.
  induction keywords as [|k ks IH]; simpl; [auto|].
  destruct (includes lowerContent k); eauto.
Qed.

Lemma extractDate_shape (lowerContent : jsstring) (state : BookingState) :
  extractDate lowerContent state = state \/
  preferredDate state = [] /\
  exists v, extractDate lowerContent state = set_preferredDate v state.
Proof.
  unfold extractDate. destruct (falsy (preferredDate state)) eqn:E; [|auto].
  apply falsy_true in E.
  destruct (tryDates_shape lowerContent dateKeywords state); auto.
Qed.

(** The service block in terms of [serviceOf]. *)
Lemma tryServices_serviceOf (lowerContent : jsstring)
    (entries : list (jsstring * list jsstring)) (state : BookingState) :
  tryServices lowerContent entries state =
  match serviceOf lowerContent entries with
  | None => state
  | Some service =>
      if eqb service (lit "emergency")
      then set_urgency (lit "emergency") (set_serviceType service state)
      else set_serviceType service state
  end.
Proof.
  induction entries as [|[service keywords] entries IH]; simpl; [reflexivity|].
  destruct (someIncluded lowerContent keywords); [reflexivity | exact IH].
Qed.

(** Every category a message can select is one of the table, so none is
    the empty string. *)
Lemma serviceOf_In (lowerContent : jsstring)
    (entries : list (jsstring * list jsstring)) (service : jsstring) :
  serviceOf lowerContent entries = Some service ->
  In service (List.map fst entries).
Proof.
  induction entries as [|[sv keywords] entries IH]; simpl; [discriminate|].
  destruct (someIncluded lowerContent keywords).
  - intros H; inversion H; auto.
  - auto.
Qed.

Lemma extractService_shape (lowerContent : jsstring) (state : BookingState) :
  extractService lowerContent state = state \/
  serviceType state = [] /\
  exists service,
    serviceOf lowerContent serviceKeywords = Some service /\
    service <> [] /\
    (service = lit "emergency" /\
     extractService lowerContent state =
     set_urgency (lit "emergency") (set_serviceType service state)
     \/
     service <> lit "emergency" /\
     extractService lowerContent state = set_serviceType service state).
Proof.
  unfold extractService. destruct (falsy (serviceType state)) eqn:E; [|auto].
  apply falsy_true in E. rewrite tryServices_serviceOf.
  destruct (serviceOf lowerContent serviceKeywords) as [service|] eqn:Es;
    [|auto].
  right. split; [exact E|]. exists service. split; [reflexivity|]. split.
  - apply serviceOf_In in Es. simpl in Es.
    intros ->. repeat (destruct Es as [Es|Es]; [discriminate|]). exact Es.
  - destruct (eqb service (lit "emergency")) eqn:Ee.
    + apply eqb_eq in Ee. auto.
    + apply eqb_neq in Ee. auto.
Qed.

(** ** One message *)

(** The loop body never fails; its result goes through the six blocks. *)
Lemma processMessage_blocks (state : BookingState) (message : ChatMessage) :
  exists s1 s2 s6,
    extractName (content message) state = Ok s1 /\
    extractPhone (content message) s1 = Ok s2 /\
    extractTime (content message)
      (extractDate (toLowerCase (content message))
         (extractService (toLowerCase (content message))
            (extractEmail (content message) s2))) = Ok s6 /\
    processMessage state message = Ok s6.
Proof.
  unfold processMessage.
  destruct (extractName_shape (content message) state) as [s1 [E1 _]].
  destruct (extractPhone_shape (content message) s1) as [s2 [E2 _]].
  destruct (extractTime_shape (content message)
              (extractDate (toLowerCase (content message))
                 (extractService (toLowerCase (content message))
                    (extractEmail (content message) s2)))) as [s6 [E6 _]].
  exists s1, s2, s6. rewrite E1. simpl. rewrite E2. simpl. auto.
Qed.

Lemma processMessage_total (state : BookingState) (message : ChatMessage) :
  exists state', processMessage state message = Ok state'.
Proof.
  destruct (processMessage_blocks state message) as (s1 & s2 & s6 & H).
  exists s6. tauto.
Qed.

Ltac locked_by_shape :=
  unfold locked; simpl; repeat split; intros; congruence.

Lemma extractName_locked (content : jsstring) (s s' : BookingState) :
  extractName content s = Ok s' -> locked s s'.
Proof.
  destruct (extractName_shape content s) as [t [-> H]].
  intros E; inversion E; subst t.
  destruct H as [-> | [H0 [v [_ ->]]]]; [apply locked_refl | locked_by_shape].
Qed.

Lemma extractPhone_locked (content : jsstring) (s s' : BookingState) :
  extractPhone content s = Ok s' -> locked s s'.
Proof.
  destruct (extractPhone_shape content s) as [t [-> H]].
  intros E; inversion E; subst t.
  destruct H as [-> | [H0 [v ->]]]; [apply locked_refl | locked_by_shape].
Qed.

Lemma extractTime_locked (content : jsstring) (s s' : BookingState) :
  extractTime content s = Ok s' -> locked s s'.
Proof.
  destruct (extractTime_shape content s) as [t [-> H]].
  intros E; inversion E; subst t.
  destruct H as [-> | [H0 [v ->]]]; [apply locked_refl | locked_by_shape].
Qed.

Lemma extractEmail_locked (content : jsstring) (s : BookingState) :
  locked s (extractEmail content s).
Proof.
  destruct (extractEmail_shape content s) as [-> | [H0 [v ->]]];
    [apply locked_refl | locked_by_shape].
Qed.

Lemma extractDate_locked (lowerContent : jsstring) (s : BookingState) :
  locked s (extractDate lowerContent s).
Proof.
  destruct (extractDate_shape lowerContent s) as [-> | [H0 [v ->]]];
    [apply locked_refl | locked_by_shape].
Qed.

Lemma extractService_locked (lowerContent : jsstring) (s : BookingState) :
  locked s (extractService lowerContent s).
Proof.
  destruct (extractService_shape lowerContent s)
    as [-> | [H0 [v [_ [_ [[_ ->] | [_ ->]]]]]]];
    [apply locked_refl | locked_by_shape | locked_by_shape].
Qed.

Lemma processMessage_locked (s : BookingState) (message : ChatMessage)
    (s' : BookingState) :
  processMessage s message = Ok s' -> locked s s'.
Proof.
  destruct (processMessage_blocks s message)
    as (s1 & s2 & s6 & E1 & E2 & E6 & ->).
  intros E; inversion E; subst s6.
  eapply locked_trans; [eapply extractName_locked; eassumption|].
  eapply locked_trans; [eapply extractPhone_locked; eassumption|].
  eapply locked_trans; [apply extractEmail_locked|].
  eapply locked_trans; [apply extractService_locked|].
  eapply locked_trans; [apply extractDate_locked|].
  eapply extractTime_locked; eassumption.
Qed.

Lemma extractName_sameService (content : jsstring) (s s' : BookingState) :
  extractName content s = Ok s' -> sameService s s'.
Proof.
  destruct (extractName_shape content s) as [t [-> H]].
  intros E; inversion E; subst t.
  destruct H as [-> | [H0 [v [_ ->]]]]; split; reflexivity.
Qed.

Lemma extractPhone_sameService (content : jsstring) (s s' : BookingState) :
  extractPhone content s = Ok s' -> sameService s s'.
Proof.
  destruct (extractPhone_shape content s) as [t [-> H]].
  intros E; inversion E; subst t.
  destruct H as [-> | [H0 [v ->]]]; split; reflexivity.
Qed.

Lemma extractTime_sameService (content : jsstring) (s s' : BookingState) :
  extractTime content s = Ok s' -> sameService s s'.
Proof.
  destruct (extractTime_shape content s) as [t [-> H]].
  intros E; inversion E; subst t.
  destruct H as [-> | [H0 [v ->]]]; split; reflexivity.
Qed.

Lemma extractEmail_sameService (content : jsstring) (s : BookingState) :
  sameService s (extractEmail content s).
Proof.
  destruct (extractEmail_shape content s) as [-> | [H0 [v ->]]];
    split; reflexivity.
Qed.

Lemma extractDate_sameService (lowerContent : jsstring) (s : BookingState) :
  sameService s (extractDate lowerContent s).
Proof.
  destruct (extractDate_shape lowerContent s) as [-> | [H0 [v ->]]];
    split; reflexivity.
Qed.

(** What one message does to [serviceType] and [urgency]: nothing once a
    service is set; otherwise the category its lowered content selects, with
    [urgency] raised for [emergency] alone. *)
Lemma processMessage_service (s : BookingState) (message : ChatMessage)
    (s' : BookingState) :
  processMessage s message = Ok s' ->
  (serviceType s <> [] -> sameService s s') /\
  (serviceType s = [] ->
   match serviceOf (toLowerCase (content message)) serviceKeywords with
   | None => sameService s s'
   | Some service =>
       service <> [] /\ serviceType s' = service /\
       urgency s' =
       (if eqb service (lit "emergency") then lit "emergency" else urgency s)
   end).
Proof.
  destruct (processMessage_blocks s message)
    as (s1 & s2 & s6 & E1 & E2 & E6 & ->).
  intros E; inversion E; subst s6. clear E.
  apply extractName_sameService in E1. apply extractPhone_sameService in E2.
  apply extractTime_sameService in E6.
  set (lc := toLowerCase (content message)) in *.
  pose proof (extractEmail_sameService (content message) s2) as E3.
  set (s3 := extractEmail (content message) s2) in *.
  pose proof (extractDate_sameService lc (extractService lc s3)) as E5.
  pose proof (extractService_shape lc s3) as E4.
  set (s4 := extractService lc s3) in *.
  set (s5 := extractDate lc s4) in *.
  unfold sameService in *.
  destruct E1 as [A1 B1], E2 as [A2 B2], E3 as [A3 B3], E5 as [A5 B5],
    E6 as [A6 B6].
  assert (A : serviceType s3 = serviceType s) by congruence.
  assert (B : urgency s3 = urgency s) by congruence.
  assert (A' : serviceType s' = serviceType s4) by congruence.
  assert (B' : urgency s' = urgency s4) by congruence.
  rewrite A', B'. clear - A B E4. split.
  - intros Hs. destruct E4 as [-> | [H0 _]]; [auto | congruence].
  - intros Hs.
    destruct E4 as [E4 | [_ [service [Es [Hne [[He E4] | [He E4]]]]]]].
    + destruct (serviceOf lc serviceKeywords) as [service|] eqn:Es;
        [|rewrite E4; auto].
      exfalso. unfold s4, extractService in E4.
      rewrite (proj2 (falsy_true _)) in E4 by congruence.
      rewrite tryServices_serviceOf, Es in E4.
      assert (Hn : serviceType s3 <> []).
      { rewrite <- E4. apply serviceOf_In in Es. simpl in Es.
        destruct (eqb service (lit "emergency")); simpl; intros ->;
          repeat (destruct Es as [Es|Es]; [discriminate|]); exact Es. }
      congruence.
    + rewrite Es, E4. simpl. subst service. auto.
    + rewrite Es, E4. simpl. apply eqb_neq in He. rewrite He. auto.
Qed.

(** ** The whole loop *)

Lemma looped_total (messages : list ChatMessage) :
  exists state, looped messages = Ok state.
Proof. apply forEach_total. apply processMessage_total. Qed.

Lemma extractBookingState_finish (messages : list ChatMessage) :
  exists state,
    looped messages = Ok state /\
    extractBookingState messages = Ok (finish state).
Proof.
  destruct (looped_total messages) as [state E]. exists state.
  split; [exact E|]. unfold extractBookingState. unfold looped in E.
  rewrite E. reflexivity.
Qed.

Lemma determineCurrentStep_range (state : BookingState) :
  1 <= determineCurrentStep state <= 7.
Proof.
  unfold determineCurrentStep.
  repeat match goal with |- context [falsy ?x] => destruct (falsy x) end; lia.
Qed.

Lemma determineCurrentStep_firstEmpty (state : BookingState) :
  determineCurrentStep state = firstEmpty 1 (fields state).
Proof. reflexivity. Qed.

(** [firstEmpty] is the ordinal of the earliest empty string. *)
Lemma firstEmpty_spec (fs : list jsstring) :
  forall n,
    (forall k,
        k < List.length fs -> nth k fs [] = [] ->
        (forall j, j < k -> nth j fs [] <> []) ->
        firstEmpty n fs = n + k) /\
    ((forall f, In f fs -> f <> []) -> firstEmpty n fs = n + List.length fs).
Proof.
  induction fs as [|f fs IH]; intros n; simpl.
  - split; [intros k Hk; lia | intros _; lia].
  - destruct (IH (S n)) as [IH1 IH2]. split.
    + intros [|k] Hk Hz Hj.
      * rewrite Hz. simpl. lia.
      * destruct (falsy f) eqn:E.
        { apply falsy_true in E. exfalso.
          apply (Hj 0); [lia | exact E]. }
        rewrite IH1 with (k := k); [lia | lia | exact Hz |].
        intros j Hlt. apply (Hj (S j)). lia.
    + intros Hall. destruct (falsy f) eqn:E.
      * apply falsy_true in E. exfalso. apply (Hall f); auto.
      * rewrite IH2; [lia|]. intros g Hg. apply Hall. auto.
Qed.

Lemma filter_idempotent {A : Type} (f : A -> bool) (l : list A) :
  filter f (filter f l) = filter f l.
Proof.
  induction l as [|a l IH]; simpl; [reflexivity|].
  destruct (f a) eqn:E; simpl; [rewrite E, IH|]; auto.
Qed.

Lemma filter_none {A : Type} (f : A -> bool) (l : list A) :
  (forall a, In a l -> f a = false) -> filter f l = [].
Proof.
  induction l as [|a l IH]; simpl; intros H; [reflexivity|].
  rewrite (H a) by auto. apply IH. auto.
Qed.

Lemma isUser_false (msg : ChatMessage) :
  isUser msg = false <-> role msg <> lit "user".
Proof. apply eqb_neq. Qed.

(** A step never goes down when filled fields keep their values. *)
Lemma determineCurrentStep_locked (a b : BookingState) :
  locked a b -> determineCurrentStep a <= determineCurrentStep b.
Proof.
  unfold locked, determineCurrentStep.
  intros (H1 & H2 & H3 & H4 & H5 & H6).
  destruct (falsy (patientName a)) eqn:A1;
    [pose proof (determineCurrentStep_range b) as R;
     unfold determineCurrentStep in R; lia|].
  apply falsy_false in A1. rewrite (H1 A1).
  rewrite (proj2 (falsy_false _) A1).
  destruct (falsy (phoneNumber a)) eqn:A2;
    [repeat match goal with |- context [falsy ?x] => destruct (falsy x) end;
     lia|].
  apply falsy_false in A2. rewrite (H2 A2).
  rewrite (proj2 (falsy_false _) A2).
  destruct (falsy (email a)) eqn:A3;
    [repeat match goal with |- context [falsy ?x] => destruct (falsy x) end;
     lia|].
  apply falsy_false in A3. rewrite (H3 A3).
  rewrite (proj2 (falsy_false _) A3).
  destruct (falsy (serviceType a)) eqn:A4;
    [repeat match goal with |- context [falsy ?x] => destruct (falsy x) end;
     lia|].
  apply falsy_false in A4. rewrite (H4 A4).
  rewrite (proj2 (falsy_false _) A4).
  destruct (falsy (preferredDate a)) eqn:A5;
    [repeat match goal with |- context [falsy ?x] => destruct (falsy x) end;
     lia|].
  apply falsy_false in A5. rewrite (H5 A5).
  rewrite (proj2 (falsy_false _) A5).
  destruct (falsy (preferredTime a)) eqn:A6;
    [repeat match goal with |- context [falsy ?x] => destruct (falsy x) end;
     lia|].
  apply falsy_false in A6. rewrite (H6 A6).
  rewrite (proj2 (falsy_false _) A6). lia.
Qed.

Lemma processMessage_urgency (s : BookingState) (message : ChatMessage)
    (s' : BookingState) :
  urgencyFollowsService s -> processMessage s message = Ok s' ->
  urgencyFollowsService s'.
Proof.
  intros Hs E. apply processMessage_service in E. destruct E as [E1 E2].
  unfold urgencyFollowsService, sameService in *.
  destruct (serviceType s) as [|c t] eqn:Es.
  - specialize (E2 eq_refl).
    destruct (serviceOf (toLowerCase (content message)) serviceKeywords)
      as [service|].
    + destruct E2 as (_ & -> & ->).
      destruct (eqb service (lit "emergency")) eqn:Ee.
      * apply eqb_eq in Ee. auto.
      * apply eqb_neq in Ee. right. split; [exact Ee|].
        destruct Hs as [[H _] | [_ H]]; [discriminate | exact H].
    + destruct E2 as [-> ->]. exact Hs.
  - destruct E1 as [-> ->]; [discriminate | exact Hs].
Qed.

Lemma looped_urgency (messages : list ChatMessage) (state : BookingState) :
  looped messages = Ok state -> urgencyFollowsService state.
Proof.
  apply (forEach_invariant processMessage urgencyFollowsService).
  - intros s a s' _. apply processMessage_urgency.
  - right. split; [discriminate | reflexivity].
Qed.

(** ** The update *)

Lemma updateBookingState_merged (currentState : BookingState)
    (latestMessage : jsstring) (allMessages : list ChatMessage)
    (freshState : BookingState) :
  extractBookingState allMessages = Ok freshState ->
  updateBookingState currentState latestMessage allMessages =
  Ok (confirmed latestMessage (merged currentState freshState)).
Proof.
  intros E. unfold updateBookingState. rewrite E. cbn [bind].
  fold (merged currentState freshState). unfold confirmed, saysYes.
  destruct (_ && _); reflexivity.
Qed.

Lemma confirmed_same (latestMessage : jsstring) (x : BookingState) :
  fields (confirmed latestMessage x) = fields x /\
  urgency (confirmed latestMessage x) = urgency x /\
  step (confirmed latestMessage x) = step x.
Proof. unfold confirmed. destruct (_ && _); repeat split. Qed.

Lemma confirmed_isComplete (latestMessage : jsstring) (x : BookingState) :
  isComplete (confirmed latestMessage x) =
  (saysYes (toLowerCase latestMessage) && (7 <=? step x)) || isComplete x.
Proof. unfold confirmed. destruct (_ && _); reflexivity. Qed.

Lemma merged_isComplete (currentState freshState : BookingState) :
  isComplete (merged currentState freshState) = isComplete currentState.
Proof. reflexivity. Qed.

Lemma latestContent_last (earlier : list ChatMessage) (msg : ChatMessage) :
  latestContent (earlier ++ [ msg ]) = content msg.
Proof.
  unfold latestContent. rewrite rev_app_distr. simpl.
  destruct (content msg); reflexivity.
Qed.

Lemma affirmativeTokens_lower (tok : jsstring) :
  In tok affirmativeTokens -> toLowerCase tok = tok.
Proof.
  simpl. intros [<- | [<- | [<- | [<- | []]]]]; reflexivity.
Qed.

(** The test of the code is the containment of a token up to case. *)
Lemma saysYes_affirmative (latestMessage : jsstring) :
  saysYes (toLowerCase latestMessage) = true <-> affirmative latestMessage.
Proof.
  unfold saysYes, affirmative. rewrite !orb_true_iff. split.
  - intros [[[H | H] | H] | H];
      [ exists (lit "yes") | exists (lit "confirm") | exists (lit "book it")
      | exists (lit "correct") ];
      (split; [simpl; tauto | apply includes_toLowerCase; exact H]).
  - intros [tok [Hin Hc]]. apply includes_toLowerCase in Hc.
    rewrite (affirmativeTokens_lower Hin) in Hc. simpl in Hin.
    destruct Hin as [<- | [<- | [<- | [<- | []]]]]; tauto.
Qed.

(** The step is 7 exactly when none of the six fields is empty. *)
Lemma determineCurrentStep_filled (state : BookingState) :
  Forall (fun f => f <> []) (fields state) <-> determineCurrentStep state = 7.
Proof.
  unfold determineCurrentStep, fields.
  repeat match goal with
         | |- context [falsy ?f] =>
             let E := fresh "E" in
             destruct (falsy f) eqn:E;
             [apply falsy_true in E | apply falsy_false in E]
         end;
    try (split; [|discriminate]; intros H; rewrite Forall_forall in H;
         exfalso;
         match goal with
         | E : ?f = [] |- _ => apply (H f); [simpl; tauto | exact E]
         end).
  split; [reflexivity|]. intros _. repeat constructor; assumption.
Qed.

Lemma merged_step_filled (currentState freshState : BookingState) :
  Forall (fun f => f <> []) (fields (merged currentState freshState)) <->
  step (merged currentState freshState) = 7.
Proof.
  change (step (merged currentState freshState))
    with (determineCurrentStep (merged currentState freshState)).
  apply determineCurrentStep_filled.
Qed.

Lemma merged_step_range (currentState freshState : BookingState) :
  1 <= step (merged currentState freshState) <= 7.
Proof. apply determineCurrentStep_range. Qed.

(** Six fresh fields make the merged step 7 whatever the current state. *)
Lemma merged_step_fresh (currentState freshState : BookingState) :
  7 <= determineCurrentStep freshState ->
  step (merged currentState freshState) = 7.
Proof.
  unfold determineCurrentStep at 1.
  destruct (falsy (patientName freshState)) eqn:E1; [lia|].
  destruct (falsy (phoneNumber freshState)) eqn:E2; [lia|].
  destruct (falsy (email freshState)) eqn:E3; [lia|].
  destruct (falsy (serviceType freshState)) eqn:E4; [lia|].
  destruct (falsy (preferredDate freshState)) eqn:E5; [lia|].
  destruct (falsy (preferredTime freshState)) eqn:E6; [lia|].
  intros _. unfold merged, determineCurrentStep, or_else. simpl.
  rewrite E1, E2, E3, E4, E5, E6. rewrite E1, E2, E3, E4, E5, E6.
  reflexivity.
Qed.

(** Merging a record with itself changes none of its fields. *)
Lemma merged_same (state : BookingState) :
  fields (merged (finish state) (finish state)) = fields (finish state) /\
  urgency (merged (finish state) (finish state)) = urgency (finish state) /\
  step (merged (finish state) (finish state)) = step (finish state).
Proof.
  unfold merged, fields. simpl. rewrite !or_else_same. auto.
Qed.

(** ** The service keywords *)

Lemma earlierKeywords_lower (kw : jsstring) :
  In kw earlierKeywords -> toLowerCase kw = kw.
Proof.
  intros H. simpl in H.
  repeat (destruct H as [<- | H]; [reflexivity|]). destruct H.
Qed.

Lemma someIncluded_none (lowerContent : jsstring) (keywords : list jsstring) :
  (forall kw, In kw keywords -> includes lowerContent kw = false) ->
  someIncluded lowerContent keywords = false.
Proof.
  intros H. unfold someIncluded.
  destruct (existsb _ keywords) eqn:E; [|reflexivity].
  apply existsb_exists in E. destruct E as [kw [Hin Hk]].
  rewrite (H kw Hin) in Hk. discriminate.
Qed.

(** A lowered message with no keyword of the four earlier categories selects
    [emergency] or nothing. *)
Lemma serviceOf_without_earlier (lowerContent : jsstring) :
  (forall kw, In kw earlierKeywords -> includes lowerContent kw = false) ->
  serviceOf lowerContent serviceKeywords =
  if someIncluded lowerContent
       [ lit "emergency"; lit "urgent"; lit "pain"; lit "broken tooth" ]
  then Some (lit "emergency") else None.
Proof.
  intros H.
  assert (Hn : forall kws,
             (forall kw, In kw kws -> In kw earlierKeywords) ->
             someIncluded lowerContent kws = false)
    by (intros kws Hk; apply someIncluded_none; auto).
  unfold serviceKeywords. cbn [serviceOf].
  rewrite !Hn by (intros kw Hk; simpl in Hk |- *; tauto). reflexivity.
Qed.

(** ** The examples of the specification and of the matcher *)

Example step_after_name :
  exists r,
    extractBookingState [ user "John Smith" ] = Ok r /\
    patientName r = lit "John Smith" /\ step r = 2.
Proof. eexists. split; [vm_compute; reflexivity | split; reflexivity]. Qed.

Example step_after_phone :
  exists r,
    extractBookingState [ user "John Smith"; user "555-123-4567" ] = Ok r /\
    phoneNumber r = lit "555-123-4567" /\ step r = 3.
Proof. eexists. split; [vm_compute; reflexivity | split; reflexivity]. Qed.

Example step_after_six_fields :
  exists r,
    extractBookingState sixMessages = Ok r /\
    fields r =
    [ lit "John Smith"; lit "555-123-4567"; lit "john@example.com";
      lit "cleaning"; lit "monday"; lit "10:00 am" ] /\
    step r = 7 /\ isComplete r = false.
Proof.
  eexists. split; [vm_compute; reflexivity | repeat split; reflexivity].
Qed.

Example email_and_phone_in_one_message :
  exists r,
    extractBookingState
      [ user "reach me at 5551234567 or bob.ray@mail.co.uk" ] = Ok r /\
    phoneNumber r = lit "5551234567" /\
    email r = lit "bob.ray@mail.co.uk".
Proof. eexists. split; [vm_compute; reflexivity | split; reflexivity]. Qed.

(** The quantifier of [name.*is] is greedy and gives back what the rest of
    the pattern needs. *)
Example name_backtracks :
  option_map (fun m => at_ m 1)
    (match_ (lit "the name on the card is this is Bob")
       (nth 0 namePatterns nameCheck))
  = Some (Some (lit "Bob")).
Proof. vm_compute. reflexivity. Qed.

(** Without the [u] flag the Kelvin sign is no letter for [[a-z]] under the
    [i] flag, while [toLowerCase] makes it a [k]. *)
Example kelvin_sign :
  test {| source := Cls az; ignoreCase := true |} [ 8490%N ] = false /\
  test {| source := Cls az; ignoreCase := true |} (lit "K") = true /\
  toLowerCase [ 8490%N ] = lit "k".
Proof. vm_compute. auto. Qed.

(** The rate limiter, unlike the extractor, answers by the state of the
    module. *)
Example checkRateLimit_reads_state :
  let w0 := {| rateLimitSessions := []; now := 1000 |} in
  let w1 := snd (checkRateLimit (lit "abc") w0) in
  fst (checkRateLimit (lit "abc") w0) = (true, 0%Z) /\
  fst (checkRateLimit (lit "abc") w1) = (false, 2000%Z).
Proof. vm_compute. auto. Qed.

(** * The properties of the specification *)

(** C1.  For every message list, extraction returns a record whose step is
    the 1-based ordinal of the first empty field in the order name, phone,
    email, service, date, time, and 7 when all six are filled; when the list
    holds no user message, the six fields are empty and the step is 1. *)
Theorem C1_step_is_first_empty_field (messages : list ChatMessage) :
  exists r,
    extractBookingState messages = Ok r /\
    step r = firstEmpty 1 (fields r) /\
    (forall k,
        k < 6 -> nth k (fields r) [] = [] ->
        (forall j, j < k -> nth j (fields r) [] <> []) ->
        step r = S k) /\
    ((forall f, In f (fields r) -> f <> []) -> step r = 7) /\
    ((forall msg, In msg messages -> role msg <> lit "user") ->
     fields r = [ []; []; []; []; []; [] ] /\ step r = 1).
Proof.
  destruct (extractBookingState_finish messages) as [state [El E]].
  exists (finish state). split; [exact E|].
  assert (Hs : step (finish state) = firstEmpty 1 (fields (finish state)))
    by reflexivity.
  destruct (firstEmpty_spec (fields (finish state)) 1) as [S1 S2].
  split; [exact Hs|]. split; [|split].
  - intros k Hk Hz Hj. rewrite Hs. apply (S1 k); assumption.
  - intros Hall. rewrite Hs. apply (S2 Hall).
  - intros Hno. unfold looped in El.
    rewrite filter_none in El
      by (intros a Ha; apply isUser_false, Hno, Ha).
    simpl in El. inversion El; subst state. split; reflexivity.
Qed.

Lemma C1_witness :
  exists r,
    extractBookingState [ assistant "Hello! What is your name?" ] = Ok r /\
    fields r = [ []; []; []; []; []; [] ] /\ step r = 1.
Proof.
  destruct (C1_step_is_first_empty_field
              [ assistant "Hello! What is your name?" ])
    as [r (E & _ & _ & _ & H)].
  exists r. split; [exact E|]. apply H.
  intros msg [<- | []]. discriminate.
Defined.

(** C2.  When the latest message contains "yes", "confirm", "book it" or
    "correct" up to case and the recomputed step is at least 7, the record
    [updateBookingState] returns is complete; for the six messages that fill
    the six fields followed by "yes, confirm", it is complete. *)
Theorem C2_confirmation_completes :
  (forall (currentState : BookingState) (latestMessage : jsstring)
          (allMessages : list ChatMessage),
      affirmative latestMessage ->
      exists freshState r,
        extractBookingState allMessages = Ok freshState /\
        updateBookingState currentState latestMessage allMessages = Ok r /\
        (7 <= step freshState -> isComplete r = true) /\
        (7 <= step r -> isComplete r = true)) /\
  (forall (earlier : list ChatMessage) (msg : ChatMessage),
      role msg = lit "user" -> affirmative (content msg) ->
      exists r,
        updatedState (earlier ++ [ msg ]) = Ok r /\
        (7 <= step r -> isComplete r = true)) /\
  (exists r,
      updatedState confirmedConversation = Ok r /\ isComplete r = true).
Proof.
  assert (G : forall (currentState : BookingState) (latestMessage : jsstring)
                     (allMessages : list ChatMessage),
             affirmative latestMessage ->
             exists freshState r,
               extractBookingState allMessages = Ok freshState /\
               updateBookingState currentState latestMessage allMessages
               = Ok r /\
               (7 <= step freshState -> isComplete r = true) /\
               (7 <= step r -> isComplete r = true)); [|split; [exact G|split]].
  - intros currentState latestMessage allMessages Ha.
    destruct (extractBookingState_finish allMessages) as [s [_ E]].
    exists (finish s). eexists. split; [exact E|].
    split; [apply (@updateBookingState_merged _ _ _ _ E)|].
    apply saysYes_affirmative in Ha.
    destruct (confirmed_same latestMessage (merged currentState (finish s)))
      as (_ & _ & Hs).
    rewrite confirmed_isComplete, Hs, Ha. cbn [andb].
    assert (H : 7 <= step (merged currentState (finish s)) ->
                (7 <=? step (merged currentState (finish s)))
                || isComplete (merged currentState (finish s)) = true).
    { intros H. apply Nat.leb_le in H. rewrite H. reflexivity. }
    split; [|exact H].
    intros H7. apply H.
    rewrite (merged_step_fresh currentState (finish s)); [lia | exact H7].
  - intros earlier msg _ Ha.
    destruct (extractBookingState_finish (earlier ++ [ msg ])) as [s [_ E]].
    unfold updatedState. rewrite E, latestContent_last. cbn [bind].
    destruct (G (finish s) (content msg) (earlier ++ [ msg ]) Ha)
      as [f [r (_ & Er & _ & Hr)]].
    exists r. split; [exact Er | exact Hr].
  - eexists. split; vm_compute; reflexivity.
Qed.

Lemma C2_witness :
  affirmative (lit "Yes, book it!") /\
  exists freshState r,
    extractBookingState sixMessages = Ok freshState /\
    updateBookingState initialState (lit "Yes, book it!") sixMessages = Ok r /\
    (7 <= step freshState -> isComplete r = true) /\
    (7 <= step r -> isComplete r = true).
Proof.
  assert (Ha : affirmative (lit "Yes, book it!")).
  { exists (lit "yes"). split; [simpl; auto|].
    exists [], (lit "Yes"), (lit ", book it!"). split; reflexivity. }
  split; [exact Ha|].
  exact (proj1 C2_confirmation_completes initialState (lit "Yes, book it!")
           sixMessages Ha).
Defined.

(** C3 as stated fails on the confirmed conversation: the six fields are
    filled and the latest message is affirmative, the record is complete, and
    its step is 7, neither 8 nor above 7. *)
Lemma C3_counterexample :
  exists r,
    updatedState confirmedConversation = Ok r /\
    Forall (fun f => f <> []) (fields r) /\
    affirmative (latestContent confirmedConversation) /\
    isComplete r = true /\
    step r = 7 /\ step r <> 8 /\ ~ 7 < step r.
Proof.
  eexists. split; [vm_compute; reflexivity|]. split.
  - repeat constructor; discriminate.
  - split.
    + apply saysYes_affirmative. vm_compute. reflexivity.
    + simpl. repeat split; lia.
Qed.

(** C3, as the code has it.  The step of the record [updateBookingState]
    returns ranges over 1 to 7 and never reaches 8: it is 7 exactly when the
    six fields are filled, and stays 7 then whatever the latest message says,
    also after an affirmative confirmation.  From a current state that is not
    complete, and so for the record [POST] computes, the result is complete
    exactly when its step is 7 and the latest message contains an affirmative
    token. *)
Theorem C3_step_stays_within_7 :
  (forall (currentState : BookingState) (latestMessage : jsstring)
          (allMessages : list ChatMessage),
      exists r,
        updateBookingState currentState latestMessage allMessages = Ok r /\
        1 <= step r <= 7 /\
        (Forall (fun f => f <> []) (fields r) <-> step r = 7) /\
        (isComplete currentState = false ->
         (isComplete r = true <-> step r = 7 /\ affirmative latestMessage))) /\
  (forall messages : list ChatMessage,
      exists r,
        updatedState messages = Ok r /\
        1 <= step r <= 7 /\
        (Forall (fun f => f <> []) (fields r) <-> step r = 7) /\
        (isComplete r = true <->
         step r = 7 /\ affirmative (latestContent messages)) /\
        (Forall (fun f => f <> []) (fields r) ->
         affirmative (latestContent messages) ->
         step r = 7 /\ isComplete r = true)).
Proof.
  assert (G : forall currentState latestMessage allMessages,
             exists r,
               updateBookingState currentState latestMessage allMessages = Ok r /\
               1 <= step r <= 7 /\
               (Forall (fun f => f <> []) (fields r) <-> step r = 7) /\
               (isComplete currentState = false ->
                (isComplete r = true <->
                 step r = 7 /\ affirmative latestMessage))).
  { intros currentState latestMessage allMessages.
    destruct (extractBookingState_finish allMessages) as [s [_ E]].
    eexists. split; [apply (@updateBookingState_merged _ _ _ _ E)|].
    destruct (confirmed_same latestMessage (merged currentState (finish s)))
      as (Hf & _ & Hs).
    pose proof (merged_step_range currentState (finish s)) as R.
    rewrite confirmed_isComplete, merged_isComplete, Hs, Hf.
    rewrite <- saysYes_affirmative.
    split; [exact R|]. split; [apply merged_step_filled|].
    intros ->. rewrite orb_false_r, andb_true_iff.
    rewrite Nat.leb_le. split; intros [H1 H2]; split; auto; lia. }
  split; [exact G|].
  intros messages.
  destruct (extractBookingState_finish messages) as [s [_ E]].
  unfold updatedState. rewrite E. cbn [bind].
  destruct (G (finish s) (latestContent messages) messages)
    as [r (Er & Hr & Hf & Hc)].
  assert (Hc' : isComplete r = true <->
                step r = 7 /\ affirmative (latestContent messages)).
  { apply Hc.
    change (isComplete (finish s)) with (7 <? determineCurrentStep s).
    apply Nat.ltb_ge. pose proof (determineCurrentStep_range s). lia. }
  exists r. split; [exact Er|]. split; [exact Hr|]. split; [exact Hf|].
  split; [exact Hc'|]. intros Hfilled Hyes.
  apply Hf in Hfilled. split; [exact Hfilled|]. apply Hc'. auto.
Qed.

Lemma C3_witness :
  exists r,
    updateBookingState initialState (lit "yes") sixMessages = Ok r /\
    1 <= step r <= 7 /\
    (Forall (fun f => f <> []) (fields r) <-> step r = 7) /\
    (isComplete r = true <-> step r = 7 /\ affirmative (lit "yes")).
Proof.
  destruct (proj1 C3_step_stays_within_7 initialState (lit "yes") sixMessages)
    as [r (E & R & F & H)].
  exists r. split; [exact E|]. split; [exact R|]. split; [exact F|].
  apply H. reflexivity.
Defined.

(** C4.  Appending messages to a list never lowers the step of the extracted
    record and never changes a field that was filled for the shorter list;
    for ["My name is Anna", "Actually call me Bob"] the name is "Anna". *)
Theorem C4_appending_keeps_fields_and_step :
  (forall messages more : list ChatMessage,
      exists r r',
        extractBookingState messages = Ok r /\
        extractBookingState (messages ++ more) = Ok r' /\
        step r <= step r' /\
        (patientName r <> [] -> patientName r' = patientName r) /\
        (phoneNumber r <> [] -> phoneNumber r' = phoneNumber r) /\
        (email r <> [] -> email r' = email r) /\
        (serviceType r <> [] -> serviceType r' = serviceType r) /\
        (preferredDate r <> [] -> preferredDate r' = preferredDate r) /\
        (preferredTime r <> [] -> preferredTime r' = preferredTime r)) /\
  (exists r,
      extractBookingState [ user "My name is Anna"; user "Actually call me Bob" ]
      = Ok r /\
      patientName r = lit "Anna").
Proof.
  split.
  - intros messages more.
    destruct (extractBookingState_finish messages) as [s [El E]].
    destruct (extractBookingState_finish (messages ++ more)) as [s' [El' E']].
    exists (finish s), (finish s'). split; [exact E|]. split; [exact E'|].
    assert (L : locked s s').
    { unfold looped in El, El'. rewrite filter_app, forEach_app, El in El'.
      simpl in El'.
      exact (forEach_related processMessage locked (filter isUser more)
               locked_refl locked_trans processMessage_locked _ El'). }
    split; [apply (determineCurrentStep_locked L) | exact L].
  - eexists. split; vm_compute; reflexivity.
Qed.

Lemma C4_witness :
  exists r r',
    extractBookingState [ user "My name is Anna" ] = Ok r /\
    extractBookingState
      ([ user "My name is Anna" ] ++ [ user "Actually call me Bob" ]) = Ok r' /\
    step r <= step r' /\
    patientName r' = patientName r.
Proof.
  destruct (proj1 C4_appending_keeps_fields_and_step
              [ user "My name is Anna" ] [ user "Actually call me Bob" ])
    as [r [r' (E & E' & Hs & Hn & _)]].
  exists r, r'. split; [exact E|]. split; [exact E'|]. split; [exact Hs|].
  apply Hn. vm_compute in E. inversion E. discriminate.
Defined.

(** C6.  Messages whose role is not "user" never influence extraction: the
    result is that of the sublist of user messages, and inserting or removing
    such a message anywhere changes nothing. *)
Theorem C6_only_user_messages_count (messages before after : list ChatMessage)
    (other : ChatMessage) :
  extractBookingState messages = extractBookingState (filter isUser messages) /\
  (role other <> lit "user" ->
   extractBookingState (before ++ other :: after) =
   extractBookingState (before ++ after)).
Proof.
  split.
  - unfold extractBookingState. rewrite filter_idempotent. reflexivity.
  - intros H. apply isUser_false in H. unfold extractBookingState.
    rewrite !filter_app. simpl. rewrite H. reflexivity.
Qed.

Lemma C6_witness :
  extractBookingState
    ([ user "John Smith" ] ++
     assistant "Thank you! Your phone number?" :: [ user "555-123-4567" ]) =
  extractBookingState ([ user "John Smith" ] ++ [ user "555-123-4567" ]).
Proof.
  apply (proj2 (C6_only_user_messages_count []
                  [ user "John Smith" ] [ user "555-123-4567" ]
                  (assistant "Thank you! Your phone number?"))).
  discriminate.
Defined.

(** C7 as stated fails: a user message that contains "broken tooth" after
    the word "cleaning" selects the service "cleaning", and the urgency stays
    "routine". *)
Lemma C7_counterexample :
  exists msg r,
    msg = user "I need a cleaning and I have a broken tooth" /\
    role msg = lit "user" /\
    includes (content msg) (lit "broken tooth") = true /\
    extractBookingState [ msg ] = Ok r /\
    serviceType r = lit "cleaning" /\
    urgency r = lit "routine" /\
    serviceType r <> lit "emergency" /\
    urgency r <> lit "emergency".
Proof.
  eexists. eexists. split; [reflexivity|].
  split; [reflexivity|]. split; [vm_compute; reflexivity|].
  split; [vm_compute; reflexivity|].
  split; [reflexivity|]. split; [reflexivity|].
  split; discriminate.
Qed.

(** C7, as the code has it.  When a user message contains "broken tooth" and
    no user message up to and including it contains, in any case, a keyword
    of the categories tried before emergency (cleaning, checkup, whitening,
    filling), the extracted record has service "emergency" and urgency
    "emergency". *)
Theorem C7_broken_tooth_is_emergency (before after : list ChatMessage)
    (msg : ChatMessage) :
  role msg = lit "user" ->
  includes (content msg) (lit "broken tooth") = true ->
  (forall u kw,
      In u (before ++ [ msg ]) -> role u = lit "user" ->
      In kw earlierKeywords -> ~ contains_ci (content u) kw) ->
  exists r,
    extractBookingState (before ++ msg :: after) = Ok r /\
    serviceType r = lit "emergency" /\
    urgency r = lit "emergency".
Proof.
  intros Hrole Hbt Hno.
  assert (Hlc : forall u,
             In u (before ++ [ msg ]) -> isUser u = true ->
             forall kw, In kw earlierKeywords ->
                        includes (toLowerCase (content u)) kw = false).
  { intros u Hu Hr kw Hk. apply eqb_eq in Hr.
    destruct (includes (toLowerCase (content u)) kw) eqn:E; [|reflexivity].
    exfalso. apply (Hno u kw Hu Hr Hk). apply includes_toLowerCase.
    rewrite (earlierKeywords_lower Hk). exact E. }
  destruct (extractBookingState_finish (before ++ msg :: after))
    as [s [El E]].
  exists (finish s). split; [exact E|].
  change (serviceType s = lit "emergency" /\ urgency s = lit "emergency").
  unfold looped in El. rewrite filter_app in El. cbn [filter] in El.
  assert (Hu : isUser msg = true) by (apply eqb_eq; exact Hrole).
  rewrite Hu, forEach_app in El.
  destruct (forEach processMessage (filter isUser before) initialState)
    as [s1|] eqn:E1; [|discriminate].
  cbn [bind forEach] in El.
  destruct (processMessage s1 msg) as [s2|] eqn:E2; [|discriminate].
  cbn [bind] in El.
  (* Before the message: no service yet, or the emergency one. *)
  assert (J1 : serviceType s1 = [] /\ urgency s1 = lit "routine" \/
               serviceType s1 = lit "emergency" /\
               urgency s1 = lit "emergency").
  { revert E1.
    apply (forEach_invariant processMessage
             (fun t => serviceType t = [] /\ urgency t = lit "routine" \/
                       serviceType t = lit "emergency" /\
                       urgency t = lit "emergency"));
      [|left; split; reflexivity].
    intros t a t' Ha Ht Et. apply filter_In in Ha. destruct Ha as [Ha Hua].
    apply processMessage_service in Et. destruct Et as [K1 K2].
    destruct Ht as [[Hs Hg] | [Hs Hg]].
    - specialize (K2 Hs).
      rewrite serviceOf_without_earlier in K2
        by (apply Hlc; [apply in_or_app; left; exact Ha | exact Hua]).
      destruct (someIncluded _ _).
      + destruct K2 as (_ & -> & ->). right. split; reflexivity.
      + destruct K2 as [-> ->]. left. split; assumption.
    - destruct K1 as [-> ->]; [rewrite Hs; discriminate|].
      right. split; assumption. }
  (* The message itself. *)
  assert (J2 : serviceType s2 = lit "emergency" /\
               urgency s2 = lit "emergency").
  { apply processMessage_service in E2. destruct E2 as [K1 K2].
    destruct J1 as [[Hs Hg] | [Hs Hg]].
    - specialize (K2 Hs).
      rewrite serviceOf_without_earlier in K2
        by (apply Hlc; [apply in_or_app; right; left; reflexivity | exact Hu]).
      assert (Hb : someIncluded (toLowerCase (content msg))
                     [ lit "emergency"; lit "urgent"; lit "pain";
                       lit "broken tooth" ] = true).
      { unfold someIncluded. cbn [existsb].
        rewrite (@includes_lowered (content msg) (lit "broken tooth")
                   eq_refl Hbt).
        rewrite !orb_true_r. reflexivity. }
      rewrite Hb in K2. destruct K2 as (_ & -> & ->). split; reflexivity.
    - destruct K1 as [-> ->]; [rewrite Hs; discriminate|].
      split; assumption. }
  (* After it the service is locked. *)
  revert El.
  apply (forEach_invariant processMessage
           (fun t => serviceType t = lit "emergency" /\
                     urgency t = lit "emergency")); [|exact J2].
  intros t a t' _ [Hs Hg] Et. apply processMessage_service in Et.
  destruct Et as [K1 _].
  destruct K1 as [-> ->]; [rewrite Hs; discriminate|]. split; assumption.
Qed.

Lemma C7_witness :
  exists r,
    extractBookingState
      ([ user "John Smith" ] ++
       user "I have a broken tooth" :: [ user "and I would like a cleaning" ])
    = Ok r /\
    serviceType r = lit "emergency" /\
    urgency r = lit "emergency".
Proof.
  apply (@C7_broken_tooth_is_emergency [ user "John Smith" ]
           [ user "and I would like a cleaning" ]
           (user "I have a broken tooth")).
  - reflexivity.
  - vm_compute. reflexivity.
  - intros u kw Hu _ Hk Hc. apply includes_toLowerCase in Hc.
    simpl in Hu. destruct Hu as [<- | [<- | []]];
      simpl in Hk;
      repeat (destruct Hk as [<- | Hk]; [vm_compute in Hc; discriminate|]);
      destruct Hk.
Defined.

(** C8.  Extraction is total and never fails: for every message list,
    whatever the contents, it returns a record (no exception is thrown and no
    field is left undefined), with a step from 1 to 7 and an urgency that is
    "routine" or "emergency". *)
Theorem C8_extraction_never_fails (messages : list ChatMessage) :
  exists r,
    extractBookingState messages = Ok r /\
    1 <= step r <= 7 /\
    (urgency r = lit "routine" \/ urgency r = lit "emergency") /\
    additionalNotes r = [].
Proof.
  destruct (extractBookingState_finish messages) as [s [El E]].
  exists (finish s). split; [exact E|]. split; [|split].
  - apply determineCurrentStep_range.
  - destruct (looped_urgency _ El) as [[_ H] | [_ H]]; simpl; auto.
  - simpl. revert El. unfold looped.
    apply (forEach_invariant processMessage
             (fun t => additionalNotes t = [])); [|reflexivity].
    intros t a t' _ Ht Et.
    destruct (processMessage_blocks t a) as (s1 & s2 & s6 & E1 & E2 & E6 & Ep).
    rewrite Ep in Et. inversion Et; subst s6. clear Et Ep.
    destruct (extractName_shape (content a) t) as [x1 [X1 H1]].
    rewrite X1 in E1. inversion E1; subst x1.
    destruct (extractPhone_shape (content a) s1) as [x2 [X2 H2]].
    rewrite X2 in E2. inversion E2; subst x2.
    set (lc := toLowerCase (content a)) in *.
    pose proof (extractEmail_shape (content a) s2) as H3.
    set (s3 := extractEmail (content a) s2) in *.
    pose proof (extractService_shape lc s3) as H4.
    set (s4 := extractService lc s3) in *.
    pose proof (extractDate_shape lc s4) as H5.
    set (s5 := extractDate lc s4) in *.
    destruct (extractTime_shape (content a) s5) as [x6 [X6 H6]].
    rewrite X6 in E6. inversion E6; subst x6.
    assert (N1 : additionalNotes s1 = additionalNotes t)
      by (destruct H1 as [-> | [_ [v [_ ->]]]]; reflexivity).
    assert (N2 : additionalNotes s2 = additionalNotes s1)
      by (destruct H2 as [-> | [_ [v ->]]]; reflexivity).
    assert (N3 : additionalNotes s3 = additionalNotes s2)
      by (destruct H3 as [-> | [_ [v ->]]]; reflexivity).
    assert (N4 : additionalNotes s4 = additionalNotes s3)
      by (destruct H4 as [-> | [_ [v [_ [_ [[_ ->] | [_ ->]]]]]]];
          reflexivity).
    assert (N5 : additionalNotes s5 = additionalNotes s4)
      by (destruct H5 as [-> | [_ [v ->]]]; reflexivity).
    assert (N6 : additionalNotes t' = additionalNotes s5)
      by (destruct H6 as [-> | [_ [v ->]]]; reflexivity).
    congruence.
Qed.

(** C9.  For every message list, the record extraction returns has a step
    from 1 to 7 and is not complete: the assignment
    isComplete = (step > 7) is never true. *)
Theorem C9_extraction_never_completes (messages : list ChatMessage) :
  exists r,
    extractBookingState messages = Ok r /\
    1 <= step r <= 7 /\
    isComplete r = false.
Proof.
  destruct (extractBookingState_finish messages) as [s [_ E]].
  exists (finish s). split; [exact E|].
  pose proof (determineCurrentStep_range s) as R. split; [exact R|].
  simpl. apply Nat.ltb_ge. lia.
Qed.

(** C10.  For every message list, the record extraction returns has urgency
    "emergency" exactly when its service is "emergency", and urgency
    "routine" otherwise. *)
Theorem C10_urgency_follows_service (messages : list ChatMessage) :
  exists r,
    extractBookingState messages = Ok r /\
    (urgency r = lit "emergency" <-> serviceType r = lit "emergency") /\
    (serviceType r <> lit "emergency" -> urgency r = lit "routine") /\
    (urgency r = lit "emergency" \/ urgency r = lit "routine").
Proof.
  destruct (extractBookingState_finish messages) as [s [El E]].
  exists (finish s). split; [exact E|]. simpl.
  destruct (looped_urgency _ El) as [[Hs Hu] | [Hs Hu]]; rewrite Hu.
  - repeat split; auto. intros; contradiction.
  - repeat split; auto; try discriminate. intros; contradiction.
Qed.

(** * Further properties of the code *)

(** ** A record with its six fields filled *)

Lemma extractName_filled (content : jsstring) (s : BookingState) :
  patientName s <> [] -> extractName content s = Ok s.
Proof.
  intros H. unfold extractName. apply falsy_false in H. rewrite H. reflexivity.
Qed.

Lemma extractPhone_filled (content : jsstring) (s : BookingState) :
  phoneNumber s <> [] -> extractPhone content s = Ok s.
Proof.
  intros H. unfold extractPhone. apply falsy_false in H. rewrite H.
  reflexivity.
Qed.

Lemma extractEmail_filled (content : jsstring) (s : BookingState) :
  email s <> [] -> extractEmail content s = s.
Proof.
  intros H. unfold extractEmail. apply falsy_false in H. rewrite H.
  reflexivity.
Qed.

Lemma extractService_filled (lowerContent : jsstring) (s : BookingState) :
  serviceType s <> [] -> extractService lowerContent s = s.
Proof.
  intros H. unfold extractService. apply falsy_false in H. rewrite H.
  reflexivity.
Qed.

Lemma extractDate_filled (lowerContent : jsstring) (s : BookingState) :
  preferredDate s <> [] -> extractDate lowerContent s = s.
Proof.
  intros H. unfold extractDate. apply falsy_false in H. rewrite H.
  reflexivity.
Qed.

Lemma extractTime_filled (content : jsstring) (s : BookingState) :
  preferredTime s <> [] -> extractTime content s = Ok s.
Proof.
  intros H. unfold extractTime. apply falsy_false in H. rewrite H.
  reflexivity.
Qed.

(** What a step says about the fields. *)
Lemma determineCurrentStep_fields (s : BookingState) :
  match determineCurrentStep s with
  | 1 => patientName s = []
  | 2 => patientName s <> [] /\ phoneNumber s = []
  | 3 => patientName s <> [] /\ phoneNumber s <> [] /\ email s = []
  | 4 =>
      patientName s <> [] /\ phoneNumber s <> [] /\ email s <> [] /\
      serviceType s = []
  | 5 =>
      patientName s <> [] /\ phoneNumber s <> [] /\ email s <> [] /\
      serviceType s <> [] /\ preferredDate s = []
  | 6 =>
      patientName s <> [] /\ phoneNumber s <> [] /\ email s <> [] /\
      serviceType s <> [] /\ preferredDate s <> [] /\ preferredTime s = []
  | _ =>
      patientName s <> [] /\ phoneNumber s <> [] /\ email s <> [] /\
      serviceType s <> [] /\ preferredDate s <> [] /\ preferredTime s <> []
  end.
Proof.
  unfold determineCurrentStep.
  destruct (falsy (patientName s)) eqn:E1;
    [apply falsy_true in E1; exact E1 | apply falsy_false in E1].
  destruct (falsy (phoneNumber s)) eqn:E2;
    [apply falsy_true in E2; auto | apply falsy_false in E2].
  destruct (falsy (email s)) eqn:E3;
    [apply falsy_true in E3; auto | apply falsy_false in E3].
  destruct (falsy (serviceType s)) eqn:E4;
    [apply falsy_true in E4; auto | apply falsy_false in E4].
  destruct (falsy (preferredDate s)) eqn:E5;
    [apply falsy_true in E5; auto 6 | apply falsy_false in E5].
  destruct (falsy (preferredTime s)) eqn:E6;
    [apply falsy_true in E6; auto 7 | apply falsy_false in E6].
  auto 7.
Qed.

(** With the first three fields filled, a message only goes through the
    service, date and time blocks. *)
Lemma processMessage_from_service (s : BookingState) (message : ChatMessage) :
  patientName s <> [] -> phoneNumber s <> [] -> email s <> [] ->
  processMessage s message =
  extractTime (content message)
    (extractDate (toLowerCase (content message))
       (extractService (toLowerCase (content message)) s)).
Proof.
  intros H1 H2 H3. unfold processMessage.
  rewrite (@extractName_filled _ _ H1). cbn [bind].
  rewrite (@extractPhone_filled _ _ H2). cbn [bind].
  rewrite (@extractEmail_filled _ _ H3). reflexivity.
Qed.

(** With the six fields filled, a message changes nothing. *)
Lemma processMessage_filled (s : BookingState) (message : ChatMessage) :
  determineCurrentStep s = 7 -> processMessage s message = Ok s.
Proof.
  intros H7. pose proof (determineCurrentStep_fields s) as F.
  rewrite H7 in F. destruct F as (H1 & H2 & H3 & H4 & H5 & H6).
  rewrite (@processMessage_from_service _ _ H1 H2 H3).
  rewrite (@extractService_filled _ _ H4), (@extractDate_filled _ _ H5).
  apply (@extractTime_filled _ _ H6).
Qed.

Lemma forEach_filled (l : list ChatMessage) (s : BookingState) :
  determineCurrentStep s = 7 -> forEach processMessage l s = Ok s.
Proof.
  intros H7. induction l as [|m l IH]; simpl; [reflexivity|].
  rewrite (@processMessage_filled _ _ H7). exact IH.
Qed.

(** X1.  Once the six fields are filled (the step is 7), no further message
    of any role changes anything: extraction on the longer list returns the
    very same record, so a value cannot be corrected any more. *)
Theorem X1_filled_record_is_final (messages more : list ChatMessage)
    (r : BookingState) :
  extractBookingState messages = Ok r -> step r = 7 ->
  extractBookingState (messages ++ more) = Ok r.
Proof.
  intros E H7.
  destruct (extractBookingState_finish messages) as [s [El Es]].
  rewrite Es in E. inversion E; subst r. clear E.
  change (determineCurrentStep s = 7) in H7.
  unfold extractBookingState. rewrite filter_app, forEach_app.
  unfold looped in El. rewrite El. cbn [bind].
  rewrite (@forEach_filled _ _ H7). reflexivity.
Qed.

Lemma X1_witness :
  exists r,
    extractBookingState sixMessages = Ok r /\ step r = 7 /\
    extractBookingState
      (sixMessages ++ [ user "Sorry, my name is Bob Jones, call 2125550000" ])
    = Ok r.
Proof.
  eexists. split; [vm_compute; reflexivity|]. split; [reflexivity|].
  apply X1_filled_record_is_final; [vm_compute; reflexivity | reflexivity].
Defined.

(** ** The quick replies against the extractor *)

Lemma tryDates_dateOf (lowerContent : jsstring) (keywords : list jsstring)
    (s : BookingState) :
  tryDates lowerContent keywords s =
  match dateOf lowerContent keywords with
  | Some keyword => set_preferredDate keyword s
  | None => s
  end.
Proof.
  induction keywords as [|k ks IH]; simpl; [reflexivity|].
  destruct (includes lowerContent k); [reflexivity | exact IH].
Qed.

Lemma extractDate_none (lowerContent : jsstring) (s : BookingState) :
  dateOf lowerContent dateKeywords = None -> extractDate lowerContent s = s.
Proof.
  intros H. unfold extractDate. rewrite tryDates_dateOf, H.
  destruct (falsy (preferredDate s)); reflexivity.
Qed.

Lemma extractTime_none (content : jsstring) (s : BookingState) :
  firstGroup content timePatterns = Ok None -> extractTime content s = Ok s.
Proof.
  intros H. unfold extractTime. rewrite H.
  destruct (falsy (preferredTime s)); reflexivity.
Qed.

Lemma isUser_userMessage (input : jsstring) : isUser (userMessage input) = true.
Proof. reflexivity. Qed.

(** The record after one more user message, from the state of the loop. *)
Lemma extractBookingState_snoc (messages : list ChatMessage)
    (s : BookingState) (input : jsstring) (s' : BookingState) :
  looped messages = Ok s ->
  processMessage s (userMessage input) = Ok s' ->
  extractBookingState (messages ++ [ userMessage input ]) = Ok (finish s').
Proof.
  intros El Ep. unfold extractBookingState. unfold looped in El.
  rewrite filter_app, forEach_app, El. cbn [bind filter].
  rewrite isUser_userMessage. cbn [forEach]. rewrite Ep. reflexivity.
Qed.

Section QuickReply.

Variables (s : BookingState) (q : jsstring).
Hypothesis name_filled : patientName s <> [].
Hypothesis phone_filled : phoneNumber s <> [].
Hypothesis email_filled : email s <> [].

Lemma reply_fills_service (service : jsstring) :
  serviceType s = [] ->
  serviceOf (toLowerCase q) serviceKeywords = Some service ->
  dateOf (toLowerCase q) dateKeywords = None ->
  firstGroup q timePatterns = Ok None ->
  processMessage s (userMessage q) =
  Ok (if eqb service (lit "emergency")
      then set_urgency (lit "emergency") (set_serviceType service s)
      else set_serviceType service s).
Proof.
  intros Hs Hsv Hd Ht.
  rewrite (@processMessage_from_service _ _ name_filled phone_filled
             email_filled).
  cbn [content userMessage]. unfold extractService.
  rewrite (proj2 (falsy_true _) Hs), tryServices_serviceOf, Hsv.
  rewrite (@extractDate_none _ _ Hd). apply (@extractTime_none _ _ Ht).
Qed.

Hypothesis service_filled : serviceType s <> [].

Lemma reply_fills_date (day : jsstring) :
  preferredDate s = [] ->
  dateOf (toLowerCase q) dateKeywords = Some day ->
  firstGroup q timePatterns = Ok None ->
  processMessage s (userMessage q) = Ok (set_preferredDate day s).
Proof.
  intros Hd Hday Ht.
  rewrite (@processMessage_from_service _ _ name_filled phone_filled
             email_filled).
  cbn [content userMessage].
  rewrite (@extractService_filled _ _ service_filled). unfold extractDate.
  rewrite (proj2 (falsy_true _) Hd), tryDates_dateOf, Hday.
  apply (@extractTime_none _ _ Ht).
Qed.

Hypothesis date_filled : preferredDate s <> [].

Lemma reply_fills_time (time : jsstring) :
  preferredTime s = [] ->
  firstGroup q timePatterns = Ok (Some time) ->
  processMessage s (userMessage q) = Ok (set_preferredTime time s).
Proof.
  intros Ht Htime.
  rewrite (@processMessage_from_service _ _ name_filled phone_filled
             email_filled).
  cbn [content userMessage].
  rewrite (@extractService_filled _ _ service_filled).
  rewrite (@extractDate_filled _ _ date_filled). unfold extractTime.
  rewrite (proj2 (falsy_true _) Ht), Htime. reflexivity.
Qed.

End QuickReply.

Lemma fields_service (s : BookingState) (service : jsstring) :
  fields (if eqb service (lit "emergency")
          then set_urgency (lit "emergency") (set_serviceType service s)
          else set_serviceType service s) =
  [ patientName s; phoneNumber s; email s; service; preferredDate s;
    preferredTime s ].
Proof. destruct (eqb service (lit "emergency")); reflexivity. Qed.

Lemma step_finish (s : BookingState) :
  step (finish s) = firstEmpty 1 (fields s) /\ fields (finish s) = fields s.
Proof. split; reflexivity. Qed.

(** X2.  Each quick reply the chat window offers at the steps 4, 5 and 6 is
    understood by the extractor: posted as the next user message it fills
    the field the step asks for, with the lowered reply for a service or a
    day and with the reply itself for a time, and the step moves on. *)
Theorem X2_quick_reply_fills_its_field (messages : list ChatMessage)
    (r : BookingState) (q : jsstring) :
  extractBookingState messages = Ok r ->
  In q (getQuickReplies (Some r)) ->
  step r <> 7 ->
  exists r',
    extractBookingState (messages ++ [ userMessage q ]) = Ok r' /\
    step r < step r' /\
    nth (step r - 1) (fields r') [] =
    (if step r =? 6 then q else toLowerCase q).
Proof.
  intros E Hq H7.
  destruct (extractBookingState_finish messages) as [s [El Es]].
  rewrite Es in E. inversion E; subst r. clear E Es.
  change (step (finish s)) with (determineCurrentStep s) in *.
  pose proof (determineCurrentStep_fields s) as F.
  unfold getQuickReplies in Hq.
  change (step (finish s)) with (determineCurrentStep s) in Hq.
  destruct (determineCurrentStep s) as [|[|[|[|[|[|[|[|k]]]]]]]] eqn:D;
    try (destruct Hq; fail); [| | |congruence].
  - (* Service selection *)
    destruct F as (H1 & H2 & H3 & H4).
    assert (G : forall service,
               serviceOf (toLowerCase q) serviceKeywords = Some service ->
               service = toLowerCase q ->
               dateOf (toLowerCase q) dateKeywords = None ->
               firstGroup q timePatterns = Ok None ->
               exists r',
                 extractBookingState (messages ++ [ userMessage q ]) = Ok r' /\
                 4 < step r' /\ nth 3 (fields r') [] = toLowerCase q).
    { intros service Hsv Hq' Hd Ht.
      pose proof (@reply_fills_service s q H1 H2 H3 service H4 Hsv Hd Ht) as Ep.
      eexists. split; [exact (@extractBookingState_snoc _ _ _ _ El Ep)|].
      destruct (step_finish
                  (if eqb service (lit "emergency")
                   then set_urgency (lit "emergency")
                          (set_serviceType service s)
                   else set_serviceType service s)) as [-> ->].
      rewrite fields_service. cbn [firstEmpty nth].
      apply falsy_false in H1. apply falsy_false in H2.
      apply falsy_false in H3. rewrite H1, H2, H3.
      split; [|exact Hq'].
      assert (Hf : falsy service = false).
      { apply serviceOf_In in Hsv. simpl in Hsv.
        repeat (destruct Hsv as [<- | Hsv]; [reflexivity|]). destruct Hsv. }
      rewrite Hf.
      destruct (falsy (preferredDate s)); [lia|].
      destruct (falsy (preferredTime s)); lia. }
    simpl in Hq.
    repeat (destruct Hq as [<- | Hq];
            [eapply G; vm_compute; reflexivity|]).
    destruct Hq.
  - (* Date selection *)
    destruct F as (H1 & H2 & H3 & H4 & H5).
    assert (G : forall day,
               dateOf (toLowerCase q) dateKeywords = Some day ->
               day = toLowerCase q ->
               firstGroup q timePatterns = Ok None ->
               exists r',
                 extractBookingState (messages ++ [ userMessage q ]) = Ok r' /\
                 5 < step r' /\ nth 4 (fields r') [] = toLowerCase q).
    { intros day Hday Hq' Ht.
      pose proof (@reply_fills_date s q H1 H2 H3 H4 day H5 Hday Ht) as Ep.
      eexists. split; [exact (@extractBookingState_snoc _ _ _ _ El Ep)|].
      destruct (step_finish (set_preferredDate day s)) as [-> ->].
      cbn [fields set_preferredDate patientName phoneNumber email serviceType
           preferredDate preferredTime firstEmpty nth].
      apply falsy_false in H1. apply falsy_false in H2.
      apply falsy_false in H3. apply falsy_false in H4.
      rewrite H1, H2, H3, H4. split; [|exact Hq'].
      assert (Hf : falsy day = false).
      { clear - Hday. revert Hday. generalize (toLowerCase q) as lc.
        intros lc. unfold dateKeywords. cbn [dateOf].
        repeat (destruct (includes lc _);
                [intros H; inversion H; reflexivity|]).
        discriminate. }
      rewrite Hf. destruct (falsy (preferredTime s)); lia. }
    simpl in Hq.
    repeat (destruct Hq as [<- | Hq];
            [eapply G; vm_compute; reflexivity|]).
    destruct Hq.
  - (* Time selection *)
    destruct F as (H1 & H2 & H3 & H4 & H5 & H6).
    assert (G : firstGroup q timePatterns = Ok (Some q) ->
                q <> [] ->
                exists r',
                  extractBookingState (messages ++ [ userMessage q ]) = Ok r' /\
                  6 < step r' /\ nth 5 (fields r') [] = q).
    { intros Ht Hne.
      pose proof (@reply_fills_time s q H1 H2 H3 H4 H5 q H6 Ht) as Ep.
      eexists. split; [exact (@extractBookingState_snoc _ _ _ _ El Ep)|].
      destruct (step_finish (set_preferredTime q s)) as [-> ->].
      cbn [fields set_preferredTime patientName phoneNumber email serviceType
           preferredDate preferredTime firstEmpty nth].
      apply falsy_false in H1. apply falsy_false in H2.
      apply falsy_false in H3. apply falsy_false in H4.
      apply falsy_false in H5. apply falsy_false in Hne.
      rewrite H1, H2, H3, H4, H5, Hne. split; [lia | reflexivity]. }
    simpl in Hq.
    repeat (destruct Hq as [<- | Hq];
            [apply G; [vm_compute; reflexivity | discriminate]|]).
    destruct Hq.
Qed.

(** ** The record [POST] computes *)

Lemma updatedState_confirmed (messages : list ChatMessage) :
  exists s,
    looped messages = Ok s /\
    updatedState messages =
    Ok (confirmed (latestContent messages) (merged (finish s) (finish s))).
Proof.
  destruct (extractBookingState_finish messages) as [s [El E]].
  exists s. split; [exact El|]. unfold updatedState. rewrite E. cbn [bind].
  apply (@updateBookingState_merged _ _ _ _ E).
Qed.

(** The fields, the urgency and the step of [updatedState] are those of the
    extraction, and it is complete exactly at step 7 after an affirmative
    latest message. *)
Lemma updatedState_facts (messages : list ChatMessage) :
  exists s u,
    looped messages = Ok s /\
    updatedState messages = Ok u /\
    fields u = fields s /\ urgency u = urgency s /\
    step u = determineCurrentStep s /\
    isComplete u =
    saysYes (toLowerCase (latestContent messages))
    && (7 <=? determineCurrentStep s).
Proof.
  destruct (updatedState_confirmed messages) as [s [El E]].
  exists s. eexists. split; [exact El|]. split; [exact E|].
  destruct (confirmed_same (latestContent messages)
              (merged (finish s) (finish s))) as (Cf & Cu & Cs).
  destruct (merged_same s) as (Mf & Mu & Ms).
  rewrite Cf, Cu, Cs, Mf, Mu, Ms, confirmed_isComplete, Ms, merged_isComplete.
  repeat split.
  change (isComplete (finish s)) with (7 <? determineCurrentStep s).
  change (step (finish s)) with (determineCurrentStep s).
  pose proof (determineCurrentStep_range s) as R.
  rewrite (proj2 (Nat.ltb_ge _ _)) by lia. apply orb_false_r.
Qed.

(** X3.  At step 7 the next user message decides nothing but completion:
    the record [POST] computes keeps the six fields, the urgency and the
    step, and is complete exactly when the message contains an affirmative
    token.  Of the two quick replies offered there, "Yes, confirm" completes
    the booking and "Make changes" changes nothing. *)
Theorem X3_last_step_only_confirms (messages : list ChatMessage)
    (r : BookingState) (q : jsstring) :
  extractBookingState messages = Ok r -> step r = 7 ->
  exists u,
    updatedState (messages ++ [ userMessage q ]) = Ok u /\
    fields u = fields r /\ urgency u = urgency r /\ step u = 7 /\
    (isComplete u = true <-> affirmative q) /\
    (In q (getQuickReplies (Some r)) ->
     (isComplete u = true <-> q = lit "Yes, confirm")).
Proof.
  intros E H7.
  destruct (extractBookingState_finish messages) as [s [El Es]].
  rewrite Es in E. inversion E; subst r. clear E Es.
  change (determineCurrentStep s = 7) in H7.
  destruct (updatedState_facts (messages ++ [ userMessage q ]))
    as (s' & u & El' & Eu & Hf & Hu & Hs & Hc).
  assert (s' = s) as ->.
  { unfold looped in El, El'. rewrite filter_app, forEach_app, El in El'.
    cbn [bind] in El'. rewrite (@forEach_filled _ _ H7) in El'.
    inversion El'. reflexivity. }
  exists u. split; [exact Eu|]. split; [exact Hf|]. split; [exact Hu|].
  split; [congruence|].
  assert (Hq : userMessage q = {| role := lit "user"; content := q |})
    by reflexivity.
  rewrite latestContent_last, H7 in Hc. cbn [content userMessage] in Hc.
  rewrite andb_true_r in Hc. rewrite Hc. split.
  - apply saysYes_affirmative.
  - unfold getQuickReplies.
    change (step (finish s)) with (determineCurrentStep s). rewrite H7.
    intros [<- | [<- | []]]; split; try reflexivity;
      vm_compute; discriminate.
Qed.

Lemma X3_witness :
  exists r u,
    extractBookingState sixMessages = Ok r /\
    updatedState (sixMessages ++ [ userMessage (lit "Make changes") ]) = Ok u /\
    fields u = fields r /\ isComplete u <> true.
Proof.
  assert (E : exists r, extractBookingState sixMessages = Ok r /\ step r = 7)
    by (eexists; split; [vm_compute; reflexivity | reflexivity]).
  destruct E as [r [E H7]].
  destruct (@X3_last_step_only_confirms sixMessages r (lit "Make changes")
              E H7) as [u (Eu & Hf & _ & _ & _ & Hq)].
  exists r, u. split; [exact E|]. split; [exact Eu|]. split; [exact Hf|].
  intros Hc. apply Hq in Hc; [discriminate|].
  unfold getQuickReplies. rewrite H7. right. left. reflexivity.
Defined.

(** ** The progress indicator *)

Lemma concat_repeat_single {A : Type} (x : A) (n : nat) :
  List.concat (repeat [ x ] n) = repeat x n.
Proof. induction n as [|n IH]; simpl; [|rewrite IH]; reflexivity. Qed.

Lemma addProgressIndicator_suffix (reply : jsstring) (st : BookingState) :
  addProgressIndicator reply st =
  option_map (fun suffix => reply ++ suffix) (progressSuffix (step st)).
Proof.
  unfold progressSuffix, addProgressIndicator.
  cbn [step set_step initialState].
  generalize (text "▓") (text "░") (text "📋 **Booking Progress:** ").
  intros filled empty title.
  destruct (repeat_ filled (Z.of_nat (step st))); [|reflexivity].
  destruct (repeat_ empty (7 - Z.of_nat (step st))); reflexivity.
Qed.

Lemma progressSuffix_bar (n : nat) :
  1 <= n <= 7 ->
  progressSuffix n =
  Some (nl ++ nl ++ text "📋 **Booking Progress:** " ++
        (repeat 9619%N n ++ repeat 9617%N (7 - n)) ++ lit " (" ++
        natToString n ++ lit "/7 - " ++ nth (n - 1) stepNames (lit "Complete")
        ++ lit ")").
Proof.
  intros Hn.
  destruct n as [|[|[|[|[|[|[|[|n]]]]]]]]; [lia| | | | | | | |lia];
    vm_compute; reflexivity.
Qed.

Lemma progressSuffix_throws (n : nat) : progressSuffix n = None <-> 7 < n.
Proof.
  unfold progressSuffix, addProgressIndicator, repeat_.
  cbn [step set_step initialState].
  destruct (Z.ltb_spec (Z.of_nat n) 0) as [H | H]; [lia|].
  destruct (Z.ltb_spec (7 - Z.of_nat n) 0) as [H' | H'].
  - split; [intros _; lia | reflexivity].
  - split; [discriminate | lia].
Qed.

(** X4.  [addProgressIndicator] throws exactly for a step above 7.  From 1
    to 7 it appends to the reply a bar of seven cells, as many filled as the
    step, with the step and its name; on the record [POST] computes it never
    throws. *)
Theorem X4_progress_indicator (reply : jsstring) :
  (forall st, addProgressIndicator reply st = None <-> 7 < step st) /\
  (forall st,
      1 <= step st <= 7 ->
      addProgressIndicator reply st =
      Some (reply ++ nl ++ nl ++ text "📋 **Booking Progress:** " ++
            (repeat 9619%N (step st) ++ repeat 9617%N (7 - step st)) ++
            lit " (" ++ natToString (step st) ++ lit "/7 - " ++
            nth (step st - 1) stepNames (lit "Complete") ++ lit ")") /\
      List.length (repeat 9619%N (step st) ++ repeat 9617%N (7 - step st))
      = 7) /\
  (forall messages,
      exists u out,
        updatedState messages = Ok u /\
        addProgressIndicator reply u = Some out).
Proof.
  split; [|split].
  - intros st. rewrite addProgressIndicator_suffix.
    rewrite <- progressSuffix_throws.
    destruct (progressSuffix (step st)); simpl; split; intros H;
      try discriminate H; reflexivity.
  - intros st Hs. split.
    + rewrite addProgressIndicator_suffix, (progressSuffix_bar Hs).
      reflexivity.
    + rewrite length_app, !repeat_length. lia.
  - intros messages.
    destruct (updatedState_facts messages) as (s & u & _ & Eu & _ & _ & Hs & _).
    pose proof (determineCurrentStep_range s) as R.
    exists u. rewrite addProgressIndicator_suffix.
    destruct (progressSuffix (step u)) as [suffix|] eqn:Ep.
    + eexists. split; [exact Eu | reflexivity].
    + apply progressSuffix_throws in Ep. lia.
Qed.

Lemma X4_witness :
  addProgressIndicator (lit "Hello") (set_step 3 initialState) =
  Some (lit "Hello" ++ nl ++ nl ++ text "📋 **Booking Progress:** " ++
        text "▓▓▓░░░░" ++ lit " (3/7 - Email)").
Proof.
  destruct (proj1 (proj2 (X4_progress_indicator (lit "Hello")))
              (set_step 3 initialState)) as [E _]; [simpl; lia|].
  rewrite E. vm_compute. reflexivity.
Defined.

Lemma includes_app_r (a b t : jsstring) :
  includes b t = true -> includes (a ++ b) t = true.
Proof.
  intros H. apply includes_spec in H. destruct H as [pre [post ->]].
  apply includes_spec. exists (a ++ pre), post. rewrite app_assoc. reflexivity.
Qed.

(** X5.  [POST] tries to send the booking e-mail exactly when the step of the
    record is 7, whatever the reply of the assistant and whether or not the
    user has confirmed: at step 7 the progress line just appended to the
    reply contains "Booking" and "Confirm", which satisfies the test on the
    reply. *)
Theorem X5_email_sent_at_step_7 (messages : list ChatMessage)
    (reply : jsstring) :
  exists u out,
    updatedState messages = Ok u /\
    addProgressIndicator reply u = Some out /\
    (sendsEmail out u messages = true <-> step u = 7).
Proof.
  destruct (updatedState_facts messages) as (s & u & _ & Eu & _ & _ & Hs & Hc).
  pose proof (determineCurrentStep_range s) as R.
  exists u. rewrite addProgressIndicator_suffix.
  destruct (progressSuffix (step u)) as [suffix|] eqn:Ep;
    [|apply progressSuffix_throws in Ep; lia].
  eexists. split; [exact Eu|]. split; [reflexivity|].
  unfold sendsEmail. rewrite Hc, Hs.
  destruct (7 <=? determineCurrentStep s) eqn:E7.
  - apply Nat.leb_le in E7. assert (H7 : determineCurrentStep s = 7) by lia.
    rewrite Hs, H7 in Ep. vm_compute in Ep. inversion Ep; subst suffix.
    split; [intros _; exact H7|]. intros _.
    rewrite toLowerCase_app.
    rewrite !(@includes_app_r (toLowerCase reply)) by (vm_compute; reflexivity).
    rewrite !andb_true_r, !orb_true_r. reflexivity.
  - apply Nat.leb_gt in E7. rewrite !andb_false_r. simpl.
    split; [discriminate | lia].
Qed.

(** ** The rate limiter *)

Lemma get_set_same (k : jsstring) (v : RateLimitSession)
    (m : list (jsstring * RateLimitSession)) :
  get k (set k v m) = Some v.
Proof.
  induction m as [|[k' v'] m IH]; simpl.
  - rewrite (proj2 (eqb_eq k k) eq_refl). reflexivity.
  - destruct (eqb k' k) eqn:E; simpl; rewrite E; [reflexivity | exact IH].
Qed.

Lemma get_set_other (k k' : jsstring) (v : RateLimitSession)
    (m : list (jsstring * RateLimitSession)) :
  k' <> k -> get k' (set k v m) = get k' m.
Proof.
  intros Hk. induction m as [|[k0 v0] m IH]; simpl.
  - apply eqb_neq in Hk.
    destruct (eqb k k') eqn:E; [|reflexivity].
    apply eqb_eq in E. subst k'. apply eqb_neq in Hk. congruence.
  - destruct (eqb k0 k) eqn:E; simpl.
    + apply eqb_eq in E. subst k0.
      destruct (eqb k k') eqn:E'; [|reflexivity].
      apply eqb_eq in E'. congruence.
    + destruct (eqb k0 k'); [reflexivity | exact IH].
Qed.

Lemma keys_set (k : jsstring) (v : RateLimitSession)
    (m : list (jsstring * RateLimitSession)) :
  keys (set k v m) =
  match get k m with
  | Some _ => keys m
  | None => keys m ++ [ k ]
  end.
Proof.
  induction m as [|[k' v'] m IH]; simpl; [reflexivity|].
  destruct (eqb k' k) eqn:E; simpl; [reflexivity|].
  fold (keys (set k v m)). fold (keys m). rewrite IH.
  destruct (get k m); reflexivity.
Qed.

Lemma get_None_keys (k : jsstring) (m : list (jsstring * RateLimitSession)) :
  get k m = None <-> ~ In k (keys m).
Proof.
  induction m as [|[k' v'] m IH]; simpl; [tauto|].
  destruct (eqb k' k) eqn:E.
  - apply eqb_eq in E. split; [discriminate | intros H; exfalso; auto].
  - apply eqb_neq in E. rewrite IH. tauto.
Qed.

Lemma set_wellKeyed (k : jsstring) (v : RateLimitSession)
    (m : list (jsstring * RateLimitSession)) :
  NoDup (keys m) -> NoDup (keys (set k v m)).
Proof.
  intros H. rewrite keys_set. destruct (get k m) eqn:E; [exact H|].
  apply get_None_keys in E.
  apply NoDup_app; [exact H | repeat constructor; intros [] |].
  intros x Hx [<- | []]. contradiction.
Qed.

(** What one call does, case by case. *)
Lemma checkRateLimit_cases (sessionId : jsstring) (w : World) :
  match get sessionId (rateLimitSessions w) with
  | None =>
      checkRateLimit sessionId w =
      ((true, 0%Z),
       {| rateLimitSessions :=
            set sessionId {| lastApiCall := now w; callCount := 1 |}
              (rateLimitSessions w);
          now := now w |})
  | Some session =>
      if (MAX_CALLS_PER_SESSION <=? callCount session)%Z
      then checkRateLimit sessionId w = ((false, 0%Z), w)
      else if (now w - lastApiCall session <? MIN_DELAY_BETWEEN_CALLS)%Z
      then
        checkRateLimit sessionId w =
        ((false,
          (MIN_DELAY_BETWEEN_CALLS - (now w - lastApiCall session))%Z), w)
      else
        checkRateLimit sessionId w =
        ((true, 0%Z),
         {| rateLimitSessions :=
              set sessionId
                {| lastApiCall := now w;
                   callCount := (callCount session + 1)%Z |}
                (rateLimitSessions w);
            now := now w |})
  end.
Proof.
  unfold checkRateLimit.
  destruct (get sessionId (rateLimitSessions w)) as [session|];
    [|reflexivity].
  destruct (MAX_CALLS_PER_SESSION <=? callCount session)%Z; [reflexivity|].
  destruct (now w - lastApiCall session <? MIN_DELAY_BETWEEN_CALLS)%Z;
    reflexivity.
Qed.

(** A call leaves the clock and the sessions of the other ids alone, and a
    call that may not proceed leaves everything alone. *)
Lemma checkRateLimit_frame (sessionId : jsstring) (w : World) :
  now (snd (checkRateLimit sessionId w)) = now w /\
  (forall k, k <> sessionId ->
             get k (rateLimitSessions (snd (checkRateLimit sessionId w))) =
             get k (rateLimitSessions w)) /\
  (fst (fst (checkRateLimit sessionId w)) = false ->
   snd (checkRateLimit sessionId w) = w).
Proof.
  pose proof (checkRateLimit_cases sessionId w) as C.
  destruct (get sessionId (rateLimitSessions w)) as [session|].
  - destruct (MAX_CALLS_PER_SESSION <=? callCount session)%Z;
      [rewrite C; simpl; auto|].
    destruct (now w - lastApiCall session <? MIN_DELAY_BETWEEN_CALLS)%Z;
      rewrite C; simpl; [auto|].
    split; [reflexivity|]. split; [|discriminate].
    intros k Hk. apply get_set_other. exact Hk.
  - rewrite C. simpl. split; [reflexivity|]. split; [|discriminate].
    intros k Hk. apply get_set_other. exact Hk.
Qed.

Lemma callsLeft_nonneg (sessionId : jsstring) (w : World) :
  (0 <= callsLeft sessionId w)%Z.
Proof.
  unfold callsLeft, MAX_CALLS_PER_SESSION.
  destruct (get sessionId (rateLimitSessions w)); lia.
Qed.

Lemma checkRateLimit_callsLeft (sessionId k : jsstring) (w : World) :
  (callsLeft k (snd (checkRateLimit sessionId w))
   + (if eqb sessionId k && fst (fst (checkRateLimit sessionId w))
      then 1 else 0)
   <= callsLeft k w)%Z.
Proof.
  destruct (eqb sessionId k) eqn:Ek.
  - apply eqb_eq in Ek. subst k.
    pose proof (checkRateLimit_cases sessionId w) as C.
    unfold callsLeft at 2.
    destruct (get sessionId (rateLimitSessions w)) as [session|] eqn:G.
    + destruct (Z.leb_spec MAX_CALLS_PER_SESSION (callCount session)) as [H|H].
      * rewrite C. cbn [fst snd andb]. unfold callsLeft. rewrite G. lia.
      * destruct (now w - lastApiCall session <? MIN_DELAY_BETWEEN_CALLS)%Z;
          rewrite C; cbn [fst snd andb]; unfold callsLeft;
          cbn [rateLimitSessions].
        -- rewrite G. lia.
        -- rewrite get_set_same. cbn [callCount].
           unfold MAX_CALLS_PER_SESSION in *. lia.
    + rewrite C. cbn [fst snd andb]. unfold callsLeft.
      cbn [rateLimitSessions]. rewrite get_set_same. cbn [callCount].
      unfold MAX_CALLS_PER_SESSION. lia.
  - cbn [andb]. unfold callsLeft.
    destruct (checkRateLimit_frame sessionId w) as (_ & F & _).
    rewrite F; [lia|]. apply eqb_neq in Ek. congruence.
Qed.

(** X6.  Without a cleanup in between, the calls of a session that are let
    through never exceed what its count leaves of the ten, whatever the other
    sessions do and however the clock moves; a session that starts new is let
    through at most ten times. *)
Theorem X6_at_most_ten_calls (es : list event) (sessionId : jsstring)
    (w : World) :
  forallb (fun e => negb (isCleanup e)) es = true ->
  (Z.of_nat (grants sessionId (fst (run es w))) <= callsLeft sessionId w)%Z /\
  (get sessionId (rateLimitSessions w) = None ->
   grants sessionId (fst (run es w)) <= 10).
Proof.
  intros Hes.
  assert (G : (Z.of_nat (grants sessionId (fst (run es w)))
               <= callsLeft sessionId w)%Z).
  { revert w. induction es as [|e es IH]; intros w.
    - simpl. apply callsLeft_nonneg.
    - simpl in Hes. apply andb_true_iff in Hes. destruct Hes as [He Hes].
      specialize (IH Hes). destruct e as [k | t |]; simpl.
      + pose proof (checkRateLimit_callsLeft k sessionId w) as L.
        destruct (checkRateLimit k w) as [answer w'] eqn:Ec.
        cbn [fst snd] in L.
        specialize (IH w'). destruct (run es w') as [log w''].
        cbn [fst snd] in *. unfold grants in *. cbn [filter fst snd].
        destruct (eqb k sessionId && fst answer); cbn [List.length]; lia.
      + apply (IH {| rateLimitSessions := rateLimitSessions w; now := t |}).
      + discriminate. }
  split; [exact G|].
  intros Hnew. unfold callsLeft in G. rewrite Hnew in G.
  unfold MAX_CALLS_PER_SESSION in G. lia.
Qed.

Lemma X6_witness :
  grants (lit "abc")
    (fst (run [ Call (lit "abc"); Tick 5000; Call (lit "abc");
                Call (lit "xyz"); Tick 9000; Call (lit "abc") ]
            {| rateLimitSessions := []; now := 1000 |})) <= 10.
Proof.
  apply (X6_at_most_ten_calls
           [ Call (lit "abc"); Tick 5000; Call (lit "abc");
             Call (lit "xyz"); Tick 9000; Call (lit "abc") ]
           (lit "abc") {| rateLimitSessions := []; now := 1000 |});
    reflexivity.
Defined.

(** ** The cleanup *)

Lemma delete_absent (k : jsstring) (m : list (jsstring * RateLimitSession)) :
  ~ In k (keys m) -> delete k m = m.
Proof.
  induction m as [|[k' v'] m IH]; simpl; intros H; [reflexivity|].
  destruct (eqb k' k) eqn:E.
  - apply eqb_eq in E. exfalso. auto.
  - rewrite IH by tauto. reflexivity.
Qed.

Lemma delete_app_head (k : jsstring) (v : RateLimitSession)
    (l1 l2 : list (jsstring * RateLimitSession)) :
  ~ In k (keys l1) -> delete k (l1 ++ (k, v) :: l2) = l1 ++ l2.
Proof.
  induction l1 as [|[k' v'] l1 IH]; simpl; intros H.
  - rewrite (proj2 (eqb_eq k k) eq_refl). reflexivity.
  - destruct (eqb k' k) eqn:E.
    + apply eqb_eq in E. exfalso. auto.
    + rewrite IH by tauto. reflexivity.
Qed.

Lemma keys_filter_incl (p : jsstring * RateLimitSession -> bool)
    (m : list (jsstring * RateLimitSession)) (k : jsstring) :
  In k (keys (filter p m)) -> In k (keys m).
Proof.
  unfold keys. rewrite !in_map_iff. intros [e [He Hin]].
  apply filter_In in Hin. exists e. tauto.
Qed.

Lemma filter_wellKeyed (p : jsstring * RateLimitSession -> bool)
    (m : list (jsstring * RateLimitSession)) :
  NoDup (keys m) -> NoDup (keys (filter p m)).
Proof.
  induction m as [|[k v] m IH]; simpl; intros H; [constructor|].
  inversion H as [|? ? Hk Hm]; subst.
  destruct (p (k, v)); simpl; [|auto].
  constructor; [|auto]. intros Hin. apply Hk.
  apply (keys_filter_incl _ _ _ Hin).
Qed.

(** On a map with one entry for a key, the loop of deletions is a filter. *)
Lemma cleanup_fold (now_ : Z) (l2 l1 : list (jsstring * RateLimitSession)) :
  NoDup (keys (l1 ++ l2)) ->
  fold_left
    (fun m entry =>
       if (SESSION_CLEANUP_INTERVAL <? now_ - lastApiCall (snd entry))%Z
       then delete (fst entry) m
       else m)
    l2 (filter (fun e => negb (tooOld now_ (snd e))) l1 ++ l2) =
  filter (fun e => negb (tooOld now_ (snd e))) (l1 ++ l2).
Proof.
  revert l1. induction l2 as [|[k v] l2 IH]; intros l1 H.
  - simpl. rewrite !app_nil_r. reflexivity.
  - cbn [fold_left fst snd].
    assert (Hk : ~ In k (keys l1)).
    { unfold keys in H. rewrite map_app in H. simpl in H.
      apply NoDup_remove_2 in H. intros Hin. apply H.
      apply in_or_app. left. exact Hin. }
    replace (l1 ++ (k, v) :: l2) with ((l1 ++ [ (k, v) ]) ++ l2) in H |- *
      by (rewrite <- app_assoc; reflexivity).
    rewrite <- (IH (l1 ++ [ (k, v) ]) H). f_equal.
    rewrite filter_app. cbn [filter snd]. rewrite <- app_assoc.
    unfold tooOld.
    destruct (SESSION_CLEANUP_INTERVAL <? now_ - lastApiCall v)%Z eqn:E;
      cbn [negb app]; [|reflexivity].
    apply delete_app_head.
    intros Hin. apply Hk. apply (keys_filter_incl _ _ _ Hin).
Qed.

Lemma cleanupSessions_filter (w : World) :
  wellKeyed w ->
  snd (cleanupSessions w) =
  {| rateLimitSessions :=
       filter (fun e => negb (tooOld (now w) (snd e))) (rateLimitSessions w);
     now := now w |}.
Proof.
  intros H. unfold cleanupSessions. cbn [snd]. f_equal.
  apply (@cleanup_fold (now w) (rateLimitSessions w) [] H).
Qed.

Lemma get_filter (p : RateLimitSession -> bool) (k : jsstring)
    (m : list (jsstring * RateLimitSession)) :
  NoDup (keys m) ->
  get k (filter (fun e => p (snd e)) m) =
  match get k m with
  | Some session => if p session then Some session else None
  | None => None
  end.
Proof.
  induction m as [|[k' v] m IH]; simpl; intros H; [reflexivity|].
  inversion H as [|? ? Hk Hm]; subst.
  destruct (eqb k' k) eqn:E.
  - apply eqb_eq in E. subst k'. destruct (p v); simpl.
    + rewrite (proj2 (eqb_eq k k) eq_refl). reflexivity.
    + apply get_None_keys. intros Hin. apply Hk.
      apply (keys_filter_incl _ _ _ Hin).
  - destruct (p v); simpl; [rewrite E|]; apply IH; exact Hm.
Qed.

Lemma cleanupSessions_get (w : World) (sessionId : jsstring) :
  wellKeyed w ->
  get sessionId (rateLimitSessions (snd (cleanupSessions w))) =
  match get sessionId (rateLimitSessions w) with
  | Some session =>
      if tooOld (now w) session then None else Some session
  | None => None
  end /\
  wellKeyed (snd (cleanupSessions w)) /\
  now (snd (cleanupSessions w)) = now w.
Proof.
  intros H. rewrite (@cleanupSessions_filter _ H).
  cbn [rateLimitSessions now].
  split; [|split; [apply filter_wellKeyed; exact H | reflexivity]].
  rewrite (@get_filter (fun s => negb (tooOld (now w) s)) sessionId _ H).
  destruct (get sessionId (rateLimitSessions w)) as [session|]; [|reflexivity].
  destruct (tooOld (now w) session); reflexivity.
Qed.

(** X7.  The cleanup keeps exactly the sessions last let through within the
    five minutes before it runs, each as it was; it drops the others and
    leaves the clock alone. *)
Theorem X7_cleanup_keeps_recent_sessions (w : World) (sessionId : jsstring) :
  wellKeyed w ->
  get sessionId (rateLimitSessions (snd (cleanupSessions w))) =
  match get sessionId (rateLimitSessions w) with
  | Some session =>
      if (now w - lastApiCall session <=? SESSION_CLEANUP_INTERVAL)%Z
      then Some session
      else None
  | None => None
  end /\
  wellKeyed (snd (cleanupSessions w)) /\
  now (snd (cleanupSessions w)) = now w.
Proof.
  intros H. rewrite (@cleanupSessions_filter _ H). cbn [rateLimitSessions now].
  split; [|split; [apply filter_wellKeyed; exact H | reflexivity]].
  rewrite (@get_filter (fun s => negb (tooOld (now w) s)) sessionId _ H).
  destruct (get sessionId (rateLimitSessions w)) as [session|]; [|reflexivity].
  unfold tooOld.
  destruct (Z.ltb_spec SESSION_CLEANUP_INTERVAL (now w - lastApiCall session));
    destruct (Z.leb_spec (now w - lastApiCall session)
                SESSION_CLEANUP_INTERVAL); simpl; try reflexivity; lia.
Qed.

Lemma X7_witness :
  get (lit "old")
    (rateLimitSessions
       (snd (cleanupSessions
               {| rateLimitSessions :=
                    [ (lit "old", {| lastApiCall := 1000; callCount := 10 |});
                      (lit "new", {| lastApiCall := 400000; callCount := 2 |}) ];
                  now := 500000 |}))) = None.
Proof.
  destruct (@X7_cleanup_keeps_recent_sessions
              {| rateLimitSessions :=
                   [ (lit "old", {| lastApiCall := 1000; callCount := 10 |});
                     (lit "new", {| lastApiCall := 400000; callCount := 2 |}) ];
                 now := 500000 |} (lit "old")) as [E _].
  - repeat constructor; simpl; intuition discriminate.
  - rewrite E. reflexivity.
Defined.

(** X8.  The limit of ten calls is not for good: a session idle for more
    than five minutes, even one that has used its ten calls, is forgotten by
    the cleanup, and its next call is let through as the first of a new
    session. *)
Theorem X8_cleanup_resets_the_limit (w : World) (sessionId : jsstring)
    (session : RateLimitSession) :
  wellKeyed w ->
  get sessionId (rateLimitSessions w) = Some session ->
  (SESSION_CLEANUP_INTERVAL < now w - lastApiCall session)%Z ->
  let w' := snd (cleanupSessions w) in
  fst (checkRateLimit sessionId w') = (true, 0%Z) /\
  get sessionId (rateLimitSessions (snd (checkRateLimit sessionId w'))) =
  Some {| lastApiCall := now w; callCount := 1 |}.
Proof.
  intros H G Hold w'.
  assert (G' : get sessionId (rateLimitSessions w') = None).
  { unfold w'. rewrite (@cleanupSessions_filter _ H). cbn [rateLimitSessions].
    rewrite (@get_filter (fun s => negb (tooOld (now w) s)) sessionId _ H), G.
    unfold tooOld.
    rewrite (proj2 (Z.ltb_lt _ _) Hold). reflexivity. }
  pose proof (checkRateLimit_cases sessionId w') as C. rewrite G' in C.
  rewrite C. cbn [fst snd rateLimitSessions]. split; [reflexivity|].
  rewrite get_set_same. unfold w'. rewrite (@cleanupSessions_filter _ H).
  reflexivity.
Qed.

Lemma X8_witness :
  let w :=
    {| rateLimitSessions :=
         [ (lit "old", {| lastApiCall := 1000; callCount := 10 |}) ];
       now := 500000 |} in
  fst (checkRateLimit (lit "old") w) = (false, 0%Z) /\
  fst (checkRateLimit (lit "old") (snd (cleanupSessions w))) = (true, 0%Z).
Proof.
  split; [reflexivity|].
  apply (@X8_cleanup_resets_the_limit
           {| rateLimitSessions :=
                [ (lit "old", {| lastApiCall := 1000; callCount := 10 |}) ];
              now := 500000 |}
           (lit "old") {| lastApiCall := 1000; callCount := 10 |}).
  - repeat constructor; simpl; intuition discriminate.
  - reflexivity.
  - simpl. unfold SESSION_CLEANUP_INTERVAL. lia.
Defined.

(** ** Runs of the limiter *)

Lemma run_cons (e : event) (es : list event) (w : World) :
  snd (run (e :: es) w) = snd (run es (snd (run [ e ] w))).
Proof.
  destruct e as [k | t |]; simpl; [|reflexivity|reflexivity].
  destruct (checkRateLimit k w) as [answer w']. simpl.
  destruct (run es w') as [log w'']. reflexivity.
Qed.

Lemma run_invariant (P : World -> Prop) (ok : event -> bool) :
  (forall e w, ok e = true -> P w -> P (snd (run [ e ] w))) ->
  forall es w, forallb ok es = true -> P w -> P (snd (run es w)).
Proof.
  intros Hstep es. induction es as [|e es IH]; intros w Hes Hw.
  - exact Hw.
  - simpl in Hes. apply andb_true_iff in Hes. destruct Hes as [He Hes].
    rewrite run_cons. apply IH; [exact Hes|]. apply Hstep; assumption.
Qed.

Lemma run_Call (k : jsstring) (w : World) :
  snd (run [ Call k ] w) = snd (checkRateLimit k w).
Proof. simpl. destruct (checkRateLimit k w) as [answer w']. reflexivity. Qed.

Lemma checkRateLimit_wellKeyed (k : jsstring) (w : World) :
  wellKeyed w -> wellKeyed (snd (checkRateLimit k w)).
Proof.
  intros H. pose proof (checkRateLimit_cases k w) as C. unfold wellKeyed.
  destruct (get k (rateLimitSessions w)) as [session|].
  - destruct (MAX_CALLS_PER_SESSION <=? callCount session)%Z;
      [rewrite C; exact H|].
    destruct (now w - lastApiCall session <? MIN_DELAY_BETWEEN_CALLS)%Z;
      rewrite C; [exact H|].
    apply set_wellKeyed. exact H.
  - rewrite C. apply set_wellKeyed. exact H.
Qed.

(** X9.  After a call of a session is let through, no call of that session
    is let through while the clock reads less than two seconds more, whatever
    the other sessions and the cleanup do in between; the refused call
    changes nothing. *)
Theorem X9_two_seconds_between_calls (w : World) (sessionId : jsstring)
    (es : list event) :
  wellKeyed w ->
  fst (fst (checkRateLimit sessionId w)) = true ->
  forallb (fun e => negb (calls sessionId e) && recent (now w) e) es = true ->
  let w1 := snd (run es (snd (checkRateLimit sessionId w))) in
  (now w1 - now w < MIN_DELAY_BETWEEN_CALLS)%Z ->
  fst (fst (checkRateLimit sessionId w1)) = false /\
  snd (checkRateLimit sessionId w1) = w1.
Proof.
  intros Hw Hg Hes w1 Hnow.
  set (P := fun w' : World =>
              wellKeyed w' /\
              (exists session,
                  get sessionId (rateLimitSessions w') = Some session /\
                  lastApiCall session = now w) /\
              (now w' - now w <= SESSION_CLEANUP_INTERVAL)%Z).
  assert (P0 : P (snd (checkRateLimit sessionId w))).
  { split; [apply checkRateLimit_wellKeyed; exact Hw|].
    pose proof (checkRateLimit_cases sessionId w) as C.
    destruct (get sessionId (rateLimitSessions w)) as [session|].
    - destruct (MAX_CALLS_PER_SESSION <=? callCount session)%Z;
        [rewrite C in Hg; discriminate|].
      destruct (now w - lastApiCall session <? MIN_DELAY_BETWEEN_CALLS)%Z;
        [rewrite C in Hg; discriminate|].
      rewrite C. cbn [snd rateLimitSessions now]. rewrite get_set_same.
      split; [eauto|]. unfold SESSION_CLEANUP_INTERVAL. lia.
    - rewrite C. cbn [snd rateLimitSessions now]. rewrite get_set_same.
      split; [eauto|]. unfold SESSION_CLEANUP_INTERVAL. lia. }
  assert (P1 : P w1).
  { unfold w1. revert P0.
    apply (run_invariant P
             (fun e => negb (calls sessionId e) && recent (now w) e));
      [|exact Hes].
    intros e w' He (Hk & (session & Hs & Hl) & Ht).
    apply andb_true_iff in He. destruct He as [Hc Hr].
    destruct e as [k | t |].
    - rewrite run_Call. simpl in Hc. apply negb_true_iff, eqb_neq in Hc.
      destruct (checkRateLimit_frame k w') as (Fn & Fg & _).
      split; [apply checkRateLimit_wellKeyed; exact Hk|].
      split; [|rewrite Fn; exact Ht].
      exists session. rewrite Fg by congruence. auto.
    - simpl. simpl in Hr. apply Z.leb_le in Hr.
      split; [exact Hk|]. split; [eauto | exact Hr].
    - change (snd (run [ Cleanup ] w')) with (snd (cleanupSessions w')).
      destruct (@cleanupSessions_get w' sessionId Hk) as (Eg & Ek & En).
      split; [exact Ek|]. split; [|rewrite En; exact Ht].
      exists session. rewrite Eg, Hs. unfold tooOld. rewrite Hl.
      rewrite (proj2 (Z.ltb_ge _ _) Ht). auto. }
  destruct P1 as (_ & (session & Hs & Hl) & _).
  pose proof (checkRateLimit_cases sessionId w1) as C. rewrite Hs in C.
  destruct (MAX_CALLS_PER_SESSION <=? callCount session)%Z;
    [rewrite C; auto|].
  rewrite Hl in C. rewrite (proj2 (Z.ltb_lt _ _) Hnow) in C.
  rewrite C. auto.
Qed.

Lemma X9_witness :
  let w := {| rateLimitSessions := []; now := 1000 |} in
  let w1 :=
    snd (run [ Call (lit "xyz"); Tick 2500; Cleanup ]
           (snd (checkRateLimit (lit "abc") w))) in
  fst (fst (checkRateLimit (lit "abc") w1)) = false /\
  snd (checkRateLimit (lit "abc") w1) = w1.
Proof.
  apply (@X9_two_seconds_between_calls
           {| rateLimitSessions := []; now := 1000 |} (lit "abc")
           [ Call (lit "xyz"); Tick 2500; Cleanup ]).
  - constructor.
  - reflexivity.
  - reflexivity.
  - vm_compute. reflexivity.
Defined.

(** X10.  Whatever calls, clock readings and cleanups follow, the limiter
    keeps one entry for a session id, and the count of every session it
    holds stays from 1 to 10. *)
Theorem X10_counts_stay_within_limit (es : list event) (w : World) :
  wellCounted w -> wellCounted (snd (run es w)).
Proof.
  apply (run_invariant wellCounted (fun _ => true));
    [|clear; induction es; simpl; auto].
  clear. intros e w _ [Hk Hc]. destruct e as [k | t |].
  - rewrite run_Call. split; [apply checkRateLimit_wellKeyed; exact Hk|].
    intros k' session'.
    pose proof (checkRateLimit_cases k w) as C.
    destruct (get k (rateLimitSessions w)) as [session|] eqn:G.
    + destruct (Z.leb_spec MAX_CALLS_PER_SESSION (callCount session));
        [rewrite C; apply Hc|].
      destruct (now w - lastApiCall session <? MIN_DELAY_BETWEEN_CALLS)%Z;
        rewrite C; [apply Hc|].
      cbn [snd rateLimitSessions].
      destruct (eqb k' k) eqn:E.
      * apply eqb_eq in E. subst k'. rewrite get_set_same.
        intros H'. inversion H'; subst session'. cbn [callCount].
        specialize (Hc k session G). lia.
      * apply eqb_neq in E. rewrite (get_set_other _ _ E). apply Hc.
    + rewrite C. cbn [snd rateLimitSessions].
      destruct (eqb k' k) eqn:E.
      * apply eqb_eq in E. subst k'. rewrite get_set_same.
        intros H'. inversion H'; subst session'. cbn [callCount].
        unfold MAX_CALLS_PER_SESSION. lia.
      * apply eqb_neq in E. rewrite (get_set_other _ _ E). apply Hc.
  - split; [exact Hk | exact Hc].
  - change (snd (run [ Cleanup ] w)) with (snd (cleanupSessions w)).
    split; [apply (@cleanupSessions_get w [] Hk)|].
    intros k' session'.
    destruct (@cleanupSessions_get w k' Hk) as (Eg & _ & _). rewrite Eg.
    destruct (get k' (rateLimitSessions w)) as [session|] eqn:G;
      [|discriminate].
    destruct (tooOld (now w) session); [discriminate|].
    intros H'. inversion H'; subst session'. apply (Hc k' session G).
Qed.

Lemma X10_witness :
  wellCounted
    (snd (run [ Call (lit "abc"); Tick 5000; Call (lit "abc"); Cleanup ]
            {| rateLimitSessions := []; now := 1000 |})).
Proof.
  apply X10_counts_stay_within_limit.
  split; [constructor|]. intros k session H. discriminate H.
Defined.

Lemma X2_witness :
  exists r r',
    extractBookingState
      [ user "John Smith"; user "555-123-4567"; user "john@example.com" ]
    = Ok r /\
    extractBookingState
      ([ user "John Smith"; user "555-123-4567"; user "john@example.com" ]
       ++ [ userMessage (lit "Whitening") ]) = Ok r' /\
    step r < step r' /\
    serviceType r' = lit "whitening".
Proof.
  assert (E : exists r,
             extractBookingState
               [ user "John Smith"; user "555-123-4567";
                 user "john@example.com" ] = Ok r /\ step r = 4)
    by (eexists; split; [vm_compute; reflexivity | reflexivity]).
  destruct E as [r [E H4]].
  destruct (@X2_quick_reply_fills_its_field
              [ user "John Smith"; user "555-123-4567";
                user "john@example.com" ] r (lit "Whitening") E)
    as [r' (E' & Hs & Hf)].
  - unfold getQuickReplies. rewrite H4. simpl. auto.
  - rewrite H4. discriminate.
  - exists r, r'. split; [exact E|]. split; [exact E'|]. split; [exact Hs|].
    rewrite H4 in Hf. exact Hf.
Defined.

(** ** The session id *)

Lemma string_of_uint_digits (d : Decimal.uint) :
  Forall (fun c => in_ranges d09 c = true)
    (lit (NilEmpty.string_of_uint d)).
Proof.
  induction d; simpl; constructor; auto.
Qed.

Lemma intToString_digits (z : Z) :
  (0 <= z)%Z -> Forall (fun c => in_ranges d09 c = true) (intToString z).
Proof.
  intros Hz. unfold intToString. destruct z as [|p|p]; [| |lia].
  - repeat constructor.
  - cbn [Z.to_int NilZero.string_of_int]. unfold NilZero.string_of_uint.
    destruct (Pos.to_uint p) eqn:E;
      try (rewrite <- E; apply string_of_uint_digits).
    repeat constructor.
Qed.

Lemma filter_all {A : Type} (p : A -> bool) (l : list A) :
  Forall (fun a => p a = true) l -> filter p l = l.
Proof.
  induction 1 as [|a l Ha _ IH]; simpl; [reflexivity|].
  rewrite Ha, IH. reflexivity.
Qed.

Lemma filter_Forall {A : Type} (p : A -> bool) (l : list A) :
  Forall (fun a => p a = true) (filter p l).
Proof.
  apply Forall_forall. intros a Ha. apply filter_In in Ha. tauto.
Qed.

Lemma digit_isAlphanumeric (c : N) :
  in_ranges d09 c = true -> isAlphanumeric c = true.
Proof.
  unfold isAlphanumeric, in_ranges. simpl. intros H.
  rewrite orb_false_r in H. rewrite H. rewrite !orb_true_r. reflexivity.
Qed.

(** X11.  For a list with a first message and a clock that is not negative,
    [getSessionId] is the letters and digits among the first ten code units
    of that message followed by the last six digits of the clock: it has at
    most 16 code units, all letters or digits, and the same conversation gets
    the same id at two times exactly when the last six digits of the two
    clock readings agree. *)
Theorem X11_session_id_follows_the_clock (random : jsstring)
    (first : ChatMessage) (others : list ChatMessage) (w w' : World) :
  (0 <= now w)%Z -> (0 <= now w')%Z ->
  let id := fst (getSessionId random (first :: others) w) in
  let id' := fst (getSessionId random (first :: others) w') in
  id = filter isAlphanumeric (firstn 10 (content first)) ++ lastSix w /\
  Forall (fun c => isAlphanumeric c = true) id /\
  List.length id <= 16 /\
  (id = id' <-> lastSix w = lastSix w').
Proof.
  assert (G : forall v,
             (0 <= now v)%Z ->
             fst (getSessionId random (first :: others) v) =
             filter isAlphanumeric (firstn 10 (content first)) ++ lastSix v /\
             List.length
               (filter isAlphanumeric (firstn 10 (content first)) ++ lastSix v)
             <= 16).
  { intros v Hv. unfold getSessionId. cbn [fst].
    fold (lastSix v). rewrite filter_app.
    assert (Hd : Forall (fun c => isAlphanumeric c = true) (lastSix v)).
    { apply Forall_forall. intros c Hc. apply digit_isAlphanumeric.
      pose proof (intToString_digits Hv) as D.
      rewrite Forall_forall in D. apply D.
      unfold lastSix in Hc.
      rewrite <- (firstn_skipn (List.length (intToString (now v)) - 6)).
      apply in_or_app. right. exact Hc. }
    rewrite (filter_all _ Hd).
    assert (Hl : List.length
                   (filter isAlphanumeric (firstn 10 (content first))
                    ++ lastSix v) <= 16).
    { rewrite length_app.
      pose proof (filter_length_le isAlphanumeric (firstn 10 (content first))).
      pose proof (firstn_le_length 10 (content first)).
      unfold lastSix. rewrite length_skipn. lia. }
    split; [|exact Hl]. apply firstn_all2. exact Hl. }
  intros Hw Hw' id id'. unfold id, id'.
  destruct (G w Hw) as [E L]. destruct (G w' Hw') as [E' _].
  rewrite E, E'. split; [reflexivity|]. split; [|split; [exact L|]].
  - apply Forall_app. split; [apply filter_Forall|].
    apply Forall_forall. intros c Hc. apply digit_isAlphanumeric.
    pose proof (intToString_digits Hw) as D. rewrite Forall_forall in D.
    apply D. unfold lastSix in Hc.
    rewrite <- (firstn_skipn (List.length (intToString (now w)) - 6)).
    apply in_or_app. right. exact Hc.
  - split; [apply app_inv_head | intros ->; reflexivity].
Qed.

Lemma X11_witness :
  fst (getSessionId [] [ user "Hi, I'm Bob Ray" ]
         {| rateLimitSessions := []; now := 1762070400123 |})
  = lit "HiImBo400123".
Proof.
  destruct (@X11_session_id_follows_the_clock [] (user "Hi, I'm Bob Ray") []
              {| rateLimitSessions := []; now := 1762070400123 |}
              {| rateLimitSessions := []; now := 1762070400123 |})
    as [E _]; [simpl; lia | simpl; lia |].
  rewrite E. vm_compute. reflexivity.
Defined.

(** ** The matcher returns what the pattern derives *)

Section RepeatSound.

Variables (ic : bool) (a : regex) (m : mstate -> list mstate)
          (clr : mstate -> mstate).
Hypothesis m_sound :
  forall s s',
    In s' (m s) ->
    exists u,
      rest s = u ++ rest s' /\ endIndex s' = endIndex s + List.length u /\
      derives ic a (endIndex s) u (rest s').
Hypothesis clr_rest : forall s, rest (clr s) = rest s.
Hypothesis clr_endIndex : forall s, endIndex (clr s) = endIndex s.

Lemma repeatL_sound (fuel : nat) :
  forall mn mx s s',
    In s' (RegExp.repeatL m clr fuel mn mx s) ->
    exists u,
      rest s = u ++ rest s' /\ endIndex s' = endIndex s + List.length u /\
      derives ic (Rep mn mx a) (endIndex s) u (rest s').
Proof.
  induction fuel as [|fuel IH]; intros mn mx s s'; [intros []|].
  unfold RegExp.repeatL; fold RegExp.repeatL.
  destruct (is_zero mx) eqn:Ez.
  - intros [<- | []]. exists []. split; [reflexivity|]. split; [simpl; lia|].
    apply d_RepStop. right. destruct mx as [[|k]|]; try discriminate.
    reflexivity.
  - rewrite in_app_iff, in_flat_map. intros [[s1 [H1 H2]] | H].
    + apply m_sound in H1. destruct H1 as (u & Hu & Iu & Du).
      rewrite clr_rest in Hu. rewrite clr_endIndex in Iu, Du.
      destruct (Nat.eqb mn 0 && Nat.eqb (endIndex s1) (endIndex s));
        [destruct H2|].
      apply IH in H2. destruct H2 as (v & Hv & Iv & Dv).
      exists (u ++ v). split; [rewrite Hu, Hv, app_assoc; reflexivity|].
      split; [rewrite length_app; lia|].
      apply d_RepStep.
      * intros ->. discriminate.
      * rewrite <- Hv. exact Du.
      * rewrite <- Iu. exact Dv.
    + destruct (Nat.eqb mn 0) eqn:E0; [|destruct H].
      destruct H as [<- | []]. apply Nat.eqb_eq in E0.
      exists []. split; [reflexivity|]. split; [simpl; lia|].
      apply d_RepStop. left. exact E0.
Qed.

End RepeatSound.

Lemma step_char_sound (p : N -> bool) (s s' : mstate) :
  In s' (step_char p s) ->
  exists x,
    p x = true /\ rest s = [ x ] ++ rest s' /\
    endIndex s' = endIndex s + 1.
Proof.
  unfold step_char. destruct (rest s) as [|c tl] eqn:E; [intros []|].
  destruct (p c) eqn:Ep; [|intros []]. intros [<- | []].
  exists c. simpl. split; [exact Ep|]. split; [reflexivity | lia].
Qed.

Lemma matchL_sound (ic : bool) (r : regex) :
  forall s s',
    In s' (matchL ic r s) ->
    exists u,
      rest s = u ++ rest s' /\ endIndex s' = endIndex s + List.length u /\
      derives ic r (endIndex s) u (rest s').
Proof.
  induction r as [| c | rs | | | | a IHa b IHb | a IHa b IHb | mn mx a IHa
                 | k a IHa]; intros s s'; simpl.
  - intros [<- | []]. exists []. split; [reflexivity|].
    split; [simpl; lia | constructor].
  - intros H. apply step_char_sound in H. destruct H as (x & Hx & Hr & Hi).
    exists [ x ]. split; [exact Hr|]. split; [exact Hi|].
    constructor. exact Hx.
  - intros H. apply step_char_sound in H. destruct H as (x & Hx & Hr & Hi).
    exists [ x ]. split; [exact Hr|]. split; [exact Hi|].
    constructor. exact Hx.
  - intros H. apply step_char_sound in H. destruct H as (x & Hx & Hr & Hi).
    exists [ x ]. split; [exact Hr|]. split; [exact Hi|].
    constructor. apply negb_true_iff. exact Hx.
  - destruct (Nat.eqb (endIndex s) 0) eqn:E; [|intros []].
    intros [<- | []]. apply Nat.eqb_eq in E. exists [].
    split; [reflexivity|]. split; [simpl; lia|]. rewrite E. constructor.
  - destruct (rest s) eqn:E; [|intros []]. intros [<- | []]. exists [].
    rewrite E. split; [reflexivity|]. split; [simpl; lia|]. constructor.
  - rewrite in_flat_map. intros [s1 [H1 H2]].
    apply IHa in H1. destruct H1 as (u & Hu & Iu & Du).
    apply IHb in H2. destruct H2 as (v & Hv & Iv & Dv).
    exists (u ++ v). split; [rewrite Hu, Hv, app_assoc; reflexivity|].
    split; [rewrite length_app; lia|].
    constructor; [rewrite <- Hv; exact Du | rewrite <- Iu; exact Dv].
  - rewrite in_app_iff. intros [H | H].
    + apply IHa in H. destruct H as (u & Hu & Iu & Du).
      exists u. split; [exact Hu|]. split; [exact Iu|].
      apply d_AltL. exact Du.
    + apply IHb in H. destruct H as (u & Hu & Iu & Du).
      exists u. split; [exact Hu|]. split; [exact Iu|].
      apply d_AltR. exact Du.
  - apply repeatL_sound; auto.
  - rewrite in_map_iff. intros [s1 [<- H1]]. apply IHa in H1.
    destruct H1 as (u & Hu & Iu & Du). exists u. simpl.
    split; [exact Hu|]. split; [exact Iu|]. constructor. exact Du.
Qed.

Lemma derives_length (ic : bool) (r : regex) (i : nat) (u tl : jsstring) :
  derives ic r i u tl ->
  minLen r <= List.length u /\
  (forall m, maxLen r = Some m -> List.length u <= m).
Proof.
  induction 1 as [ i tl | c x i tl Hx | rs x i tl Hx | x i tl Hx | tl | i
                 | a b i u v tl Da [IHa1 IHa2] Db [IHb1 IHb2]
                 | a b i u tl Da [IHa1 IHa2] | a b i u tl Db [IHb1 IHb2]
                 | mn mx a i tl Hstop
                 | mn mx a i u v tl Hmx Da [IHa1 IHa2] Dr [IHr1 IHr2]
                 | k a i u tl Da IHa ];
    cbn [minLen maxLen List.length]; try rewrite length_app.
  - split; [lia | intros m H; inversion H; lia].
  - split; [lia | intros m H; inversion H; lia].
  - split; [lia | intros m H; inversion H; lia].
  - split; [lia | intros m H; inversion H; lia].
  - split; [lia | intros m H; inversion H; lia].
  - split; [lia | intros m H; inversion H; lia].
  - split; [lia|]. intros m.
    destruct (maxLen a) as [x|]; [|discriminate].
    destruct (maxLen b) as [y|]; [|discriminate].
    intros H; inversion H. specialize (IHa2 x eq_refl).
    specialize (IHb2 y eq_refl). lia.
  - split; [lia|]. intros m.
    destruct (maxLen a) as [x|]; [|discriminate].
    destruct (maxLen b) as [y|]; [|discriminate].
    intros H; inversion H. specialize (IHa2 x eq_refl). lia.
  - split; [lia|]. intros m.
    destruct (maxLen a) as [x|]; [|discriminate].
    destruct (maxLen b) as [y|]; [|discriminate].
    intros H; inversion H. specialize (IHb2 y eq_refl). lia.
  - split; [|intros m H; lia].
    destruct Hstop as [-> | ->]; [destruct mx; simpl; lia|].
    rewrite Nat.min_0_r. simpl. lia.
  - cbn [minLen maxLen] in IHr1, IHr2. split.
    + destruct mx as [[|k]|]; [congruence| |]; cbn [option_map] in IHr1;
        destruct mn as [|mn]; cbn [pred] in IHr1; nia.
    + intros m. destruct mx as [[|k]|]; [congruence| |discriminate].
      destruct (maxLen a) as [x|]; [|discriminate].
      intros H; inversion H. specialize (IHa2 x eq_refl).
      specialize (IHr2 (k * x) eq_refl). simpl. nia.
  - exact IHa.
Qed.

Lemma derives_alphabet (ic : bool) (r : regex) (i : nat) (u tl : jsstring) :
  derives ic r i u tl -> Forall (fun x => inAlphabet ic r x = true) u.
Proof.
  induction 1 as [ i tl | c x i tl Hx | rs x i tl Hx | x i tl Hx | tl | i
                 | a b i u v tl Da IHa Db IHb
                 | a b i u tl Da IHa | a b i u tl Db IHb
                 | mn mx a i tl Hstop
                 | mn mx a i u v tl Hmx Da IHa Dr IHr
                 | k a i u tl Da IHa ];
    cbn [inAlphabet]; try (constructor; fail).
  - repeat constructor. exact Hx.
  - repeat constructor. exact Hx.
  - repeat constructor. rewrite Hx. reflexivity.
  - apply Forall_app. split.
    + eapply Forall_impl; [|exact IHa]. cbv beta. intros x ->. reflexivity.
    + eapply Forall_impl; [|exact IHb]. cbv beta. intros x ->.
      apply orb_true_r.
  - eapply Forall_impl; [|exact IHa]. cbv beta. intros x ->. reflexivity.
  - eapply Forall_impl; [|exact IHb]. cbv beta. intros x ->.
    apply orb_true_r.
  - apply Forall_app. split; [exact IHa | exact IHr].
  - exact IHa.
Qed.

Lemma match_at_sound (ic : bool) (r : regex) (i : nat) (tl : jsstring)
    (m : match_result) :
  match_at ic r i tl = Some m ->
  exists post,
    tl = matched m ++ post /\ index m = i /\
    derives ic r i (matched m) post.
Proof.
  unfold match_at. destruct (matchL ic r _) as [|s' l] eqn:E; [discriminate|].
  intros H; inversion H; subst m; clear H. cbn [index matched].
  destruct (@matchL_sound ic r _ s' ltac:(rewrite E; left; reflexivity))
    as (u & Hu & Iu & Du).
  cbn [rest endIndex] in Hu, Iu, Du. exists (rest s').
  assert (Hf : firstn (endIndex s' - i) tl = u).
  { rewrite Iu. replace (i + List.length u - i) with (List.length u) by lia.
    rewrite Hu, firstn_app, firstn_all, Nat.sub_diag. simpl.
    apply app_nil_r. }
  rewrite Hf. split; [exact Hu|]. split; [reflexivity | exact Du].
Qed.

(** A match is a part of the string that the pattern derives where it
    stands. *)
Lemma scan_sound (ic : bool) (r : regex) (tl : jsstring) :
  forall i m,
    scan ic r i tl = Some m ->
    exists skipped post,
      tl = skipped ++ matched m ++ post /\
      index m = i + List.length skipped /\
      derives ic r (index m) (matched m) post.
Proof.
  induction tl as [|c tl IH]; intros i m; cbn [scan];
    destruct (match_at ic r i _) as [m0|] eqn:E; try discriminate.
  - intros H; inversion H; subst m0; clear H.
    apply match_at_sound in E. destruct E as (post & Ht & Hi & Hd).
    exists [], post. simpl. rewrite Hi. split; [exact Ht|].
    split; [lia | exact Hd].
  - intros H; inversion H; subst m0; clear H.
    apply match_at_sound in E. destruct E as (post & Ht & Hi & Hd).
    exists [], post. simpl. rewrite Hi. split; [exact Ht|].
    split; [lia | exact Hd].
  - intros H. apply IH in H. destruct H as (skipped & post & Ht & Hi & Hd).
    exists (c :: skipped), post. rewrite Ht. simpl.
    split; [reflexivity|]. split; [lia | exact Hd].
Qed.

Lemma match_sound (s : jsstring) (p : pattern) (m : match_result) :
  match_ s p = Some m ->
  exists pre post,
    s = pre ++ matched m ++ post /\
    derives (ignoreCase p) (source p) (List.length pre) (matched m) post.
Proof.
  intros H. apply scan_sound in H. destruct H as (pre & post & Hs & Hi & Hd).
  exists pre, post. split; [exact Hs|]. simpl in Hi. rewrite <- Hi. exact Hd.
Qed.

(** The group that encloses a whole pattern captures the whole match. *)
Lemma scan_whole_group (ic : bool) (k : nat) (a : regex) (tl : jsstring) :
  forall i m, scan ic (Grp k a) i tl = Some m -> groups m k = Some (matched m).
Proof.
  induction tl as [|c tl IH]; intros i m; simpl; unfold match_at;
    cbn [matchL];
    destruct (matchL ic a _) as [|s1 l] eqn:E; cbn [List.map];
    try discriminate; try apply IH.
  - intros H; inversion H; subst m; clear H. cbn [groups matched captures
      endIndex rest]. unfold set_capture. rewrite Nat.eqb_refl. reflexivity.
  - intros H; inversion H; subst m; clear H. cbn [groups matched captures
      endIndex rest]. unfold set_capture. rewrite Nat.eqb_refl. reflexivity.
Qed.

Lemma derives_Grp (ic : bool) (k : nat) (a : regex) (i : nat)
    (u tl : jsstring) :
  derives ic (Grp k a) i u tl -> derives ic a i u tl.
Proof. intros H. inversion H; subst. assumption. Qed.

(** ** Captures come from the input *)

Lemma repeatL_inside (input : jsstring) (m : mstate -> list mstate)
    (clr : mstate -> mstate) :
  (forall s s', inside input s -> In s' (m s) -> inside input s') ->
  (forall s, inside input s -> inside input (clr s)) ->
  forall fuel mn mx s s',
    inside input s -> In s' (RegExp.repeatL m clr fuel mn mx s) ->
    inside input s'.
Proof.
  intros Hm Hclr fuel.
  induction fuel as [|fuel IH]; intros mn mx s s' Hs; [intros []|].
  unfold RegExp.repeatL; fold RegExp.repeatL.
  destruct (is_zero mx).
  - intros [<- | []]. exact Hs.
  - rewrite in_app_iff, in_flat_map. intros [[s1 [H1 H2]] | H].
    + destruct (Nat.eqb mn 0 && Nat.eqb (endIndex s1) (endIndex s));
        [destruct H2|].
      eapply IH; [|exact H2]. apply (Hm (clr s)); auto.
    + destruct (Nat.eqb mn 0); [|destruct H].
      destruct H as [<- | []]. exact Hs.
Qed.

Lemma step_char_inside (input : jsstring) (p : N -> bool) (s s' : mstate) :
  inside input s -> In s' (step_char p s) -> inside input s'.
Proof.
  intros [[pre Hpre] Hc]. unfold step_char.
  destruct (rest s) as [|c tl] eqn:E; [intros []|].
  destruct (p c); [|intros []]. intros [<- | []]. split; [|exact Hc].
  exists (pre ++ [ c ]). cbn [rest]. rewrite <- app_assoc. exact Hpre.
Qed.

Lemma matchL_inside (input : jsstring) (ic : bool) (r : regex) :
  forall s s', inside input s -> In s' (matchL ic r s) -> inside input s'.
Proof.
  induction r as [| c | rs | | | | a IHa b IHb | a IHa b IHb | mn mx a IHa
                 | k a IHa]; intros s s' Hs; simpl.
  - intros [<- | []]. exact Hs.
  - apply step_char_inside. exact Hs.
  - apply step_char_inside. exact Hs.
  - apply step_char_inside. exact Hs.
  - destruct (Nat.eqb (endIndex s) 0); [|intros []].
    intros [<- | []]. exact Hs.
  - destruct (rest s); [|intros []]. intros [<- | []]. exact Hs.
  - rewrite in_flat_map. intros [s1 [H1 H2]].
    apply (IHb s1); [|exact H2]. apply (IHa s); assumption.
  - rewrite in_app_iff. intros [H | H]; [apply (IHa s) | apply (IHb s)];
      assumption.
  - apply repeatL_inside; [exact IHa | | exact Hs].
    intros s0 [Hp Hc]. split; [exact Hp|]. intros j g. simpl.
    destruct (existsb (Nat.eqb j) (groups_of a)); [discriminate | apply Hc].
  - rewrite in_map_iff. intros [s1 [<- H1]].
    destruct (IHa s s1 Hs H1) as [Hp Hc]. split; [exact Hp|].
    intros j g. cbn [captures]. unfold set_capture.
    destruct (Nat.eqb j k); [|apply Hc].
    intros H; inversion H; subst g; clear H.
    destruct Hs as [[pre Hpre] _].
    exists pre, (skipn (endIndex s1 - endIndex s) (rest s)).
    rewrite firstn_skipn. exact Hpre.
Qed.

Lemma match_at_inside (input : jsstring) (ic : bool) (r : regex) (i : nat)
    (pre tl : jsstring) (m : match_result) (k : nat) (g : jsstring) :
  input = pre ++ tl ->
  match_at ic r i tl = Some m -> groups m k = Some g -> occursIn g input.
Proof.
  intros Hs. unfold match_at.
  destruct (matchL ic r _) as [|s' l] eqn:E; [discriminate|].
  intros H; inversion H; subst m; clear H. cbn [groups]. intros Hk.
  assert (Hin : inside input s').
  { eapply matchL_inside; [|rewrite E; left; reflexivity].
    split; [exists pre; exact Hs | discriminate]. }
  exact (proj2 Hin k g Hk).
Qed.

Lemma scan_inside (input : jsstring) (ic : bool) (r : regex) (tl : jsstring) :
  forall i pre m k g,
    input = pre ++ tl ->
    scan ic r i tl = Some m -> groups m k = Some g -> occursIn g input.
Proof.
  induction tl as [|c tl IH]; intros i pre m k g Hs; cbn [scan];
    destruct (match_at ic r i _) as [m0|] eqn:E; try discriminate.
  - intros H; inversion H; subst m0. eapply match_at_inside; eassumption.
  - intros H; inversion H; subst m0. eapply match_at_inside; eassumption.
  - apply (IH (S i) (pre ++ [ c ])). rewrite <- app_assoc. exact Hs.
Qed.

(** Every element of the array of a match occurs in the string. *)
Lemma match_occursIn (s : jsstring) (p : pattern) (m : match_result)
    (k : nat) (g : jsstring) :
  match_ s p = Some m -> at_ m k = Some g -> occursIn g s.
Proof.
  intros Hm Hk. destruct k as [|k].
  - inversion Hk; subst g.
    destruct (match_sound _ _ Hm) as (pre & post & E & _).
    exists pre, post. exact E.
  - cbn [at_] in Hk. unfold match_ in Hm.
    apply (@scan_inside s _ _ s 0 [] m (S k) g eq_refl Hm Hk).
Qed.

(** ** Where the fields come from *)

Lemma tryNames_value (content : jsstring) (ps : list pattern)
    (state state' : BookingState) :
  tryNames content ps state = Ok state' ->
  state' = state \/
  exists p m g,
    In p ps /\ match_ content p = Some m /\ at_ m 1 = Some g /\
    2 <= List.length (trim g) /\ test nameCheck (trim g) = true /\
    state' = set_patientName (trim g) state.
Proof.
  induction ps as [|p ps IH]; cbn [tryNames].
  - intros H; inversion H. left. reflexivity.
  - destruct (match_ content p) as [m|] eqn:E.
    + destruct (at_ m 1) as [g|] eqn:G; [|discriminate].
      destruct ((2 <=? List.length (trim g)) && test nameCheck (trim g))
        eqn:C.
      * intros H; inversion H. right. exists p, m, g.
        apply andb_true_iff in C. destruct C as [C1 C2].
        apply Nat.leb_le in C1. simpl. auto 10.
      * intros H. destruct (IH H) as [-> | (p' & m' & g' & Hin & R)];
          [left; reflexivity|].
        right. exists p', m', g'. split; [right; exact Hin | exact R].
    + intros H. destruct (IH H) as [-> | (p' & m' & g' & Hin & R)];
        [left; reflexivity|].
      right. exists p', m', g'. split; [right; exact Hin | exact R].
Qed.

Lemma firstGroup_value (content : jsstring) (ps : list pattern)
    (g : jsstring) :
  firstGroup content ps = Ok (Some g) ->
  exists p m, In p ps /\ match_ content p = Some m /\ at_ m 1 = Some g.
Proof.
  induction ps as [|p ps IH]; cbn [firstGroup]; [discriminate|].
  destruct (match_ content p) as [m|] eqn:E.
  - destruct (at_ m 1) as [g'|] eqn:G; [|discriminate].
    intros H; inversion H; subst g'. exists p, m. simpl. auto.
  - intros H. destruct (IH H) as (p' & m' & Hin & R).
    exists p', m'. split; [right; exact Hin | exact R].
Qed.

(** What one message does to the six fields: each is kept, or was empty
    and takes a value its block draws from the message. *)
Lemma processMessage_values (s : BookingState) (message : ChatMessage)
    (s' : BookingState) :
  processMessage s message = Ok s' ->
  (patientName s' = patientName s \/
   nameValue (content message) (patientName s')) /\
  (phoneNumber s' = phoneNumber s \/
   phoneValue (content message) (phoneNumber s')) /\
  (email s' = email s \/ emailValue (content message) (email s')) /\
  (serviceType s' = serviceType s \/
   serviceValue (content message) (serviceType s')) /\
  (preferredDate s' = preferredDate s \/
   dateValue (content message) (preferredDate s')) /\
  (preferredTime s' = preferredTime s \/
   timeValue (content message) (preferredTime s')).
Proof.
  unfold processMessage.
  set (c := content message). set (lc := toLowerCase c).
  (* name *)
  destruct (extractName c s) as [s1|] eqn:E1; [|discriminate]. cbn [bind].
  assert (V1 : s1 = s \/ exists v, nameValue c v /\ s1 = set_patientName v s).
  { unfold extractName in E1. destruct (falsy (patientName s));
      [|inversion E1; auto].
    apply tryNames_value in E1.
    destruct E1 as [-> | (p & m & g & Hin & Hm & Hg & Hl & Ht & ->)];
      [auto|].
    right. exists (trim g). split; [|reflexivity].
    exists p, m, g. auto 10. }
  (* phone *)
  destruct (extractPhone c s1) as [s2|] eqn:E2; [|discriminate]. cbn [bind].
  assert (V2 : s2 = s1 \/
               exists v, phoneValue c v /\ s2 = set_phoneNumber v s1).
  { unfold extractPhone in E2. destruct (falsy (phoneNumber s1));
      [|inversion E2; auto].
    destruct (firstGroup c phonePatterns) as [[g|]|] eqn:F;
      cbn [bind] in E2; inversion E2; [|auto].
    right. exists g. split; [|reflexivity]. apply firstGroup_value. exact F. }
  (* email *)
  assert (V3 : extractEmail c s2 = s2 \/
               exists v, emailValue c v /\
                         extractEmail c s2 = set_email v s2).
  { unfold extractEmail. destruct (falsy (email s2)); [|auto].
    destruct (match_ c emailPattern) as [m|] eqn:F; [|auto].
    right. exists (matched m). split; [|reflexivity]. exists m. auto. }
  set (s3 := extractEmail c s2) in *.
  (* service *)
  assert (V4 : extractService lc s3 = s3 \/
               exists v, serviceValue c v /\
                         (extractService lc s3 = set_serviceType v s3 \/
                          extractService lc s3 =
                          set_urgency (lit "emergency")
                            (set_serviceType v s3))).
  { unfold extractService. destruct (falsy (serviceType s3)); [|auto].
    rewrite tryServices_serviceOf.
    destruct (serviceOf lc serviceKeywords) as [v|] eqn:F; [|auto].
    right. exists v. split; [exact F|].
    destruct (eqb v (lit "emergency")); auto. }
  set (s4 := extractService lc s3) in *.
  (* date *)
  assert (V5 : extractDate lc s4 = s4 \/
               exists v, dateValue c v /\
                         extractDate lc s4 = set_preferredDate v s4).
  { unfold extractDate. destruct (falsy (preferredDate s4)); [|auto].
    rewrite tryDates_dateOf.
    destruct (dateOf lc dateKeywords) as [v|] eqn:F; [|auto].
    right. exists v. split; [exact F | reflexivity]. }
  set (s5 := extractDate lc s4) in *.
  (* time *)
  intros E6.
  assert (V6 : s' = s5 \/
               exists v, timeValue c v /\ s' = set_preferredTime v s5).
  { unfold extractTime in E6. destruct (falsy (preferredTime s5));
      [|inversion E6; auto].
    destruct (firstGroup c timePatterns) as [[g|]|] eqn:F;
      cbn [bind] in E6; inversion E6; [|auto].
    right. exists g. split; [|reflexivity]. apply firstGroup_value. exact F. }
  clear E1 E2 E6.
  destruct V6 as [-> | (v6 & W6 & ->)];
    destruct V5 as [-> | (v5 & W5 & ->)];
    destruct V4 as [-> | (v4 & W4 & [-> | ->])];
    destruct V3 as [-> | (v3 & W3 & ->)];
    destruct V2 as [-> | (v2 & W2 & ->)];
    destruct V1 as [-> | (v1 & W1 & ->)];
    cbn [patientName phoneNumber email serviceType preferredDate
         preferredTime set_patientName set_phoneNumber set_email
         set_serviceType set_urgency set_preferredDate set_preferredTime];
    repeat split; auto.
Qed.

Lemma sourced_keep (messages : list ChatMessage)
    (value : jsstring -> jsstring -> Prop) (message : ChatMessage)
    (old new : jsstring) :
  In message messages -> role message = lit "user" ->
  sourced messages value old ->
  new = old \/ value (content message) new ->
  sourced messages value new.
Proof.
  intros Hin Hr Hold [-> | Hv]; [exact Hold|].
  right. exists message. auto.
Qed.

(** After the loop every field is empty or was given by a user message of
    the list. *)
Lemma looped_sourced (messages : list ChatMessage) (s : BookingState) :
  looped messages = Ok s ->
  sourced messages nameValue (patientName s) /\
  sourced messages phoneValue (phoneNumber s) /\
  sourced messages emailValue (email s) /\
  sourced messages serviceValue (serviceType s) /\
  sourced messages dateValue (preferredDate s) /\
  sourced messages timeValue (preferredTime s).
Proof.
  unfold looped.
  apply (forEach_invariant processMessage
           (fun t =>
              sourced messages nameValue (patientName t) /\
              sourced messages phoneValue (phoneNumber t) /\
              sourced messages emailValue (email t) /\
              sourced messages serviceValue (serviceType t) /\
              sourced messages dateValue (preferredDate t) /\
              sourced messages timeValue (preferredTime t)));
    [|repeat split; left; reflexivity].
  intros t a t' Ha (S1 & S2 & S3 & S4 & S5 & S6) Et.
  apply filter_In in Ha. destruct Ha as [Ha Hu]. apply eqb_eq in Hu.
  apply processMessage_values in Et.
  destruct Et as (V1 & V2 & V3 & V4 & V5 & V6).
  repeat split; eapply sourced_keep; eassumption.
Qed.

Lemma occursIn_trans (a b c : jsstring) :
  occursIn a b -> occursIn b c -> occursIn a c.
Proof.
  intros (p1 & q1 & ->) (p2 & q2 & ->). exists (p2 ++ p1), (q1 ++ q2).
  rewrite <- !app_assoc. reflexivity.
Qed.

Lemma trimStart_suffix (s : jsstring) : exists ws, s = ws ++ trimStart s.
Proof.
  induction s as [|c s [ws IH]]; simpl; [exists []; reflexivity|].
  destruct (is_white c); [|exists []; reflexivity].
  exists (c :: ws). simpl. rewrite <- IH. reflexivity.
Qed.

Lemma trim_occursIn (s : jsstring) : occursIn (trim s) s.
Proof.
  unfold trim, trimEnd.
  destruct (trimStart_suffix s) as [ws1 H1].
  destruct (trimStart_suffix (rev (trimStart s))) as [ws2 H2].
  exists ws1, (rev ws2). rewrite <- rev_app_distr, <- H2, rev_involutive.
  exact H1.
Qed.

Lemma dateOf_In (lowerContent : jsstring) (keywords : list jsstring)
    (v : jsstring) :
  dateOf lowerContent keywords = Some v ->
  In v keywords /\ includes lowerContent v = true.
Proof.
  induction keywords as [|k ks IH]; simpl; [discriminate|].
  destruct (includes lowerContent k) eqn:E.
  - intros H; inversion H; subst v. auto.
  - intros H. destruct (IH H). auto.
Qed.

Lemma serviceOf_keyword (lowerContent : jsstring)
    (entries : list (jsstring * list jsstring)) (v : jsstring) :
  serviceOf lowerContent entries = Some v ->
  exists keywords keyword,
    In (v, keywords) entries /\ In keyword keywords /\
    includes lowerContent keyword = true.
Proof.
  induction entries as [|[sv kws] entries IH]; simpl; [discriminate|].
  destruct (someIncluded lowerContent kws) eqn:E.
  - intros H; inversion H; subst v. unfold someIncluded in E.
    apply existsb_exists in E. destruct E as (kw & Hin & Hk).
    exists kws, kw. auto.
  - intros H. destruct (IH H) as (kws' & kw & Hin & R).
    exists kws', kw. auto.
Qed.

(** X12.  The extractor invents nothing: a name, phone number, e-mail or
    time it returns occurs verbatim in the content of some user message of
    the list; a service is one of the five categories, and a keyword of that
    category occurs in a lowered user message; a date is one of the seven
    keywords and occurs in a lowered user message. *)
Theorem X12_values_come_from_user_messages (messages : list ChatMessage) :
  exists r,
    extractBookingState messages = Ok r /\
    (forall v,
        In v [ patientName r; phoneNumber r; email r; preferredTime r ] ->
        v <> [] ->
        exists message,
          In message messages /\ role message = lit "user" /\
          occursIn v (content message)) /\
    (serviceType r <> [] ->
     exists message keywords keyword,
       In message messages /\ role message = lit "user" /\
       In (serviceType r, keywords) serviceKeywords /\
       In keyword keywords /\
       includes (toLowerCase (content message)) keyword = true) /\
    (preferredDate r <> [] ->
     exists message,
       In message messages /\ role message = lit "user" /\
       In (preferredDate r) dateKeywords /\
       includes (toLowerCase (content message)) (preferredDate r) = true).
Proof.
  destruct (extractBookingState_finish messages) as [s [El E]].
  exists (finish s). split; [exact E|].
  destruct (looped_sourced _ El) as (S1 & S2 & S3 & S4 & S5 & S6).
  change (patientName (finish s)) with (patientName s).
  change (phoneNumber (finish s)) with (phoneNumber s).
  change (email (finish s)) with (email s).
  change (serviceType (finish s)) with (serviceType s).
  change (preferredDate (finish s)) with (preferredDate s).
  change (preferredTime (finish s)) with (preferredTime s).
  split; [|split].
  - intros v [<- | [<- | [<- | [<- | []]]]] Hv.
    + destruct S1 as [H | (msg & Hin & Hr & Hval)]; [contradiction|].
      exists msg. split; [exact Hin|]. split; [exact Hr|].
      destruct Hval as (p & m & g & _ & Hm & Hg & -> & _).
      apply (occursIn_trans (trim_occursIn g)).
      apply (match_occursIn _ _ _ Hm Hg).
    + destruct S2 as [H | (msg & Hin & Hr & Hval)]; [contradiction|].
      exists msg. split; [exact Hin|]. split; [exact Hr|].
      destruct Hval as (p & m & _ & Hm & Hg).
      apply (match_occursIn _ _ _ Hm Hg).
    + destruct S3 as [H | (msg & Hin & Hr & Hval)]; [contradiction|].
      exists msg. split; [exact Hin|]. split; [exact Hr|].
      destruct Hval as (m & Hm & ->).
      apply (match_occursIn _ _ 0 Hm eq_refl).
    + destruct S6 as [H | (msg & Hin & Hr & Hval)]; [contradiction|].
      exists msg. split; [exact Hin|]. split; [exact Hr|].
      destruct Hval as (p & m & _ & Hm & Hg).
      apply (match_occursIn _ _ _ Hm Hg).
  - intros Hv. destruct S4 as [H | (msg & Hin & Hr & Hval)]; [contradiction|].
    apply serviceOf_keyword in Hval. destruct Hval as (kws & kw & R).
    exists msg, kws, kw. tauto.
  - intros Hv. destruct S5 as [H | (msg & Hin & Hr & Hval)]; [contradiction|].
    apply dateOf_In in Hval. exists msg. tauto.
Qed.

(** ** The shape of the values *)

Lemma in_ranges_app (a b : list (N * N)) (c : N) :
  in_ranges (a ++ b) c = in_ranges a c || in_ranges b c.
Proof. apply existsb_app. Qed.

(** A string that passes [nameCheck] is made of letters and white space. *)
Lemma nameCheck_sound (v : jsstring) :
  test nameCheck v = true ->
  Forall (fun c => in_ranges (letters ++ white_ranges) c = true) v.
Proof.
  unfold test. destruct (match_ v nameCheck) as [m|] eqn:E; [|discriminate].
  intros _. apply match_sound in E. destruct E as (pre & post & Hv & D).
  change (source nameCheck)
    with (Cat Bol
            (Cat (Rep 1 None (Cls (letters ++ white_ranges))) Eol)) in D.
  change (ignoreCase nameCheck) with false in D.
  remember (matched m) as whole eqn:Hw. clear Hw.
  inversion D as [| | | | | | a b i u w tl D1 D2 | | | | |]; subst.
  inversion D1; subst.
  inversion D2 as [| | | | | | a b i u' w' tl D3 D4 | | | | |]; subst.
  inversion D4; subst.
  assert (pre = []) as -> by (destruct pre; [reflexivity | discriminate]).
  simpl. rewrite !app_nil_r.
  apply derives_alphabet in D3. cbn [inAlphabet] in D3.
  eapply Forall_impl; [|exact D3]. cbv beta. unfold cls_matches.
  intros c Hc. rewrite andb_false_l, orb_false_r in Hc. exact Hc.
Qed.

Lemma trimStart_head (s : jsstring) (c : N) (t : jsstring) :
  trimStart s = c :: t -> is_white c = false.
Proof.
  induction s as [|x s IH]; simpl; [discriminate|].
  destruct (is_white x) eqn:E; [exact IH|].
  intros H; inversion H; subst. exact E.
Qed.

(** A trimmed string neither starts nor ends with white space. *)
Lemma trim_ends (g : jsstring) (c : N) (t : jsstring) :
  trim g = c :: t ->
  is_white c = false /\ is_white (last (c :: t) c) = false.
Proof.
  unfold trim, trimEnd. intros H.
  destruct (trimStart_suffix (rev (trimStart g))) as [ws Hws].
  assert (Hg : trimStart g = (c :: t) ++ rev ws).
  { rewrite <- H, <- rev_app_distr, <- Hws, rev_involutive. reflexivity. }
  split.
  - apply (@trimStart_head g c (t ++ rev ws)). exact Hg.
  - assert (Hr : trimStart (rev (trimStart g)) = rev (c :: t))
      by (rewrite <- H, rev_involutive; reflexivity).
    destruct (rev (c :: t)) as [|x l] eqn:Er.
    + apply (f_equal (@List.length N)) in Er. rewrite length_rev in Er.
      discriminate.
    + apply trimStart_head in Hr.
      assert (Hl : last (c :: t) c = x).
      { apply (f_equal (@rev N)) in Er. rewrite rev_involutive in Er.
        rewrite Er. simpl. apply last_last. }
      rewrite Hl. exact Hr.
Qed.

Lemma nameValue_shape (content v : jsstring) :
  nameValue content v ->
  2 <= List.length v /\
  Forall (fun c => isLetter c || is_white c = true) v /\
  isLetter (hd 0%N v) = true /\ isLetter (last v 0%N) = true.
Proof.
  intros (p & m & g & _ & _ & _ & Hv & Hl & Ht).
  apply nameCheck_sound in Ht.
  assert (Hf : Forall (fun c => isLetter c || is_white c = true) v).
  { eapply Forall_impl; [|exact Ht]. cbv beta. intros c H.
    rewrite in_ranges_app in H. exact H. }
  split; [exact Hl|]. split; [exact Hf|].
  destruct v as [|c t]; [simpl in Hl; lia|].
  symmetry in Hv. apply trim_ends in Hv. destruct Hv as [W1 W2].
  rewrite Forall_forall in Hf. split.
  - simpl. specialize (Hf c (or_introl eq_refl)).
    rewrite W1, orb_false_r in Hf. exact Hf.
  - assert (Hin : In (last (c :: t) 0%N) (c :: t)).
    { destruct (exists_last (l := c :: t) ltac:(discriminate))
        as (l' & x & Hx).
      rewrite Hx, last_last. apply in_or_app. right. left. reflexivity. }
    replace (last (c :: t) c) with (last (c :: t) 0%N) in W2.
    + specialize (Hf _ Hin). rewrite W2, orb_false_r in Hf. exact Hf.
    + destruct (exists_last (l := c :: t) ltac:(discriminate))
        as (l' & x & Hx).
      rewrite Hx, !last_last. reflexivity.
Qed.

(** X13.  A name the extractor returns has at least two code units, all of
    them ASCII letters or white space, and starts and ends with a letter. *)
Theorem X13_name_shape (messages : list ChatMessage) :
  exists r,
    extractBookingState messages = Ok r /\
    (patientName r = [] \/
     2 <= List.length (patientName r) /\
     Forall (fun c => isLetter c || is_white c = true) (patientName r) /\
     isLetter (hd 0%N (patientName r)) = true /\
     isLetter (last (patientName r) 0%N) = true).
Proof.
  destruct (extractBookingState_finish messages) as [s [El E]].
  exists (finish s). split; [exact E|].
  change (patientName (finish s)) with (patientName s).
  destruct (looped_sourced _ El) as ([H | (msg & _ & _ & Hv)] & _);
    [left; exact H | right].
  apply (nameValue_shape Hv).
Qed.

Lemma chr_matches_exact (p x : N) : chr_matches false p x = true -> x = p.
Proof.
  unfold chr_matches. rewrite andb_false_l, orb_false_r.
  intros H. apply N.eqb_eq in H. auto.
Qed.

Lemma derives_Rep_class (rs : list (N * N)) (mn : nat) (i : nat)
    (u tl : jsstring) :
  derives false (Rep mn None (Cls rs)) i u tl ->
  mn <= List.length u /\ Forall (fun c => in_ranges rs c = true) u.
Proof.
  intros D. split.
  - apply derives_length in D. cbn [minLen] in D. lia.
  - apply derives_alphabet in D. cbn [inAlphabet] in D.
    eapply Forall_impl; [|exact D]. cbv beta. unfold cls_matches.
    intros c Hc. rewrite andb_false_l, orb_false_r in Hc. exact Hc.
Qed.

Lemma count_occ_none (l : jsstring) (x : N) (p : N -> bool) :
  Forall (fun c => p c = true) l -> p x = false ->
  count_occ N.eq_dec l x = 0.
Proof.
  intros Hl Hx. apply count_occ_not_In. intros Hin.
  rewrite Forall_forall in Hl. specialize (Hl x Hin). congruence.
Qed.

Lemma emailValue_shape (content v : jsstring) :
  emailValue content v ->
  exists l d t,
    v = l ++ lit "@" ++ d ++ lit "." ++ t /\
    l <> [] /\ d <> [] /\ 2 <= List.length t /\
    Forall (fun c => isLocalChar c = true) l /\
    Forall (fun c => isDomainChar c = true) d /\
    Forall (fun c => isLetter c = true) t.
Proof.
  intros (m & Hm & ->). apply match_sound in Hm.
  destruct Hm as (pre & post & _ & D).
  change (source emailPattern)
    with (Cat (Rep 1 None (Cls (letters ++ d09 ++ one "._%+-")))
            (Cat (Chr 64)
               (Cat (Rep 1 None (Cls (letters ++ d09 ++ one ".-")))
                  (Cat (Chr 46) (Rep 2 None (Cls letters)))))) in D.
  change (ignoreCase emailPattern) with false in D.
  remember (matched m) as whole eqn:Hw. clear Hw.
  inversion D as [| | | | | | ? ? ? l w1 ? D1 D2 | | | | |]; subst.
  inversion D2 as [| | | | | | ? ? ? a1 w2 ? D3 D4 | | | | |]; subst.
  inversion D3 as [| ? x1 ? ? Hx1 | | | | | | | | | |]; subst.
  inversion D4 as [| | | | | | ? ? ? d w3 ? D5 D6 | | | | |]; subst.
  inversion D6 as [| | | | | | ? ? ? a2 t ? D7 D8 | | | | |]; subst.
  inversion D7 as [| ? x2 ? ? Hx2 | | | | | | | | | |]; subst.
  apply chr_matches_exact in Hx1. apply chr_matches_exact in Hx2. subst.
  apply derives_Rep_class in D1. apply derives_Rep_class in D5.
  apply derives_Rep_class in D8.
  destruct D1 as [L1 A1], D5 as [L5 A5], D8 as [L8 A8].
  exists l, d, t. split; [reflexivity|].
  split; [intros ->; simpl in L1; lia|].
  split; [intros ->; simpl in L5; lia|].
  split; [exact L8|]. auto.
Qed.

(** X14.  An e-mail address the extractor returns has the form
    local@domain.tld: a non-empty local part of letters, digits and
    [._%+-], one [@], a non-empty domain of letters, digits, [.] and [-],
    a dot and at least two letters; it holds exactly one [@] and no white
    space. *)
Theorem X14_email_shape (messages : list ChatMessage) :
  exists r,
    extractBookingState messages = Ok r /\
    (email r = [] \/
     (exists l d t,
         email r = l ++ lit "@" ++ d ++ lit "." ++ t /\
         l <> [] /\ d <> [] /\ 2 <= List.length t /\
         Forall (fun c => isLocalChar c = true) l /\
         Forall (fun c => isDomainChar c = true) d /\
         Forall (fun c => isLetter c = true) t) /\
     count_occ N.eq_dec (email r) 64%N = 1 /\
     Forall (fun c => is_white c = false) (email r)).
Proof.
  destruct (extractBookingState_finish messages) as [s [El E]].
  exists (finish s). split; [exact E|].
  change (email (finish s)) with (email s).
  destruct (looped_sourced _ El) as (_ & _ & [H | (msg & _ & _ & Hv)] & _);
    [left; exact H | right].
  destruct (emailValue_shape Hv) as (l & d & t & -> & Hl & Hd & Ht & Al & Ad & At).
  split; [exists l, d, t; auto 10|]. split.
  - rewrite !count_occ_app.
    rewrite (@count_occ_none _ 64%N isLocalChar Al eq_refl).
    rewrite (@count_occ_none _ 64%N isDomainChar Ad eq_refl).
    rewrite (@count_occ_none _ 64%N isLetter At eq_refl). reflexivity.
  - assert (W : forall (p : N -> bool) (u : jsstring),
               (forall c, p c = true -> is_white c = false) ->
               Forall (fun c => p c = true) u ->
               Forall (fun c => is_white c = false) u).
    { intros p u Hp Hu. eapply Forall_impl; [|exact Hu]. exact Hp. }
    assert (R : forall rs c,
               forallb (fun r => forallb (fun wr =>
                   N.ltb (snd r) (fst wr) || N.ltb (snd wr) (fst r))
                 white_ranges) rs = true ->
               in_ranges rs c = true -> is_white c = false).
    { intros rs c Hrs Hc. unfold in_ranges in Hc.
      apply existsb_exists in Hc. destruct Hc as (r & Hr & Hin).
      rewrite forallb_forall in Hrs. specialize (Hrs r Hr).
      rewrite forallb_forall in Hrs.
      destruct (is_white c) eqn:Ew; [|reflexivity].
      unfold is_white, in_ranges in Ew. apply existsb_exists in Ew.
      destruct Ew as (wr & Hwr & Hw). specialize (Hrs wr Hwr).
      unfold in_range in Hin, Hw.
      apply andb_true_iff in Hin. apply andb_true_iff in Hw.
      destruct Hin as [I1 I2], Hw as [W1 W2].
      apply N.leb_le in I1, I2, W1, W2.
      apply orb_true_iff in Hrs. destruct Hrs as [Hlt | Hlt];
        apply N.ltb_lt in Hlt; lia. }
    apply Forall_app; split; [|apply Forall_app; split;
      [|apply Forall_app; split; [|apply Forall_app; split]]].
    + apply (W isLocalChar); [|exact Al]. intros c. apply R. reflexivity.
    + repeat constructor.
    + apply (W isDomainChar); [|exact Ad]. intros c. apply R. reflexivity.
    + repeat constructor.
    + apply (W isLetter); [|exact At]. intros c. apply R. reflexivity.
Qed.

(** ** Patterns that read a given alphabet only *)

Lemma subranges_sound (a b : list (N * N)) (x : N) :
  subranges a b = true -> in_ranges a x = true -> in_ranges b x = true.
Proof.
  unfold subranges, in_ranges. intros Hab Hx.
  apply existsb_exists in Hx. destruct Hx as (r & Hr & Hin).
  rewrite forallb_forall in Hab. specialize (Hab r Hr).
  apply existsb_exists in Hab. destruct Hab as (q & Hq & Hle).
  apply existsb_exists. exists q. split; [exact Hq|].
  unfold in_range in *.
  apply andb_true_iff in Hin. apply andb_true_iff in Hle.
  destruct Hin as [I1 I2], Hle as [L1 L2].
  apply N.leb_le in I1, I2, L1, L2.
  apply andb_true_iff. split; apply N.leb_le; lia.
Qed.

Lemma swapcase_involutive (x : N) : swapcase (swapcase x) = x.
Proof.
  unfold swapcase, is_upper, is_lower, in_range.
  destruct (N.leb 65 x) eqn:A; destruct (N.leb x 90) eqn:B;
  destruct (N.leb 97 x) eqn:C; destruct (N.leb x 122) eqn:D;
    cbn [andb];
    try apply N.leb_le in A; try apply N.leb_gt in A;
    try apply N.leb_le in B; try apply N.leb_gt in B;
    try apply N.leb_le in C; try apply N.leb_gt in C;
    try apply N.leb_le in D; try apply N.leb_gt in D;
    try lia.
  all: repeat match goal with
       | |- context [N.leb ?a ?b] =>
           let E := fresh in
           destruct (N.leb a b) eqn:E;
           [apply N.leb_le in E | apply N.leb_gt in E]
       end; cbn [andb]; lia.
Qed.

Lemma caseless_sound (rs : list (N * N)) (x : N) :
  caseless rs = true -> in_ranges rs (swapcase x) = true ->
  in_ranges rs x = true.
Proof.
  intros Hc Hx.
  assert (Hy : is_upper (swapcase x) = false /\ is_lower (swapcase x) = false).
  { unfold in_ranges in Hx. apply existsb_exists in Hx.
    destruct Hx as (r & Hr & Hin). unfold caseless in Hc.
    rewrite forallb_forall in Hc. specialize (Hc r Hr).
    apply andb_true_iff in Hc. destruct Hc as [C1 C2].
    unfold in_range in Hin. apply andb_true_iff in Hin.
    destruct Hin as [I1 I2]. apply N.leb_le in I1, I2.
    unfold is_upper, is_lower, in_range. split.
    - apply orb_true_iff in C1. apply andb_false_iff.
      destruct C1 as [C | C]; apply N.ltb_lt in C;
        [left | right]; apply N.leb_gt; lia.
    - apply orb_true_iff in C2. apply andb_false_iff.
      destruct C2 as [C | C]; apply N.ltb_lt in C;
        [left | right]; apply N.leb_gt; lia. }
  destruct Hy as [U L].
  assert (E : swapcase x = x).
  { rewrite <- (swapcase_involutive x) at 2.
    unfold swapcase at 2. rewrite U, L. reflexivity. }
  rewrite <- E. exact Hx.
Qed.

Lemma within_sound (ic : bool) (r : regex) (b : list (N * N)) (x : N) :
  within ic r b = true -> inAlphabet ic r x = true -> in_ranges b x = true.
Proof.
  induction r as [ | c | rs | | | | r1 IH1 r2 IH2 | r1 IH1 r2 IH2
                 | mn mx r1 IH1 | k r1 IH1 ];
    cbn [within inAlphabet]; try discriminate; auto.
  - intros W H. apply andb_true_iff in W. destruct W as [W1 W2].
    unfold chr_matches in H. apply orb_true_iff in H.
    destruct H as [H | H].
    + apply N.eqb_eq in H. subst x. exact W1.
    + apply andb_true_iff in H. destruct H as [Hic H]. subst ic.
      apply N.eqb_eq in H. cbn [negb orb] in W2.
      assert (x = swapcase c) as ->
        by (rewrite H; symmetry; apply swapcase_involutive).
      exact W2.
  - intros W H. apply andb_true_iff in W. destruct W as [W1 W2].
    unfold cls_matches in H. apply orb_true_iff in H.
    destruct H as [H | H].
    + eapply subranges_sound; eassumption.
    + apply andb_true_iff in H. destruct H as [Hic H]. subst ic.
      cbn [negb orb] in W2. eapply subranges_sound; [exact W1|].
      eapply caseless_sound; eassumption.
  - intros W H. apply andb_true_iff in W. destruct W as [W1 W2].
    apply orb_true_iff in H. destruct H; auto.
  - intros W H. apply andb_true_iff in W. destruct W as [W1 W2].
    apply orb_true_iff in H. destruct H; auto.
Qed.

(** What the first group of a pattern [(a)] captures is what [a] read. *)
Lemma grouped_value (content : jsstring) (p : pattern) (a : regex)
    (m : match_result) (v : jsstring) :
  source p = Grp 1 a -> match_ content p = Some m -> at_ m 1 = Some v ->
  exists i tl, derives (ignoreCase p) a i v tl.
Proof.
  intros Hs Hm Hv.
  assert (Hg : groups m 1 = Some (matched m)).
  { unfold match_ in Hm. rewrite Hs in Hm.
    eapply scan_whole_group; exact Hm. }
  cbn [at_] in Hv. rewrite Hg in Hv. inversion Hv; subst v; clear Hv.
  apply match_sound in Hm. destruct Hm as (pre & post & _ & D).
  rewrite Hs in D. apply derives_Grp in D. eauto.
Qed.

Lemma derives_Rep_head (ic : bool) (mn : nat) (mx : option nat)
    (rs : list (N * N)) (i : nat) (u tl : jsstring) :
  mx <> Some 0 ->
  derives ic (Rep (S mn) mx (Cls rs)) i u tl ->
  exists x u', u = x :: u' /\ cls_matches ic rs x = true.
Proof.
  intros Hmx D.
  inversion D as [| | | | | | | | | ? ? ? ? ? Hstop
                 | ? ? ? ? u1 v1 ? _ D1 D2 |]; subst.
  - destruct Hstop; [discriminate | contradiction].
  - inversion D1 as [| | ? x ? ? Hx | | | | | | | | |]; subst.
    exists x, v1. split; [reflexivity | exact Hx].
Qed.

Lemma derives_Cat_head (ic : bool) (a b : regex) (i : nat)
    (u tl : jsstring) (P : N -> Prop) :
  (forall j w t, derives ic a j w t -> exists x w', w = x :: w' /\ P x) ->
  derives ic (Cat a b) i u tl ->
  exists x u', u = x :: u' /\ P x.
Proof.
  intros Ha D. inversion D as [| | | | | | ? ? ? w v ? D1 D2 | | | | |]; subst.
  destruct (Ha _ _ _ D1) as (x & w' & -> & Hx). simpl. eauto.
Qed.

Lemma digit_head (ic : bool) (x : N) :
  cls_matches ic d09 x = true -> isDigit x = true.
Proof.
  unfold cls_matches, isDigit. intros H. apply orb_true_iff in H.
  destruct H as [H | H]; [exact H|].
  apply andb_true_iff in H. destruct H as [_ H].
  eapply caseless_sound; [reflexivity | exact H].
Qed.

Lemma digits_head (ic : bool) (n : nat) (mx : option nat) (b : regex)
    (i : nat) (v tl : jsstring) :
  mx <> Some 0 ->
  derives ic (Cat (Rep (S n) mx digit) b) i v tl ->
  isDigit (hd 0%N v) = true.
Proof.
  intros Hmx D.
  destruct (@derives_Cat_head ic _ _ _ _ _
              (fun x => isDigit x = true)
              (fun j w t Dw =>
                 match @derives_Rep_head ic n mx d09 j w t Hmx Dw with
                 | ex_intro _ x (ex_intro _ w' (conj E Hx)) =>
                     ex_intro _ x (ex_intro _ w' (conj E (@digit_head _ _ Hx)))
                 end) D) as (x & u' & -> & Hx).
  exact Hx.
Qed.

Lemma phoneValue_shape (content v : jsstring) :
  phoneValue content v ->
  10 <= List.length v <= 17 /\
  Forall (fun c => isPhoneChar c = true) v /\
  (isDigit (hd 0%N v) = true \/ hd 0%N v = 43%N).
Proof.
  intros (p & m & Hp & Hm & Hv).
  assert (A : forall a lo hi,
             source p = Grp 1 a -> ignoreCase p = false ->
             minLen a = lo -> maxLen a = Some hi ->
             within false a (d09 ++ one "+-." ++ white_ranges) = true ->
             10 <= lo -> hi <= 17 ->
             (forall i tl, derives false a i v tl ->
                isDigit (hd 0%N v) = true \/ hd 0%N v = 43%N) ->
             10 <= List.length v <= 17 /\
             Forall (fun c => isPhoneChar c = true) v /\
             (isDigit (hd 0%N v) = true \/ hd 0%N v = 43%N)).
  { intros a lo hi Hs Hic Hlo Hhi Hw L1 L2 Hh.
    destruct (@grouped_value _ _ _ _ _ Hs Hm Hv) as (i & tl & D).
    rewrite Hic in D.
    destruct (@derives_length _ _ _ _ _ D) as [M1 M2]. specialize (M2 _ Hhi).
    split; [lia|]. split; [|exact (Hh _ _ D)].
    eapply Forall_impl; [|exact (@derives_alphabet _ _ _ _ _ D)]. cbv beta.
    intros c Hc. eapply within_sound; eassumption. }
  destruct Hp as [<- | [<- | [<- | [<- | []]]]].
  - eapply A; try reflexivity; try lia.
    intros i tl D. cbn [cat times] in D.
    left. eapply digits_head; [|exact D]. discriminate.
  - eapply A; try reflexivity; try lia.
    intros i tl D. cbn [cat times] in D.
    left. eapply digits_head; [|exact D]. discriminate.
  - eapply A; try reflexivity; try lia.
    intros i tl D. right. cbn [cat] in D.
    change (chr "+") with (Chr 43) in D.
    inversion D as [| | | | | | ? ? ? w u ? D1 D2 | | | | |]; subst.
    inversion D1 as [| ? x ? ? Hx | | | | | | | | | |]; subst.
    apply chr_matches_exact in Hx. subst. reflexivity.
  - eapply A; try reflexivity; try lia.
    intros i tl D. left.
    unfold between, digit in D.
    destruct (@derives_Rep_head false 9 (Some 12) d09 i v tl
                ltac:(discriminate) D) as (x & u' & -> & Hx).
    eapply digit_head; exact Hx.
Qed.

(** X15.  A phone number the extractor returns has 10 to 17 code units, all
    of them digits, [+], [-], [.] or white space, and starts with a digit or
    with [+]. *)
Theorem X15_phone_shape (messages : list ChatMessage) :
  exists r,
    extractBookingState messages = Ok r /\
    (phoneNumber r = [] \/
     10 <= List.length (phoneNumber r) <= 17 /\
     Forall (fun c => isPhoneChar c = true) (phoneNumber r) /\
     (isDigit (hd 0%N (phoneNumber r)) = true \/
      [ hd 0%N (phoneNumber r) ] = lit "+")).
Proof.
  destruct (extractBookingState_finish messages) as [s [El E]].
  exists (finish s). split; [exact E|].
  change (phoneNumber (finish s)) with (phoneNumber s).
  destruct (looped_sourced _ El) as (_ & [H | (msg & _ & _ & Hv)] & _);
    [left; exact H | right].
  destruct (phoneValue_shape Hv) as (L & F & [D | P]).
  - auto.
  - split; [exact L|]. split; [exact F|]. right. rewrite P. reflexivity.
Qed.

Lemma timeValue_shape (content v : jsstring) :
  timeValue content v ->
  3 <= List.length v /\
  Forall (fun c => isTimeChar c = true) v /\
  isDigit (hd 0%N v) = true.
Proof.
  intros (p & m & Hp & Hm & Hv).
  assert (A : forall a lo,
             source p = Grp 1 a -> ignoreCase p = true ->
             minLen a = lo ->
             within true a (d09 ++ one ":" ++ white_ranges ++ one "apmAPM")
               = true ->
             3 <= lo ->
             (forall i tl, derives true a i v tl ->
                isDigit (hd 0%N v) = true) ->
             3 <= List.length v /\
             Forall (fun c => isTimeChar c = true) v /\
             isDigit (hd 0%N v) = true).
  { intros a lo Hs Hic Hlo Hw L1 Hh.
    destruct (@grouped_value _ _ _ _ _ Hs Hm Hv) as (i & tl & D).
    rewrite Hic in D.
    destruct (@derives_length _ _ _ _ _ D) as [M1 _].
    split; [lia|]. split; [|exact (Hh _ _ D)].
    eapply Forall_impl; [|exact (@derives_alphabet _ _ _ _ _ D)]. cbv beta.
    intros c Hc. eapply within_sound; eassumption. }
  destruct Hp as [<- | [<- | [<- | []]]];
    (eapply A; try reflexivity; try (cbn [minLen cat between]; simpl; lia);
     intros i tl D; cbn [cat between] in D;
     eapply digits_head; [|exact D]; discriminate).
Qed.

(** X16.  A time the extractor returns has at least three code units, all of
    them digits, [:], white space or one of the letters a, p, m in either
    case, and starts with a digit. *)
Theorem X16_time_shape (messages : list ChatMessage) :
  exists r,
    extractBookingState messages = Ok r /\
    (preferredTime r = [] \/
     3 <= List.length (preferredTime r) /\
     Forall (fun c => isTimeChar c = true) (preferredTime r) /\
     isDigit (hd 0%N (preferredTime r)) = true).
Proof.
  destruct (extractBookingState_finish messages) as [s [El E]].
  exists (finish s). split; [exact E|].
  change (preferredTime (finish s)) with (preferredTime s).
  destruct (looped_sourced _ El)
    as (_ & _ & _ & _ & _ & [H | (msg & _ & _ & Hv)]);
    [left; exact H | right].
  apply (timeValue_shape Hv).
Qed.

(** ** The scripted replies *)

Lemma includes_head (v b : jsstring) : includes (v ++ b) v = true.
Proof. apply includes_spec. exists [], b. reflexivity. Qed.

(** X17.  The scripted reply used when the language model cannot be reached
    repeats what the extractor has collected, and never an empty value: at
    the steps 2 to 6 it quotes the field filled last, which is not empty, and
    at step 7 its summary holds each of the six fields, none of them
    empty. *)
Theorem X17_fallback_echoes_collected_values (messages : list ChatMessage) :
  exists r,
    extractBookingState messages = Ok r /\
    (forall k,
        step r = S (S k) -> k < 5 ->
        nth k (fields r) [] <> [] /\
        includes (getFallbackResponse r) (nth k (fields r) []) = true) /\
    (step r = 7 ->
     Forall (fun f => f <> [] /\ includes (getFallbackResponse r) f = true)
       (fields r)).
Proof.
  destruct (extractBookingState_finish messages) as [s [_ E]].
  exists (finish s). split; [exact E|].
  pose proof (determineCurrentStep_fields s) as F.
  unfold getFallbackResponse.
  change (step (finish s)) with (determineCurrentStep s).
  change (fields (finish s)) with (fields s).
  change (patientName (finish s)) with (patientName s).
  change (phoneNumber (finish s)) with (phoneNumber s).
  change (email (finish s)) with (email s).
  change (serviceType (finish s)) with (serviceType s).
  change (preferredDate (finish s)) with (preferredDate s).
  change (preferredTime (finish s)) with (preferredTime s).
  repeat match goal with
         | |- context [lit ?x] => generalize (lit x); intro
         | |- context [text ?x] => generalize (text x); intro
         end.
  generalize nl quote. intros n q.
  destruct (determineCurrentStep s) as [|[|[|[|[|[|[|[|k']]]]]]]];
    cbv beta iota; (split; [intros k Hk Hlt | intros H7]);
    try discriminate;
    try (injection Hk as <-); try lia;
    cbn [nth fields].
  - split; [tauto|]. repeat first [apply includes_head | apply includes_app_r].
  - split; [tauto|]. repeat first [apply includes_head | apply includes_app_r].
  - split; [tauto|]. repeat first [apply includes_head | apply includes_app_r].
  - split; [tauto|]. repeat first [apply includes_head | apply includes_app_r].
  - split; [tauto|]. repeat first [apply includes_head | apply includes_app_r].
  - destruct F as (F1 & F2 & F3 & F4 & F5 & F6).
    repeat (apply Forall_cons;
            [split;
             [assumption
             |repeat first [apply includes_head | apply includes_app_r]] |]).
    constructor.
Qed.

(** ** The second extraction of [updateBookingState] *)

Lemma merged_finish (state : BookingState) :
  merged (finish state) (finish state) = finish state.
Proof.
  unfold merged. cbn. rewrite !or_else_same. reflexivity.
Qed.

(** X18.  [updateBookingState], given the record extracted from a list and
    the same list, as in [POST], changes nothing but the completion flag:
    whatever the latest message, the record it returns is the extracted one
    once the flag is put back, so the six fields, the urgency, the notes and
    the step are those of the first extraction. *)
Theorem X18_update_only_sets_completion (messages : list ChatMessage) :
  exists r,
    extractBookingState messages = Ok r /\
    forall latestMessage,
      exists r',
        updateBookingState r latestMessage messages = Ok r' /\
        set_isComplete (isComplete r) r' = r /\
        fields r' = fields r /\ urgency r' = urgency r /\ step r' = step r.
Proof.
  destruct (extractBookingState_finish messages) as [s [_ E]].
  exists (finish s). split; [exact E|]. intros latestMessage.
  eexists. split; [apply (@updateBookingState_merged _ _ _ _ E)|].
  rewrite merged_finish.
  destruct (confirmed_same latestMessage (finish s)) as (Cf & Cu & Cs).
  split; [|auto].
  unfold confirmed. destruct (_ && _); reflexivity.
Qed.
